(** * GPS route optimizer: graph store, edge cost model and Dijkstra search

    A shallow embedding of [src/graph.h] and [src/graph.cpp].

    - [long long] identities and the [int] hour are integers of [Z]; the code
      only compares them, so no wrap-around arises.
    - [double] is Rocq's primitive binary64 [float]; [+], [*], [/], [<] and
      [==] are the IEEE 754 operations the C++ code compiles to.
    - [std::unordered_map] is a [gmap]; [operator[]] is [subscript], which
      inserts a value-initialised entry when the key is missing.
    - [std::vector] is a [list]; [push_back] appends at the end.
    - The two [while] loops of [dijkstra] take fuel: every evaluation of a
      loop condition costs one unit and [None] means that the call has not
      returned within the given fuel. *)

From Stdlib Require Import ZArith Floats.
From stdpp Require Import gmap strings list fin_maps.

Set Warnings "-inexact-float".
Local Open Scope Z_scope.

(** ** Data model ([graph.h]) *)

Record Node := mkNode {
  id : Z;
  lat : float;
  lon : float
}.

Record Edge := mkEdge {
  to : Z;
  distance : float;          (* meters *)
  speed_limit : float;       (* km/h *)
  road_type : string;
  crowd_multiplier : float
}.

Inductive RouteMode := DISTANCE | SPEED_LIMIT | LEARNED.

Record RouteResult := mkRouteResult {
  path : list Z;
  total_distance : float;
  estimated_time : float;
  mode : RouteMode;
  mode_name : string
}.

Record Graph := mkGraph {
  nodes : gmap Z Node;
  adjacency_list : gmap Z (list Edge)
}.

Definition empty_graph : Graph := mkGraph ∅ ∅.

(** [m[k]] of [std::unordered_map]: the stored value, or a value-initialised
    one ([dflt]) that is inserted under [k] first. *)
Definition subscript {V} (dflt : V) (m : gmap Z V) (k : Z) : V * gmap Z V :=
  match m !! k with
  | Some v => (v, m)
  | None => (dflt, <[k := dflt]> m)
  end.

(** ** Graph store *)

Definition addNode (g : Graph) (id : Z) (lat lon : float) : Graph :=
  mkGraph (<[id := mkNode id lat lon]> (nodes g)) (adjacency_list g).

(** The speed chosen by the [if]/[else if] chain of [addEdge]. *)
Definition speed_limit_of (road_type : string) : float :=
  if (String.eqb road_type "motorway" || String.eqb road_type "motorway_link")%bool
  then 100%float
  else if (String.eqb road_type "trunk" || String.eqb road_type "trunk_link")%bool
  then 80%float
  else if (String.eqb road_type "primary" || String.eqb road_type "primary_link")%bool
  then 65%float
  else if String.eqb road_type "secondary" then 55%float
  else if (String.eqb road_type "tertiary" || String.eqb road_type "residential")%bool
  then 40%float
  else if String.eqb road_type "living_street" then 20%float
  else 50%float.

Definition addEdge (g : Graph) (from to : Z) (distance : float)
    (road_type : string) : Graph :=
  let speed_limit := speed_limit_of road_type in
  let (edges, adj) := subscript [] (adjacency_list g) from in
  mkGraph (nodes g)
    (<[from := edges ++ [mkEdge to distance speed_limit road_type 1%float]]> adj).

Definition getNode (g : Graph) (id : Z) : option Node := nodes g !! id.

Definition getEdges (g : Graph) (id : Z) : option (list Edge) :=
  adjacency_list g !! id.

Definition nodeCount (g : Graph) : nat := size (nodes g).

Definition edgeCount (g : Graph) : nat :=
  map_fold (fun _ edges count => (count + length edges)%nat) 0%nat
    (adjacency_list g).

(** ** Crowd pattern annotation

    The random source is the sequence [draws] of values [dis(gen)] returns,
    consumed left to right; [&&] short-circuits, so a draw is taken only for
    an edge of a matching road class. *)

Record Annotator := mkAnnotator {
  next_draw : nat;
  shortcuts_found : Z;
  congestion_points : Z
}.

(** [edge.crowd_multiplier = c]. *)
Definition set_crowd_multiplier (c : float) (edge : Edge) : Edge :=
  mkEdge (to edge) (distance edge) (speed_limit edge) (road_type edge) c.

Definition annotate_edge (draws : nat -> float) (st : Annotator) (edge : Edge)
    : Annotator * Edge :=
  let '(st, edge) :=
    if (String.eqb (road_type edge) "motorway" || String.eqb (road_type edge) "trunk")%bool
    then
      if (draws (next_draw st) <? 0.05)%float
      then (mkAnnotator (S (next_draw st)) (shortcuts_found st)
              (congestion_points st + 1),
            set_crowd_multiplier 0.6 edge)
      else (mkAnnotator (S (next_draw st)) (shortcuts_found st)
              (congestion_points st), edge)
    else (st, edge) in
  let '(st, edge) :=
    if (String.eqb (road_type edge) "primary" || String.eqb (road_type edge) "secondary")%bool
    then
      if (draws (next_draw st) <? 0.03)%float
      then (mkAnnotator (S (next_draw st)) (shortcuts_found st + 1)
              (congestion_points st),
            set_crowd_multiplier 1.4 edge)
      else (mkAnnotator (S (next_draw st)) (shortcuts_found st)
              (congestion_points st), edge)
    else (st, edge) in
  if String.eqb (road_type edge) "residential"
  then
    if (draws (next_draw st) <? 0.02)%float
    then (mkAnnotator (S (next_draw st)) (shortcuts_found st + 1)
            (congestion_points st),
          set_crowd_multiplier 1.2 edge)
    else (mkAnnotator (S (next_draw st)) (shortcuts_found st)
            (congestion_points st), edge)
  else (st, edge).

(** The inner [for] over one adjacency vector. *)
Fixpoint annotate_edges (draws : nat -> float) (st : Annotator)
    (edges : list Edge) : Annotator * list Edge :=
  match edges with
  | [] => (st, [])
  | edge :: rest =>
      let (st, edge) := annotate_edge draws st edge in
      let (st, rest) := annotate_edges draws st rest in
      (st, edge :: rest)
  end.

(** The outer [for] over the entries of [adjacency_list], in the order the
    container enumerates them. *)
Fixpoint annotate_entries (draws : nat -> float) (st : Annotator)
    (entries : list (Z * list Edge)) : Annotator * list (Z * list Edge) :=
  match entries with
  | [] => (st, [])
  | (from, edges) :: rest =>
      let (st, edges) := annotate_edges draws st edges in
      let (st, rest) := annotate_entries draws st rest in
      (st, (from, edges) :: rest)
  end.

Definition applyLearnedPatterns (draws : nat -> float) (g : Graph)
    : Annotator * Graph :=
  let (st, entries) :=
    annotate_entries draws (mkAnnotator 0 0 0) (map_to_list (adjacency_list g)) in
  (st, mkGraph (nodes g) (list_to_map entries)).

(** ** Edge cost model *)

Definition getTimeAdjustedSpeed (edge : Edge) (hour_of_day : Z) : float :=
  let base_speed := speed_limit edge in
  let morning_rush := ((7 <=? hour_of_day) && (hour_of_day <=? 9))%bool in
  let evening_rush := ((17 <=? hour_of_day) && (hour_of_day <=? 19))%bool in
  if (morning_rush || evening_rush)%bool then
    if (String.eqb (road_type edge) "motorway" || String.eqb (road_type edge) "trunk")%bool
    then (base_speed * 0.4)%float
    else if String.eqb (road_type edge) "primary"
    then (base_speed * 0.6)%float
    else if (String.eqb (road_type edge) "secondary" || String.eqb (road_type edge) "tertiary")%bool
    then (base_speed * 0.8)%float
    else base_speed
  else base_speed.

Definition calculateEdgeWeight (edge : Edge) (mode : RouteMode)
    (hour_of_day : Z) : float :=
  match mode with
  | DISTANCE => distance edge
  | SPEED_LIMIT => (distance edge / (speed_limit edge * 1000 / 3600))%float
  | LEARNED =>
      let adjusted_speed := getTimeAdjustedSpeed edge hour_of_day in
      let adjusted_speed := (adjusted_speed * crowd_multiplier edge)%float in
      (distance edge / (adjusted_speed * 1000 / 3600))%float
  end.

(** ** Shortest path engine *)

Definition PQElement : Type := float * Z.

(** [operator<] of [std::pair<double, long long>]. *)
Definition pair_lt (a b : PQElement) : bool :=
  ((a.1 <? b.1)%float || (negb (b.1 <? a.1)%float && (a.2 <? b.2)))%bool.

(** [pq.top()] followed by [pq.pop()] on a
    [std::priority_queue<PQElement, std::vector<PQElement>, std::greater<PQElement>>]:
    a least entry under [operator<] and the remaining entries.  The queue is
    kept as the list of its entries, most recent push first; [None] is the
    empty queue.  A distance enters the queue as 0.0 or after it compared
    below another one, so it is never NaN, and two entries that neither
    precede the other have the same identity and distances that differ at
    most in the sign of a zero. *)
Fixpoint pq_top_pop (pq : list PQElement) : option (PQElement * list PQElement) :=
  match pq with
  | [] => None
  | x :: rest =>
      match pq_top_pop rest with
      | None => Some (x, [])
      | Some (y, rest') =>
          if pair_lt y x then Some (y, x :: rest') else Some (x, rest)
      end
  end.

Record Search := mkSearch {
  distances : gmap Z float;
  previous : gmap Z Z;
  pq : list PQElement
}.

(** Body of the [for] over the outgoing edges of [current_id]. *)
Definition relax (mode : RouteMode) (hour_of_day : Z) (current_dist : float)
    (current_id : Z) (st : Search) (edge : Edge) : Search :=
  let weight := calculateEdgeWeight edge mode hour_of_day in
  let new_dist := (current_dist + weight)%float in
  let (d, distances1) := subscript 0%float (distances st) (to edge) in
  if (new_dist <? d)%float
  then mkSearch (<[to edge := new_dist]> distances1)
         (<[to edge := current_id]> (previous st))
         ((new_dist, to edge) :: pq st)
  else mkSearch distances1 (previous st) (pq st).

Inductive Outcome :=
  | Running (st : Search)    (* back to the loop condition *)
  | Stopped (st : Search).   (* the queue is empty, or [break] *)

(** One evaluation of [while (!pq.empty())] and of its body. *)
Definition search_step (g : Graph) (end_id : Z) (mode : RouteMode)
    (hour_of_day : Z) (st : Search) : Outcome :=
  match pq_top_pop (pq st) with
  | None => Stopped st
  | Some ((current_dist, current_id), pq1) =>
      if current_id =? end_id
      then Stopped (mkSearch (distances st) (previous st) pq1)
      else
        let (d, distances1) := subscript 0%float (distances st) current_id in
        let st1 := mkSearch distances1 (previous st) pq1 in
        if (d <? current_dist)%float          (* current_dist > distances[current_id] *)
        then Running st1
        else
          match getEdges g current_id with
          | Some edges =>
              Running (fold_left (relax mode hour_of_day current_dist current_id)
                         edges st1)
          | None => Running st1
          end
  end.

Fixpoint search_loop (fuel : nat) (g : Graph) (end_id : Z) (mode : RouteMode)
    (hour_of_day : Z) (st : Search) : option Search :=
  match fuel with
  | O => None
  | S fuel =>
      match search_step g end_id mode hour_of_day st with
      | Stopped st' => Some st'
      | Running st' => search_loop fuel g end_id mode hour_of_day st'
      end
  end.

(** [while (current != start_id)] of the path reconstruction. *)
Fixpoint walk_back (fuel : nat) (start_id : Z) (previous : gmap Z Z)
    (current : Z) (path : list Z) : option (list Z) :=
  match fuel with
  | O => None
  | S fuel =>
      if current =? start_id then Some path
      else
        let (p, previous1) := subscript 0 previous current in
        walk_back fuel start_id previous1 p (path ++ [current])
  end.

(** The inner [for] of the metric pass: the first edge leading to [next]
    is added to the totals and the loop breaks. *)
Fixpoint scan_edges (hour_of_day : Z) (edges : list Edge) (next : Z)
    (totals : float * float) : float * float :=
  match edges with
  | [] => totals
  | edge :: rest =>
      if to edge =? next then
        let speed :=
          (getTimeAdjustedSpeed edge hour_of_day * crowd_multiplier edge)%float in
        ((totals.1 + distance edge)%float,
         (totals.2 + distance edge / (speed * 1000 / 3600))%float)
      else scan_edges hour_of_day rest next totals
  end.

(** [for (size_t i = 0; i < result.path.size() - 1; i++)]; the path holds at
    least [start_id] here, so the unsigned subtraction does not wrap. *)
Definition route_metrics (g : Graph) (hour_of_day : Z) (path : list Z)
    : float * float :=
  fold_left
    (fun totals i =>
       match path !! i, path !! S i with
       | Some a, Some b =>
           match getEdges g a with
           | Some edges => scan_edges hour_of_day edges b totals
           | None => totals
           end
       | _, _ => totals
       end)
    (seq 0 (length path - 1)) (0%float, 0%float).

Definition mode_name_of (mode : RouteMode) : string :=
  match mode with
  | DISTANCE => "Pure Distance"
  | SPEED_LIMIT => "Speed Limit (Traditional GPS)"
  | LEARNED => "Learned Patterns (Advanced)"
  end.

(** [distances[node_pair.first] = infinity] for every entry of [nodes]. *)
Definition init_distances (nodes : gmap Z Node) : gmap Z float :=
  fold_left (fun distances node_pair => <[node_pair.1 := infinity]> distances)
    (map_to_list nodes) ∅.

Definition init_search (g : Graph) (start_id : Z) : Search :=
  mkSearch (<[start_id := 0%float]> (init_distances (nodes g))) ∅
    [(0%float, start_id)].

Definition dijkstra (fuel : nat) (g : Graph) (start_id end_id : Z)
    (mode : RouteMode) (hour_of_day : Z) : option RouteResult :=
  match search_loop fuel g end_id mode hour_of_day (init_search g start_id) with
  | None => None
  | Some st =>
      let (d, _) := subscript 0%float (distances st) end_id in
      if (d =? infinity)%float
      then Some (mkRouteResult [] 0 0 mode (mode_name_of mode))   (* no path found *)
      else
        match walk_back fuel start_id (previous st) end_id [] with
        | None => None
        | Some path =>
            let path := rev (path ++ [start_id]) in
            let (total_distance, estimated_time) :=
              route_metrics g hour_of_day path in
            Some (mkRouteResult path total_distance estimated_time mode
                    (mode_name_of mode))
        end
  end.

(** ** Reference definitions used in the statements *)

(** The road classes listed in the speed table. *)
Definition known_road_types : list string :=
  ["motorway"; "motorway_link"; "trunk"; "trunk_link"; "primary";
   "primary_link"; "secondary"; "tertiary"; "residential"; "living_street"].

(** The hours the specification lists as rush hours. *)
Definition rush_hours : list Z := [7; 8; 9; 17; 18; 19].

(** The road classes slowed down in rush hours. *)
Definition rush_road_types : list string :=
  ["motorway"; "trunk"; "primary"; "secondary"; "tertiary"].

(** Travel time over one edge at its time-adjusted, crowd-corrected speed,
    the speed converted from km/h to m/s. *)
Definition learned_time (hour_of_day : Z) (edge : Edge) : float :=
  (distance edge /
     ((getTimeAdjustedSpeed edge hour_of_day * crowd_multiplier edge) * 1000 / 3600))%float.

(** Sum of a list of doubles, accumulated from 0.0 in list order. *)
Definition sum_doubles (l : list float) : float :=
  fold_left PrimFloat.add l 0%float.

(** ** Histories of the graph store *)

(** A call that changes the graph; [draws] is the outcome of the random
    draws of one annotation pass. *)
Inductive GraphOp :=
  | OpAddNode (id : Z) (lat lon : float)
  | OpAddEdge (from to : Z) (distance : float) (road_type : string)
  | OpApplyLearnedPatterns (draws : nat -> float).

Definition apply_op (g : Graph) (op : GraphOp) : Graph :=
  match op with
  | OpAddNode id lat lon => addNode g id lat lon
  | OpAddEdge from to distance road_type => addEdge g from to distance road_type
  | OpApplyLearnedPatterns draws => (applyLearnedPatterns draws g).2
  end.

(** The graph built by a sequence of calls on an empty graph. *)
Definition run_ops (ops : list GraphOp) : Graph :=
  fold_left apply_op ops empty_graph.

(** The values of the speed table and the multipliers the annotation pass
    writes. *)
Definition table_speeds : list float := [100; 80; 65; 55; 40; 20; 50]%float.
Definition crowd_overrides : list float := [0.6; 1.4; 1.2]%float.

(** [edge'] is [edge] after an annotation pass: untouched, or with its
    multiplier overwritten by one of the three values. *)
Definition annotated (edge edge' : Edge) : Prop :=
  edge' = edge ∨ ∃ c, c ∈ crowd_overrides ∧ edge' = set_crowd_multiplier c edge.

(** The state of a stored edge that every history maintains. *)
Definition edge_ok (edge : Edge) : Prop :=
  speed_limit edge ∈ table_speeds ∧
  crowd_multiplier edge ∈ 1%float :: crowd_overrides.

(** ** Signs of doubles *)

(** [x] is not below zero: a zero of either sign, a positive number,
    plus infinity, or NaN. *)
Definition not_negative (x : float) : Prop := (x <? 0)%float = false.

(** The sign bit of a binary64 value; NaN counts as unsigned. *)
Definition sf_negative (x : spec_float) : bool :=
  match x with
  | S754_zero s | S754_infinity s | S754_finite s _ _ => s
  | S754_nan => false
  end.

(** The sign bit of [x] is clear, or [x] is NaN. *)
Definition sign_clear (x : float) : Prop := sf_negative (Prim2SF x) = false.

(** No stored edge has a negative cost under [mode] at [hour_of_day]. *)
Definition costs_not_negative (g : Graph) (mode : RouteMode) (hour_of_day : Z)
    : Prop :=
  map_Forall
    (fun _ edges =>
       Forall (fun edge => not_negative (calculateEdgeWeight edge mode hour_of_day))
         edges)
    (adjacency_list g).

(** No [addEdge] of the history was given a negative distance. *)
Definition distances_not_negative (ops : list GraphOp) : Prop :=
  Forall (fun op => match op with
                    | OpAddEdge _ _ d _ => not_negative d
                    | _ => True
                    end) ops.

(** ** States of a search *)

(** The outcomes of the successive evaluations of the search loop, from the
    initial state on; nothing follows a [Stopped] outcome. *)
Inductive search_trace (g : Graph) (start_id end_id : Z) (mode : RouteMode)
    (hour_of_day : Z) : Outcome -> Prop :=
  | trace_init :
      search_trace g start_id end_id mode hour_of_day
        (Running (init_search g start_id))
  | trace_step st :
      search_trace g start_id end_id mode hour_of_day (Running st) ->
      search_trace g start_id end_id mode hour_of_day
        (search_step g end_id mode hour_of_day st).

Definition outcome_state (o : Outcome) : Search :=
  match o with Running st | Stopped st => st end.

(** What every state of a search over non-negative costs satisfies: queue
    entries are non-negative and, the first entry apart, belong to nodes of
    the graph; predecessors are recorded for nodes only and are nodes or the
    start; an identity that is no node has distance 0.0, if any. *)
Record search_inv (g : Graph) (start_id : Z) (st : Search) : Prop := {
  inv_pq : ∀ d x, (d, x) ∈ pq st ->
    not_negative d ∧ (is_Some (nodes g !! x) ∨ (d, x) = (0%float, start_id));
  inv_previous : ∀ x v, previous st !! x = Some v ->
    is_Some (nodes g !! x) ∧ (is_Some (nodes g !! v) ∨ v = start_id);
  inv_distances : ∀ x, nodes g !! x = None ->
    distances st !! x = None ∨ distances st !! x = Some 0%float
}.

(** What the predecessor table satisfies during path reconstruction over
    non-negative costs: a recorded predecessor is a node of the graph, the
    start, or the value 0 that [previous[k]] inserts for a missing key; for
    a key that is no node it is that 0. *)
Definition walk_inv (g : Graph) (start_id : Z) (prev : gmap Z Z) : Prop :=
  ∀ k v, prev !! k = Some v ->
    (is_Some (nodes g !! v) ∨ v = start_id ∨ v = 0) ∧
    (nodes g !! k = None -> v = 0).

(** ** Example graphs *)

(** A single node and no edge. *)
Definition one_node : Graph := addNode empty_graph 1 0 0.

(** Nodes 1, 2 and 3 in a row, joined by two motorway edges of 111 m. *)
Definition three_in_a_row : Graph :=
  addEdge
    (addEdge
       (addNode (addNode (addNode empty_graph 1 0 0) 2 0 0.001) 3 0 0.002)
       1 2 111 "motorway")
    2 3 111 "motorway".

(** A graph with an edge from node 1 to the identity 9, which is no node,
    and an edge from 9 on to node 3. *)
Definition dangling (d : float) : Graph :=
  addEdge (addEdge three_in_a_row 1 9 d "residential") 9 3 1 "residential".

(** Node 2 alone, with an edge of 111 m to it from the identity 1, which
    is no node. *)
Definition edge_from_unknown : Graph :=
  addEdge (addNode empty_graph 2 0 0.001) 1 2 111 "residential".

(** Nodes 1 and 2 joined by two parallel edges from 1 to 2, a residential
    road of 500 m stored first and a motorway of 100 m stored second. *)
Definition two_roads : Graph :=
  addEdge
    (addEdge (addNode (addNode empty_graph 1 0 0) 2 0 0.001) 1 2 500 "residential")
    1 2 100 "motorway".

(** The same two edges, stored in the other order. *)
Definition two_roads_swapped : Graph :=
  addEdge
    (addEdge (addNode (addNode empty_graph 1 0 0) 2 0 0.001) 1 2 100 "motorway")
    1 2 500 "residential".

(** ** Reference definitions for the graph store *)

Definition is_addEdge (op : GraphOp) : bool :=
  match op with OpAddEdge _ _ _ _ => true | _ => false end.

(** [g] stores [edge] in the vector of [from]. *)
Definition stores (g : Graph) (from : Z) (edge : Edge) : Prop :=
  ∃ edges, getEdges g from = Some edges ∧ edge ∈ edges.

(** Number of edges in a list of adjacency entries. *)
Definition entries_edges (entries : list (Z * list Edge)) : nat :=
  sum_list ((fun entry => length entry.2) <$> entries).

(** ** Reference definitions for the annotation pass *)

(** [edge'] is [edge] after an annotation pass, by road class: motorway and
    trunk edges can only be set to 0.6, primary and secondary edges to 1.4,
    residential edges to 1.2, and edges of any other class stay as they are. *)
Definition class_annotated (edge edge' : Edge) : Prop :=
  edge' = edge ∨
  (road_type edge ∈ ["motorway"; "trunk"] ∧ edge' = set_crowd_multiplier 0.6 edge) ∨
  (road_type edge ∈ ["primary"; "secondary"] ∧ edge' = set_crowd_multiplier 1.4 edge) ∨
  (road_type edge = "residential" ∧ edge' = set_crowd_multiplier 1.2 edge).

(** The road classes for which the annotation pass takes a random draw. *)
Definition annotatable (edge : Edge) : bool :=
  bool_decide (road_type edge ∈
    ["motorway"; "trunk"; "primary"; "secondary"; "residential"]).

(** Number of edges of these classes in a list of adjacency entries. *)
Definition entries_annotatable (entries : list (Z * list Edge)) : nat :=
  sum_list ((fun entry => length (List.filter annotatable entry.2)) <$> entries).

(** ** Reference definitions for searches *)

(** Every stored edge still has the multiplier 1.0 that [addEdge] gives it. *)
Definition unannotated (g : Graph) : Prop :=
  map_Forall (fun _ edges => Forall (fun edge => crowd_multiplier edge = 1%float) edges)
    (adjacency_list g).

(** [g] stores an edge from [a] to [b]. *)
Definition has_edge (g : Graph) (a b : Z) : Prop :=
  ∃ edges edge, getEdges g a = Some edges ∧ edge ∈ edges ∧ to edge = b.

(** What the predecessor table and the queue satisfy in every state of a
    search, whatever the costs: a queued identity is the start or has a
    predecessor; a recorded predecessor is the start or has a predecessor
    itself, and the graph stores the edge from it; and a node other than the
    start is at distance infinity until a predecessor is recorded for it. *)
Record link_inv (g : Graph) (start_id : Z) (st : Search) : Prop := {
  link_pq : ∀ d x, (d, x) ∈ pq st -> x = start_id ∨ is_Some (previous st !! x);
  link_previous : ∀ x u, previous st !! x = Some u ->
    (u = start_id ∨ is_Some (previous st !! u)) ∧ has_edge g u x;
  link_distances : ∀ k, is_Some (nodes g !! k) -> k ≠ start_id ->
    distances st !! k = Some infinity ∨ is_Some (previous st !! k)
}.

(** Consecutive elements of [l] are related by [R]. *)
Inductive chain (R : Z -> Z -> Prop) : list Z -> Prop :=
  | chain_nil : chain R []
  | chain_one x : chain R [x]
  | chain_cons x y l : R x y -> chain R (y :: l) -> chain R (x :: y :: l).

(** ** The metric pass, step by step *)

(** The edge at which the inner loop of the metric pass breaks for the step
    from [a] to [b]: the first edge to [b] in the vector of [a]. *)
Definition first_edge_to (g : Graph) (a b : Z) : option Edge :=
  getEdges g a ≫= List.find (fun edge => to edge =? b).

(** The edges that the metric pass adds up along [path]: for each step the
    edge its inner loop breaks at, and nothing for a step that no edge of
    the graph makes. *)
Fixpoint summed_edges (g : Graph) (path : list Z) : list Edge :=
  match path with
  | a :: (b :: _) as rest =>
      match first_edge_to g a b with
      | Some edge => edge :: summed_edges g rest
      | None => summed_edges g rest
      end
  | _ => []
  end.

(** ** Reference definitions for the edges of a path *)

(** [edges] are edges that make up [path]: one stored edge for each step,
    from the identity of the step to the next one, in path order. *)
Inductive path_edges (g : Graph) : list Z -> list Edge -> Prop :=
  | path_edges_end a : path_edges g [a] []
  | path_edges_step a b rest edge edges :
      stores g a edge -> to edge = b -> path_edges g (b :: rest) edges ->
      path_edges g (a :: b :: rest) (edge :: edges).

(** Parallel edges do not differ: two stored edges with the same source and
    the same target are equal in every field. *)
Definition unrivalled (g : Graph) : Prop :=
  ∀ from e1 e2, stores g from e1 -> stores g from e2 -> to e1 = to e2 -> e1 = e2.

(** ** Order of the doubles *)

(** Above the rank of every finite binary64 value. *)
Definition rank_top : Z := 2047 * 2 ^ 53.

(** Position of a binary64 value in the order of [<]: finite values are
    ordered by sign, then exponent, then mantissa; zeros and NaN sit in the
    middle (NaN is below and above nothing). *)
Definition sf_rank (x : spec_float) : Z :=
  match x with
  | S754_zero _ | S754_nan => 0
  | S754_infinity s => if s then - rank_top else rank_top
  | S754_finite s m e =>
      let r := (e + 1075) * 2 ^ 53 + Z.pos m in
      if s then - r else r
  end.

Definition rank (x : float) : Z := sf_rank (Prim2SF x).

(** The identities edges lead to, with repetitions. *)
Definition targets (g : Graph) : list Z :=
  map_to_list (adjacency_list g) ≫= fun entry => to <$> entry.2.

(** Rank of the distance [distances[k]] would read, counted from the rank of
    minus infinity. *)
Definition dist_rank (st : Search) (k : Z) : Z :=
  rank (default 0%float (distances st !! k)) + rank_top.

(** Bound on the number of loop evaluations still to come: the queue length
    plus twice the room left below the distances of the edge targets. *)
Definition search_measure (g : Graph) (st : Search) : Z :=
  Z.of_nat (length (pq st)) + 2 * foldr Z.add 0 (dist_rank st <$> targets g).

(** [b] can be reached from [a] along stored edges. *)
Inductive reachable (g : Graph) (a : Z) : Z -> Prop :=
  | reachable_refl : reachable g a a
  | reachable_step b c : reachable g a b -> has_edge g b c -> reachable g a c.

(** What every state of a search satisfies, whatever the costs: queued
    identities can be reached from the start, and a node keeps the distance
    infinity unless it can be reached from the start. *)
Record reach_inv (g : Graph) (start_id : Z) (st : Search) : Prop := {
  reach_pq : ∀ d x, (d, x) ∈ pq st -> reachable g start_id x;
  reach_distances : ∀ k, is_Some (nodes g !! k) ->
    distances st !! k = Some infinity ∨ reachable g start_id k
}.

(** ** Order of the predecessor links *)

(** What every state of a search over non-negative costs satisfies, with
    [stamp x] the number of the relaxation that last lowered the distance of
    [x] and [n] the number of relaxations so far: the distance of a queued
    identity is not above its key; a predecessor has a distance below that
    of its successor, or the same distance and an older stamp; and a node
    other than the start has the distance infinity or a predecessor. *)
Record order_inv (g : Graph) (start_id : Z) (st : Search)
    (stamp : Z -> Z) (n : Z) : Prop := {
  ord_stamp : ∀ x, 0 ≤ stamp x < n;
  ord_pq : ∀ d x, (d, x) ∈ pq st ->
    ∃ dx, distances st !! x = Some dx ∧ rank dx ≤ rank d;
  ord_previous : ∀ x u, previous st !! x = Some u ->
    ∃ dx du, distances st !! x = Some dx ∧ distances st !! u = Some du ∧
      rank dx < rank_top ∧
      (rank du < rank dx ∨ rank du = rank dx ∧ stamp u < stamp x);
  ord_reached : ∀ x, is_Some (nodes g !! x) -> x ≠ start_id ->
    distances st !! x = Some infinity ∨ is_Some (previous st !! x)
}.

(** Bound on the number of predecessor links from [x] back to the start. *)
Definition walk_measure (st : Search) (stamp : Z -> Z) (n : Z) (x : Z) : Z :=
  (rank (default 0%float (distances st !! x)) + rank_top) * n + stamp x.

(** ** The route comparison (main.cpp) *)

Definition mode_eqb (a b : RouteMode) : bool :=
  match a, b with
  | DISTANCE, DISTANCE | SPEED_LIMIT, SPEED_LIMIT | LEARNED, LEARNED => true
  | _, _ => false
  end.

(** The two parts of the line that compares a route with the baseline. *)
Inductive TimeVerdict := Faster (minutes : float) | Slower (minutes : float).
Inductive DistanceVerdict := Longer (km : float) | Shorter (km : float).

(** What [printRouteComparison] prints for one route: the title, the number
    of dashes after it, the distance in km, the time in minutes, the number
    of waypoints and, if there is one, the comparison with the baseline. *)
Record RouteBox := mkRouteBox {
  box_title : string;
  box_dashes : Z;
  box_distance : float;
  box_time : float;
  box_waypoints : nat;
  box_versus : option (TimeVerdict * DistanceVerdict)
}.

(** The first route of mode [SPEED_LIMIT]. *)
Definition baseline_of (routes : list RouteResult) : option RouteResult :=
  List.find (fun route => mode_eqb (mode route) SPEED_LIMIT) routes.

(** The loop that looks for a route of [mode_] has no [break]: the last one
    is kept. *)
Definition last_of_mode (mode_ : RouteMode) (routes : list RouteResult)
    : option RouteResult :=
  last (List.filter (fun route => mode_eqb (mode route) mode_) routes).

(** The box of one route.  [None]: the title has more than 50 characters;
    the bound [50 - length()] of the dash loop wraps around in [size_t] and
    the counter of type [int] overflows. *)
Definition route_box (baseline : option RouteResult) (route : RouteResult)
    : option RouteBox :=
  let len := Z.of_nat (String.length (mode_name route)) in
  if 50 <? len then None
  else
    Some (mkRouteBox (mode_name route) (50 - len)
            (total_distance route / 1000)%float (estimated_time route / 60)%float
            (length (path route))
            match baseline with
            | Some baseline =>
                if negb (mode_eqb (mode route) SPEED_LIMIT)
                then
                  let time_diff :=
                    (estimated_time route - estimated_time baseline)%float in
                  let dist_diff :=
                    (total_distance route - total_distance baseline)%float in
                  Some (if (time_diff <? 0)%float
                        then Faster (- time_diff / 60)%float
                        else Slower (time_diff / 60)%float,
                        if (0 <? dist_diff)%float
                        then Longer (dist_diff / 1000)%float
                        else Shorter (dist_diff / 1000)%float)
                else None
            | None => None
            end).

(** The two key insights: the minutes by which the distance route is called
    slower, and the minutes that learning is said to save. *)
Record Insights := mkInsights {
  distance_slower : option float;
  learning_saves : option float
}.

Definition insights_of (routes : list RouteResult) : Insights :=
  let baseline := baseline_of routes in
  mkInsights
    (distance_route ← last_of_mode DISTANCE routes;
     baseline ← baseline;
     Some ((estimated_time distance_route - estimated_time baseline) / 60)%float)
    (learned_route ← last_of_mode LEARNED routes;
     baseline ← baseline;
     let time_saved :=
       ((estimated_time baseline - estimated_time learned_route) / 60)%float in
     if (0 <? time_saved)%float then Some time_saved else None).

Definition printRouteComparison (routes : list RouteResult)
    : option (list RouteBox * Insights) :=
  boxes ← mapM (route_box (baseline_of routes)) routes;
  Some (boxes, insights_of routes).

(** The numbers of a comparison line have the sign that its words call for:
    none is below zero, except that the km of a shorter route are not above
    zero. *)
Definition verdict_signs (v : TimeVerdict * DistanceVerdict) : Prop :=
  match v.1 with
  | Faster minutes | Slower minutes => (minutes <? 0)%float = false
  end ∧
  match v.2 with
  | Longer km => (km <? 0)%float = false
  | Shorter km => (0 <? km)%float = false
  end.

(** ** Route export and the interactive round (main.cpp) *)

(** One entry of the [waypoints] array that [exportRouteToJSON] writes. *)
Record Waypoint := mkWaypoint { wp_id : Z; wp_lat : float; wp_lon : float }.

(** One entry of the [routes] array. *)
Record RouteJSON := mkRouteJSON {
  json_mode : string;
  json_color : string;
  json_total_distance_km : float;
  json_estimated_time_min : float;
  json_waypoints : list Waypoint
}.

(** The colour assigned to a route. *)
Definition route_color (mode_ : RouteMode) : string :=
  if mode_eqb mode_ DISTANCE then "#FF6B6B"
  else if mode_eqb mode_ SPEED_LIMIT then "#4ECDC4"
  else "#95E1D3".

(** The body of the waypoint loop: [getNode] followed by [node->lat] and
    [node->lon] with no null check.  [None] is the dereference of a null
    pointer. *)
Definition export_waypoint (g : Graph) (id : Z) : option Waypoint :=
  node ← getNode g id; Some (mkWaypoint id (lat node) (lon node)).

Definition export_waypoints (g : Graph) (route : RouteResult)
    : option (list Waypoint) :=
  mapM (export_waypoint g) (path route).

(** The body of the loop over the routes. *)
Definition export_route (g : Graph) (route : RouteResult) : option RouteJSON :=
  waypoints ← export_waypoints g route;
  Some (mkRouteJSON (mode_name route) (route_color (mode route))
          (total_distance route / 1000)%float (estimated_time route / 60)%float
          waypoints).

(** What a call of [exportRouteToJSON] leaves behind. *)
Inductive Export :=
  | CouldNotCreateFile                         (* nothing is written *)
  | RoutesWritten (entries : list RouteJSON).  (* the [routes] array *)

(** [exportRouteToJSON]; [is_open] is the answer of [file.is_open()] for
    the output file.  When the file could not be opened the function
    returns before it looks at a route; otherwise it writes the entries of
    the [routes] array in the order of [routes].  [None] is the dereference
    of a null pointer. *)
Definition exportRouteToJSON (is_open : bool) (g : Graph)
    (routes : list RouteResult) : option Export :=
  if is_open then RoutesWritten <$> mapM (export_route g) routes
  else Some CouldNotCreateFile.

(** The three searches of one round, in the order of the [push_back] calls. *)
Definition custom_routes (fuel : nat) (g : Graph) (start_id end_id : Z)
    (user_hour : Z) : option (list RouteResult) :=
  r1 ← dijkstra fuel g start_id end_id DISTANCE user_hour;
  r2 ← dijkstra fuel g start_id end_id SPEED_LIMIT user_hour;
  r3 ← dijkstra fuel g start_id end_id LEARNED user_hour;
  Some [r1; r2; r3].

(** The comparison is printed and then the routes are exported.  The outer
    [None]: the comparison met undefined behaviour; the inner [None]: the
    export dereferenced a null pointer. *)
Definition compare_and_export (is_open : bool) (g : Graph)
    (routes : list RouteResult) : option (option Export) :=
  _ ← printRouteComparison routes;
  Some (exportRouteToJSON is_open g routes).



(** [export] is what the export of [routes] leaves behind: nothing when the
    file could not be opened; otherwise one entry for each route, in the
    order of [routes], in the colour of its mode and with one waypoint for
    each entry of its path, in path order. *)
Definition export_of (is_open : bool) (routes : list RouteResult)
    (export : Export) : Prop :=
  if is_open
  then ∃ entries,
         export = RoutesWritten entries ∧
         Forall2 (fun route entry =>
                    json_color entry = route_color (mode route) ∧
                    wp_id <$> json_waypoints entry = path route)
           routes entries
  else export = CouldNotCreateFile.

(** ** Sample nodes (main.cpp) *)

(** The test [edges && !edges->empty()]. *)
Definition has_edges (g : Graph) (id : Z) : bool :=
  match getEdges g id with
  | Some (_ :: _) => true
  | _ => false
  end.

(** The [for] loop of [getRandomConnectedNodes], entered at its condition
    with the current [id], [samples] and [candidates].  [None]: out of fuel. *)
Fixpoint collect_candidates (fuel : nat) (g : Graph) (id samples : Z)
    (candidates : list Z) : option (list Z) :=
  match fuel with
  | O => None
  | S fuel =>
      if ((id <? 10000000) && (samples <? 5000))%bool
      then
        if has_edges g id
        then collect_candidates fuel g (id + 1) (samples + 1) (candidates ++ [id])
        else collect_candidates fuel g (id + 1) samples candidates
      else Some candidates
  end.

(** [getRandomConnectedNodes], with [std::shuffle] and its generator as the
    function [shuffle].  The loop is given one unit of fuel for each test of
    its condition.  [None] is returned for a [count] below zero, where the
    source builds a vector from an iterator range that ends before it
    begins. *)
Definition getRandomConnectedNodes (shuffle : list Z -> list Z) (g : Graph)
    (count : Z) : option (list Z) :=
  candidates ← collect_candidates (Z.to_nat 10000000) g 1 0 [];
  if (length candidates <? 2)%nat
  then Some []
  else
    let shuffled := shuffle candidates in
    let returnCount := Z.min count (Z.of_nat (length shuffled)) in
    if returnCount <? 0 then None
    else Some (take (Z.to_nat returnCount) shuffled).

(** What holds each time the loop condition is tested. *)
Record scan_inv (g : Graph) (id samples : Z) (candidates : list Z) : Prop := {
  scan_samples : samples = Z.of_nat (length candidates);
  scan_bound : samples ≤ 5000;
  scan_id : 1 ≤ id ≤ 10000000;
  scan_sound : ∀ x, x ∈ candidates -> 1 ≤ x < id ∧ has_edges g x = true;
  scan_NoDup : NoDup candidates;
  scan_complete : samples < 5000 ->
    ∀ x, 1 ≤ x < id -> has_edges g x = true -> x ∈ candidates
}.

(** ** The map parser (osm_parser.cpp) *)

(** The double quote character as a string. *)
Definition quote : string := String (Ascii.ascii_of_nat 34) EmptyString.

(** [line.find(pattern) != std::string::npos] *)
Definition found (pattern line : string) : bool :=
  bool_decide (is_Some (String.index 0 pattern line)).

(** [line.c_str() + pos] *)
Definition c_str_from (pos : nat) (line : string) : string :=
  String.substring pos (String.length line - pos) line.

Definition INT_MAX : Z := 2147483647.

(** The local variables of [parseOSM] together with the graph it fills. *)
Record ParseState := mkParseState {
  graph : Graph;
  inWay : bool;
  isHighway : bool;
  highwayType : string;
  wayNodes : list Z;
  nodeCount' : Z;
  wayCount : Z
}.

Section osm_parser.

(** The functions of the C library that the parser calls.  The two scanners
    stand for [sscanf] with one conversion: they take the format and the
    input and return the converted value, or [None] when nothing was
    assigned. *)
Variables (sin cos : float -> float) (atan2 : float -> float -> float).
Variable sscanf_lld : string -> string -> option Z.
Variable sscanf_lf : string -> string -> option float.

Definition M_PI : float := 3.14159265358979323846%float.

Definition haversineDistance (lat1 lon1 lat2 lon2 : float) : float :=
  let R := 6371000%float in
  let dLat := ((lat2 - lat1) * M_PI / 180)%float in
  let dLon := ((lon2 - lon1) * M_PI / 180)%float in
  let a := (sin (dLat / 2) * sin (dLat / 2) +
            cos (lat1 * M_PI / 180) * cos (lat2 * M_PI / 180) *
            sin (dLon / 2) * sin (dLon / 2))%float in
  let c := (2 * atan2 (sqrt a) (sqrt (1 - a)))%float in
  (R * c)%float.

(** The block for [<node] lines.  [None]: one of the three [sscanf] calls
    assigned nothing and [addNode] is called with an uninitialised variable,
    or the counter of type [int] overflows. *)
Definition parse_node (line : string) (st : ParseState) : option ParseState :=
  if found "<node" line
  then
    match String.index 0 ("id=" +:+ quote) line,
          String.index 0 ("lat=" +:+ quote) line,
          String.index 0 ("lon=" +:+ quote) line with
    | Some id_pos, Some lat_pos, Some lon_pos =>
        id ← sscanf_lld ("id=" +:+ quote +:+ "%lld" +:+ quote)
               (c_str_from id_pos line);
        lat ← sscanf_lf ("lat=" +:+ quote +:+ "%lf" +:+ quote)
                (c_str_from lat_pos line);
        lon ← sscanf_lf ("lon=" +:+ quote +:+ "%lf" +:+ quote)
                (c_str_from lon_pos line);
        if INT_MAX <? nodeCount' st + 1 then None
        else Some (mkParseState (addNode (graph st) id lat lon) (inWay st)
                     (isHighway st) (highwayType st) (wayNodes st)
                     (nodeCount' st + 1) (wayCount st))
    | _, _, _ => Some st
    end
  else Some st.

(** The block for [<way] lines. *)
Definition parse_way_open (line : string) (st : ParseState) : ParseState :=
  if found "<way" line
  then mkParseState (graph st) true false "unclassified" []
         (nodeCount' st) (wayCount st)
  else st.

(** The block for highway tags. *)
Definition parse_highway_tag (line : string) (st : ParseState) : ParseState :=
  if (inWay st && found ("<tag k=" +:+ quote +:+ "highway" +:+ quote) line)%bool
  then
    let type :=
      match String.index 0 ("v=" +:+ quote) line with
      | Some v_pos =>
          match String.index (v_pos + 3) quote line with
          | Some v_end => String.substring (v_pos + 3) (v_end - v_pos - 3) line
          | None => highwayType st
          end
      | None => highwayType st
      end in
    mkParseState (graph st) (inWay st) true type (wayNodes st)
      (nodeCount' st) (wayCount st)
  else st.

(** The block for node references.  [None]: [sscanf] assigned nothing and an
    uninitialised variable is pushed. *)
Definition parse_nd_ref (line : string) (st : ParseState) : option ParseState :=
  if (inWay st && found "<nd ref=" line)%bool
  then
    match String.index 0 ("ref=" +:+ quote) line with
    | Some ref_pos =>
        node_id ← sscanf_lld ("ref=" +:+ quote +:+ "%lld" +:+ quote)
                    (c_str_from ref_pos line);
        Some (mkParseState (graph st) (inWay st) (isHighway st) (highwayType st)
                (wayNodes st ++ [node_id]) (nodeCount' st) (wayCount st))
    | None => Some st
    end
  else Some st.

(** The loop over the consecutive pairs of [wayNodes]: both directions are
    added when both identities are nodes. *)
Fixpoint add_way_edges (g : Graph) (type : string) (way : list Z) : Graph :=
  match way with
  | a :: (b :: _) as rest =>
      let g' :=
        match getNode g a, getNode g b with
        | Some node1, Some node2 =>
            let dist := haversineDistance (lat node1) (lon node1)
                          (lat node2) (lon node2) in
            addEdge (addEdge g a b dist type) b a dist type
        | _, _ => g
        end in
      add_way_edges g' type rest
  | _ => g
  end.

(** The block for [</way>] lines.  [None]: the counter of type [int]
    overflows. *)
Definition parse_way_close (line : string) (st : ParseState) : option ParseState :=
  if found "</way>" line
  then
    st' ← (if (isHighway st && (2 <=? length (wayNodes st))%nat)%bool
           then
             if INT_MAX <? wayCount st + 1 then None
             else Some (mkParseState
                          (add_way_edges (graph st) (highwayType st) (wayNodes st))
                          (inWay st) (isHighway st) (highwayType st) (wayNodes st)
                          (nodeCount' st) (wayCount st + 1))
           else Some st);
    Some (mkParseState (graph st') false (isHighway st') (highwayType st')
            (wayNodes st') (nodeCount' st') (wayCount st'))
  else Some st.

(** The body of the [getline] loop: the five blocks in turn. *)
Definition parse_line (line : string) (st : ParseState) : option ParseState :=
  st1 ← parse_node line st;
  st2 ← parse_nd_ref line (parse_highway_tag line (parse_way_open line st1));
  parse_way_close line st2.

Fixpoint parse_lines (lines : list string) (st : ParseState) : option ParseState :=
  match lines with
  | [] => Some st
  | line :: lines => st' ← parse_line line st; parse_lines lines st'
  end.

(** [parseOSM] on the lines of the file, or on [None] when the file cannot
    be opened; the result is the returned flag and the graph. *)
Definition parseOSM (file : option (list string)) (g : Graph)
    : option (bool * Graph) :=
  match file with
  | None => Some (false, g)
  | Some lines =>
      st ← parse_lines lines (mkParseState g false false "unclassified" [] 0 0);
      Some (true, graph st)
  end.

End osm_parser.

(** Scanners for maps whose identities and coordinates are written as
    unsigned decimal integers: the digits after the first double quote. *)
Definition digit_of (c : Ascii.ascii) : option Z :=
  let n := Z.of_nat (Ascii.nat_of_ascii c) in
  if ((48 <=? n) && (n <=? 57))%bool then Some (n - 48) else None.

Fixpoint scan_digits (s : string) (acc : option Z) : option Z :=
  match s with
  | String c s' =>
      match digit_of c with
      | Some d => scan_digits s' (Some (10 * default 0 acc + d))
      | None => acc
      end
  | EmptyString => acc
  end.

Definition scan_unsigned (format input : string) : option Z :=
  pos ← String.index 0 quote input;
  scan_digits (c_str_from (pos + 1) input) None.

Definition scan_unsigned_double (format input : string) : option float :=
  n ← scan_unsigned format input;
  Some (PrimFloat.of_uint63 (Uint63.of_Z n)).

(** A small map: two nodes and one residential way that passes both and
    then an identity that is no node. *)
Definition example_map : list string :=
  [ "<node id=" +:+ quote +:+ "1" +:+ quote +:+ " lat=" +:+ quote +:+ "10"
      +:+ quote +:+ " lon=" +:+ quote +:+ "20" +:+ quote +:+ "/>";
    "<node id=" +:+ quote +:+ "2" +:+ quote +:+ " lat=" +:+ quote +:+ "11"
      +:+ quote +:+ " lon=" +:+ quote +:+ "20" +:+ quote +:+ "/>";
    "<way id=" +:+ quote +:+ "7" +:+ quote +:+ ">";
    "<nd ref=" +:+ quote +:+ "1" +:+ quote +:+ "/>";
    "<nd ref=" +:+ quote +:+ "2" +:+ quote +:+ "/>";
    "<nd ref=" +:+ quote +:+ "3" +:+ quote +:+ "/>";
    "<tag k=" +:+ quote +:+ "highway" +:+ quote +:+ " v=" +:+ quote
      +:+ "residential" +:+ quote +:+ "/>";
    "</way>" ].

(** ** Reference definitions for parsed maps *)

(** Every stored edge leads from a node to a node. *)
Definition closed (g : Graph) : Prop :=
  ∀ from edge, stores g from edge ->
    is_Some (nodes g !! from) ∧ is_Some (nodes g !! to edge).

(** Every stored edge has a stored edge in the other direction with the
    same distance, road class and speed limit. *)
Definition two_way (g : Graph) : Prop :=
  ∀ from edge, stores g from edge ->
    ∃ edge', stores g (to edge) edge' ∧ to edge' = from ∧
      distance edge' = distance edge ∧ road_type edge' = road_type edge ∧
      speed_limit edge' = speed_limit edge.

(** The calls that [parseOSM] makes on the graph: [addNode] with scanned
    values, and [addEdge] with a distance computed by [haversineDistance]. *)
Definition parser_op (sin cos : float -> float) (atan2 : float -> float -> float)
    (op : GraphOp) : Prop :=
  match op with
  | OpAddNode _ _ _ => True
  | OpAddEdge _ _ d _ =>
      ∃ lat1 lon1 lat2 lon2, d = haversineDistance sin cos atan2 lat1 lon1 lat2 lon2
  | OpApplyLearnedPatterns _ => False
  end.

(** ** The first routes of [main] (main.cpp) *)

Inductive MainOutcome :=
  | CouldNotParse
  | NoConnectedNodes
  | MainNullDereference (routes : list RouteResult)
  | MainDone (routes : list RouteResult) (export : Export).

(** [main] up to the first export: the map is parsed into an empty graph,
    annotated, sampled for ten nodes, and the first two samples are routed
    in the three modes at hour 17, compared and exported; [is_open] tells
    whether the output file of the export could be opened.  [None]: the
    parser or the comparison met undefined behaviour, or a search ran out of
    fuel. *)
Definition main_first_routes (sin cos : float -> float)
    (atan2 : float -> float -> float)
    (sscanf_lld : string -> string -> option Z)
    (sscanf_lf : string -> string -> option float)
    (draws : nat -> float) (shuffle : list Z -> list Z) (fuel : nat)
    (file : option (list string)) (is_open : bool) : option MainOutcome :=
  parsed ← parseOSM sin cos atan2 sscanf_lld sscanf_lf file empty_graph;
  if negb parsed.1 then Some CouldNotParse
  else
    let g := (applyLearnedPatterns draws parsed.2).2 in
    sampleNodes ← getRandomConnectedNodes shuffle g 10;
    match sampleNodes with
    | start_id :: end_id :: _ =>
        routes ← custom_routes fuel g start_id end_id 17;
        export ← compare_and_export is_open g routes;
        Some match export with
             | Some export => MainDone routes export
             | None => MainNullDereference routes
             end
    | _ => Some NoConnectedNodes
    end.
(** * Properties *)

(** ** Containers *)

Lemma subscript_fst {V} (dflt : V) (m : gmap Z V) (k : Z) :
  (subscript dflt m k).1 = default dflt (m !! k).
Proof. unfold subscript. by destruct (m !! k). Qed.

Lemma subscript_snd_lookup {V} (dflt : V) (m : gmap Z V) (k j : Z) :
  (subscript dflt m k).2 !! j =
  if decide (k = j) then Some (default dflt (m !! k)) else m !! j.
Proof.
  unfold subscript. destruct (m !! k) as [v|] eqn:E; simpl.
  - case_decide; by subst.
  - by rewrite lookup_insert.
Qed.

Lemma fold_left_insert_infinity (l : list (Z * Node)) (acc : gmap Z float) (k : Z) :
  fold_left (fun distances node_pair => <[node_pair.1 := infinity]> distances) l acc
    !! k =
  if decide (k ∈ l.*1) then Some infinity else acc !! k.
Proof.
  revert acc. induction l as [|[j x] l IH]; intros acc.
  { cbn [fold_left]. case_decide as H; [by apply elem_of_nil in H|done]. }
  cbn [fold_left]. rewrite IH. cbn [fmap list_fmap fst].
  destruct (decide (k ∈ l.*1)) as [Hin|Hin].
  - rewrite decide_True; [done|by right].
  - rewrite lookup_insert. destruct (decide (j = k)) as [->|Hne].
    + rewrite decide_True; [done|left].
    + rewrite decide_False; [done|].
      intros [?|?]%elem_of_cons; simplify_eq/=; done.
Qed.

Lemma init_distances_lookup (ns : gmap Z Node) (k : Z) :
  init_distances ns !! k = (fun _ => infinity) <$> ns !! k.
Proof.
  unfold init_distances. rewrite fold_left_insert_infinity, lookup_empty.
  destruct (ns !! k) as [n|] eqn:E; cbn [fmap option_fmap option_map].
  - rewrite decide_True; [done|].
    apply list_elem_of_fmap. exists (k, n). split; [done|].
    by apply elem_of_map_to_list.
  - rewrite decide_False; [done|].
    intros ([j n] & -> & Hin)%list_elem_of_fmap.
    apply elem_of_map_to_list in Hin. simpl in *. congruence.
Qed.

(** ** Road class table and edge insertion *)

Lemma speed_limit_of_table (rt : string) :
  (rt ∈ ["motorway"; "motorway_link"] → speed_limit_of rt = 100%float) ∧
  (rt ∈ ["trunk"; "trunk_link"] → speed_limit_of rt = 80%float) ∧
  (rt ∈ ["primary"; "primary_link"] → speed_limit_of rt = 65%float) ∧
  (rt = "secondary" → speed_limit_of rt = 55%float) ∧
  (rt ∈ ["tertiary"; "residential"] → speed_limit_of rt = 40%float) ∧
  (rt = "living_street" → speed_limit_of rt = 20%float) ∧
  (rt ∉ known_road_types → speed_limit_of rt = 50%float).
Proof.
  unfold known_road_types.
  repeat split; intros H; unfold speed_limit_of;
    repeat (apply elem_of_cons in H as [->|H]; [reflexivity|]);
    try (by apply elem_of_nil in H); try (by subst).
  repeat (apply not_elem_of_cons in H as [?%String.eqb_neq H]).
  by repeat match goal with E : String.eqb _ _ = false |- _ => rewrite E; clear E end.
Qed.

Lemma addEdge_stores (g : Graph) (from to_ : Z) (d : float) (rt : string) :
  getEdges (addEdge g from to_ d rt) from =
    Some (default [] (getEdges g from) ++ [mkEdge to_ d (speed_limit_of rt) rt 1%float]) ∧
  (∀ k, k ≠ from → getEdges (addEdge g from to_ d rt) k = getEdges g k) ∧
  nodes (addEdge g from to_ d rt) = nodes g.
Proof.
  split_and!.
  - unfold addEdge, getEdges.
    pose proof (subscript_fst [] (adjacency_list g) from) as Hf.
    destruct (subscript [] (adjacency_list g) from) as [edges adj]; simpl in *.
    by rewrite lookup_insert_eq, Hf.
  - intros k Hk. unfold addEdge, getEdges.
    pose proof (subscript_snd_lookup [] (adjacency_list g) from k) as Hs.
    destruct (subscript [] (adjacency_list g) from) as [edges adj]; simpl in *.
    rewrite lookup_insert_ne by done. rewrite Hs. by case_decide.
  - unfold addEdge. by destruct (subscript [] (adjacency_list g) from).
Qed.

(** C9: [addEdge] appends one edge to the vector of [from]; its speed limit
    is the table value of the road class (50 km/h for every unlisted token),
    its crowd multiplier is 1.0, and the derivation has no error case:
    [addEdge] is a total function.  Nothing else in the graph changes. *)
Theorem addEdge_speed_table (g : Graph) (from to_ : Z) (d : float) (rt : string) :
  ∃ speed : float,
    getEdges (addEdge g from to_ d rt) from =
      Some (default [] (getEdges g from) ++ [mkEdge to_ d speed rt 1%float]) ∧
    (rt ∈ ["motorway"; "motorway_link"] → speed = 100%float) ∧
    (rt ∈ ["trunk"; "trunk_link"] → speed = 80%float) ∧
    (rt ∈ ["primary"; "primary_link"] → speed = 65%float) ∧
    (rt = "secondary" → speed = 55%float) ∧
    (rt ∈ ["tertiary"; "residential"] → speed = 40%float) ∧
    (rt = "living_street" → speed = 20%float) ∧
    (rt ∉ known_road_types → speed = 50%float) ∧
    (∀ k, k ≠ from → getEdges (addEdge g from to_ d rt) k = getEdges g k) ∧
    nodes (addEdge g from to_ d rt) = nodes g.
Proof.
  exists (speed_limit_of rt).
  destruct (addEdge_stores g from to_ d rt) as (Hget & Hother & Hnodes).
  split; [done|]. split_and!; try apply speed_limit_of_table; done.
Qed.

(** ** Multiplying a double by 1.0 *)

Lemma mul_pow52 (m : positive) :
  (m * 4503599627370496)%positive = Pos.iter xO m 52.
Proof. rewrite !Pos.mul_xO_r, Pos.mul_1_r. reflexivity. Qed.

Lemma digits2_pos_shift52 (m : positive) :
  Z.pos (digits2_pos (Pos.iter xO m 52)) = Z.pos (digits2_pos m) + 52.
Proof. cbn [Pos.iter digits2_pos]. lia. Qed.

Lemma shr_shift52 (m : positive) :
  SpecFloat.iter_pos shr_1 52 (Build_shr_record (Z.pos (Pos.iter xO m 52)) false false) =
  Build_shr_record (Z.pos m) false false.
Proof. reflexivity. Qed.

(** The product of a binary64 value and 1.0 = 2^52 * 2^-52 is rounded to
    the value itself. *)
Lemma SFmul_one (x : spec_float) :
  valid_binary x = true →
  SFmul prec emax x (S754_finite false 4503599627370496 (-52)) = x.
Proof.
  unfold valid_binary.
  destruct x as [s|s| |s m e]; cbn [SpecFloat.valid_binary SFmul]; intros Hx;
    rewrite ?xorb_false_r; try reflexivity.
  apply andb_prop in Hx as [Hcanon Hbound].
  unfold canonical_mantissa in Hcanon. apply Z.eqb_eq in Hcanon.
  unfold binary_round_aux, shr_fexp.
  rewrite mul_pow52. cbn [Zdigits2]. rewrite digits2_pos_shift52.
  replace (Z.pos (digits2_pos m) + 52 + (e + -52))
    with (Z.pos (digits2_pos m) + e) by lia.
  rewrite Hcanon.
  replace (e - (e + -52)) with 52 by lia.
  cbn [shr_record_of_loc shr]. rewrite shr_shift52.
  cbn [loc_of_shr_record shr_m round_nearest_even Zdigits2].
  replace (e + -52 + 52) with e by lia.
  rewrite Hcanon, Z.sub_diag. cbn [shr shr_m].
  by rewrite Hbound.
Qed.

Lemma float_mul_1_r (x : float) : (x * 1)%float = x.
Proof.
  rewrite <- (SF2Prim_Prim2SF (x * 1)), mul_spec.
  change (Prim2SF 1) with (S754_finite false 4503599627370496 (-52)).
  unfold SF64mul. rewrite SFmul_one by apply Prim2SF_valid.
  apply SF2Prim_Prim2SF.
Qed.

(** ** Edge cost model *)

Lemma rush_hours_spec (hour : Z) :
  ((7 <=? hour) && (hour <=? 9) || (17 <=? hour) && (hour <=? 19))%bool = true
  ↔ hour ∈ rush_hours.
Proof.
  unfold rush_hours. rewrite !elem_of_cons, elem_of_nil.
  rewrite orb_true_iff, !andb_true_iff, !Z.leb_le. lia.
Qed.

(** Settles the conditions on road classes and hours once the class of the
    edge and the kind of hour are known. *)
Ltac solve_class :=
  intros; try done; exfalso;
  repeat match goal with
         | H : _ ∈ _ :: _ |- _ => apply elem_of_cons in H as [H|H]
         | H : _ ∈ [] |- _ => by apply elem_of_nil in H
         | H : _ ∉ _ :: _ |- _ => apply not_elem_of_cons in H as [? H]
         end;
  congruence.

(** C6: [getTimeAdjustedSpeed] is the speed limit times one factor: in the
    hours 7, 8, 9, 17, 18 and 19 the factor is 0.4 for motorway and trunk,
    0.6 for primary, 0.8 for secondary and tertiary and 1.0 for every other
    class; in every other hour it is 1.0 for all classes. *)
Theorem getTimeAdjustedSpeed_factor (edge : Edge) (hour : Z) :
  ∃ factor : float,
    getTimeAdjustedSpeed edge hour = (speed_limit edge * factor)%float ∧
    (hour ∈ rush_hours → road_type edge ∈ ["motorway"; "trunk"] →
       factor = 0.4%float) ∧
    (hour ∈ rush_hours → road_type edge = "primary" → factor = 0.6%float) ∧
    (hour ∈ rush_hours → road_type edge ∈ ["secondary"; "tertiary"] →
       factor = 0.8%float) ∧
    (hour ∈ rush_hours → road_type edge ∉ rush_road_types → factor = 1%float) ∧
    (hour ∉ rush_hours → factor = 1%float).
Proof.
  unfold getTimeAdjustedSpeed, rush_road_types.
  destruct ((7 <=? hour) && (hour <=? 9) || (17 <=? hour) && (hour <=? 19))%bool
    eqn:Hrush.
  - apply rush_hours_spec in Hrush.
    destruct (String.eqb_spec (road_type edge) "motorway") as [Hm|Hm];
      [|destruct (String.eqb_spec (road_type edge) "trunk") as [Ht|Ht]];
      cbn [orb];
      [exists 0.4%float; split_and!; solve_class..|].
    destruct (String.eqb_spec (road_type edge) "primary") as [Hp|Hp];
      [exists 0.6%float; split_and!; solve_class|].
    destruct (String.eqb_spec (road_type edge) "secondary") as [Hs|Hs];
      [|destruct (String.eqb_spec (road_type edge) "tertiary") as [Hy|Hy]];
      cbn [orb];
      [exists 0.8%float; split_and!; solve_class..|].
    exists 1%float. rewrite float_mul_1_r. split_and!; solve_class.
  - assert (hour ∉ rush_hours) as Hn.
    { intros H%rush_hours_spec. congruence. }
    exists 1%float. rewrite float_mul_1_r. split_and!; solve_class.
Qed.

(** A motorway edge of 111 m, used to show what the learned cost depends on. *)
Example learned_cost_depends_on_hour :
  calculateEdgeWeight (mkEdge 2 111 100 "motorway" 1) LEARNED 8 ≠
  calculateEdgeWeight (mkEdge 2 111 100 "motorway" 1) LEARNED 12.
Proof. intros H. apply (f_equal Prim2SF) in H. vm_compute in H. discriminate. Qed.

Example learned_cost_depends_on_crowd :
  calculateEdgeWeight (set_crowd_multiplier 0.6 (mkEdge 2 111 100 "motorway" 1)) LEARNED 12 ≠
  calculateEdgeWeight (mkEdge 2 111 100 "motorway" 1) LEARNED 12.
Proof. intros H. apply (f_equal Prim2SF) in H. vm_compute in H. discriminate. Qed.

(** C5: the cost of an edge is its distance in [DISTANCE] mode, the travel
    time at the speed limit in [SPEED_LIMIT] mode, and the travel time at the
    time-adjusted speed times the crowd multiplier in [LEARNED] mode; the
    first two do not depend on the hour or the crowd multiplier, the third
    depends on both. *)
Theorem calculateEdgeWeight_modes (edge : Edge) (hour : Z) :
  calculateEdgeWeight edge DISTANCE hour = distance edge ∧
  calculateEdgeWeight edge SPEED_LIMIT hour =
    (distance edge / (speed_limit edge * 1000 / 3600))%float ∧
  calculateEdgeWeight edge LEARNED hour =
    (distance edge /
       ((getTimeAdjustedSpeed edge hour * crowd_multiplier edge) * 1000 / 3600))%float ∧
  (∀ hour' c, calculateEdgeWeight (set_crowd_multiplier c edge) DISTANCE hour' =
              calculateEdgeWeight edge DISTANCE hour) ∧
  (∀ hour' c, calculateEdgeWeight (set_crowd_multiplier c edge) SPEED_LIMIT hour' =
              calculateEdgeWeight edge SPEED_LIMIT hour) ∧
  (∃ e h h', calculateEdgeWeight e LEARNED h ≠ calculateEdgeWeight e LEARNED h') ∧
  (∃ e c h, calculateEdgeWeight (set_crowd_multiplier c e) LEARNED h ≠
            calculateEdgeWeight e LEARNED h).
Proof.
  split_and!; try reflexivity.
  - eexists _, _, _. apply learned_cost_depends_on_hour.
  - eexists _, _, _. apply learned_cost_depends_on_crowd.
Qed.

(** ** Search between a node and itself, and from an absent start *)

Lemma search_loop_same_node (fuel : nat) (g : Graph) (start : Z)
    (mode : RouteMode) (hour : Z) :
  search_loop (S fuel) g start mode hour (init_search g start) =
  Some (mkSearch (<[start:=0%float]> (init_distances (nodes g))) ∅ []).
Proof.
  cbn [search_loop]. unfold search_step, init_search.
  cbn [pq pq_top_pop distances previous]. by rewrite Z.eqb_refl.
Qed.

(** C8: a search from a node to itself returns the single-node path with
    zero distance and zero time, for every graph, mode and hour. *)
Theorem dijkstra_start_to_start (fuel : nat) (g : Graph) (start : Z)
    (mode : RouteMode) (hour : Z) :
  dijkstra (S fuel) g start start mode hour =
  Some (mkRouteResult [start] 0 0 mode (mode_name_of mode)).
Proof.
  unfold dijkstra. rewrite search_loop_same_node. cbn [distances previous].
  unfold subscript. rewrite lookup_insert_eq.
  cbn. by rewrite Z.eqb_refl.
Qed.

(** C1, as stated, fails for a start that is no node of the graph: when it
    is also the end, the single-node path is returned, never the empty one;
    and when it has outgoing edges, the search runs over them. *)
Lemma absent_start_returns_path :
  (nodes empty_graph !! 7 = None ∧
   dijkstra 1 empty_graph 7 7 DISTANCE 12 =
     Some (mkRouteResult [7] 0 0 DISTANCE (mode_name_of DISTANCE)) ∧
   ∀ fuel, dijkstra fuel empty_graph 7 7 DISTANCE 12 ≠
           Some (mkRouteResult [] 0 0 DISTANCE (mode_name_of DISTANCE))) ∧
  (nodes edge_from_unknown !! 1 = None ∧
   dijkstra 2 edge_from_unknown 1 2 DISTANCE 12 =
     Some (mkRouteResult [1; 2] 111 9.99 DISTANCE (mode_name_of DISTANCE))).
Proof.
  split; [split_and!; [done..|]|split; reflexivity].
  intros [|fuel]; [done|].
  unfold dijkstra. rewrite search_loop_same_node. done.
Qed.

(** C1, amended: when [start] is absent from the graph (no node entry, no
    outgoing edges) and [end_] is a node of the graph, the search returns
    the empty path with zero distance and zero time. *)
Theorem dijkstra_absent_start (fuel : nat) (g : Graph) (start end_ : Z)
    (mode : RouteMode) (hour : Z) :
  nodes g !! start = None →
  default [] (getEdges g start) = [] →
  is_Some (nodes g !! end_) →
  dijkstra (S (S fuel)) g start end_ mode hour =
  Some (mkRouteResult [] 0 0 mode (mode_name_of mode)).
Proof.
  intros Hstart Hedges [n Hend].
  assert (start ≠ end_) as Hne by congruence.
  assert (search_step g end_ mode hour (init_search g start) =
          Running (mkSearch (<[start:=0%float]> (init_distances (nodes g))) ∅ []))
    as Hstep.
  { unfold search_step, init_search. cbn [pq pq_top_pop distances previous].
    apply Z.eqb_neq in Hne as ->.
    unfold subscript. rewrite lookup_insert_eq.
    change (0 <? 0)%float with false. cbv iota beta.
    destruct (getEdges g start) as [edges|]; [|done].
    simpl in Hedges. by subst. }
  unfold dijkstra. cbn [search_loop]. rewrite Hstep.
  unfold search_step. cbn [pq pq_top_pop distances].
  unfold subscript. rewrite lookup_insert_ne by done.
  rewrite init_distances_lookup, Hend. reflexivity.
Qed.

Lemma dijkstra_absent_start_witness :
  nodes (addNode empty_graph 1 0 0) !! 7 = None ∧
  dijkstra 2 (addNode empty_graph 1 0 0) 7 1 LEARNED 8 =
  Some (mkRouteResult [] 0 0 LEARNED (mode_name_of LEARNED)).
Proof.
  split; [reflexivity|].
  apply (dijkstra_absent_start 0 (addNode empty_graph 1 0 0) 7 1 LEARNED 8).
  - reflexivity.
  - reflexivity.
  - eexists. reflexivity.
Defined.

(** ** Path reconstruction towards an identity that was never reached *)

(** Once the walk stands on identity 0 with no predecessor recorded for it,
    [previous[0]] yields 0 again and the loop never leaves it. *)
Lemma walk_back_stuck (fuel : nat) (start : Z) (prev : gmap Z Z)
    (path : list Z) :
  start ≠ 0 →
  prev !! 0 = None ∨ prev !! 0 = Some 0 →
  walk_back fuel start prev 0 path = None.
Proof.
  intros Hs. revert prev path.
  induction fuel as [|fuel IH]; intros prev path Hprev; [done|].
  cbn [walk_back]. destruct (Z.eqb_spec 0 start) as [?|_]; [congruence|].
  unfold subscript. destruct Hprev as [H|H]; rewrite H; apply IH.
  - right. apply lookup_insert_eq.
  - by right.
Qed.

(** C2: on the graph with the single node 1, a search from 1 to the absent
    identity 2 never returns: whatever the fuel, the reconstruction loop is
    still running. *)
Theorem dijkstra_absent_end_diverges (fuel : nat) (mode : RouteMode) (hour : Z) :
  dijkstra fuel one_node 1 2 mode hour = None.
Proof.
  destruct fuel as [|[|fuel]]; [reflexivity..|].
  unfold dijkstra.
  assert (search_loop (S (S fuel)) one_node 2 mode hour (init_search one_node 1) =
          Some (mkSearch (<[1:=0%float]> (init_distances (nodes one_node))) ∅ []))
    as -> by reflexivity.
  cbn [distances previous].
  assert (subscript 0%float (<[1:=0%float]> (init_distances (nodes one_node))) 2 =
          (0%float, <[2:=0%float]> (<[1:=0%float]> (init_distances (nodes one_node)))))
    as -> by reflexivity.
  change (0 =? infinity)%float with false. cbv iota beta.
  change (walk_back (S (S fuel)) 1 ∅ 2 [])
    with (walk_back (S fuel) 1 (<[2:=0]> ∅) 0 [2]).
  rewrite walk_back_stuck; [done..|].
  left. by rewrite lookup_insert_ne.
Qed.

(** With start 0 the same search returns, with a path of two nodes that no
    edge joins. *)
Example absent_end_bogus_path :
  dijkstra 2 (addNode empty_graph 0 0 0) 0 2 SPEED_LIMIT 12 =
  Some (mkRouteResult [0; 2] 0 0 SPEED_LIMIT (mode_name_of SPEED_LIMIT)).
Proof. reflexivity. Qed.

(** ** Arguments are not validated *)

Lemma fold_left_pointwise {A B} (f f' : A → B → A) (l : list B) (a : A) :
  (∀ x y, f x y = f' x y) → fold_left f l a = fold_left f' l a.
Proof.
  intros Hf. revert a. induction l as [|y l IH]; intros a; [done|].
  simpl. by rewrite Hf, IH.
Qed.

Section hour_extensionality.
Variables hour hour' : Z.
Hypothesis same_speed :
  ∀ edge, getTimeAdjustedSpeed edge hour = getTimeAdjustedSpeed edge hour'.

Lemma calculateEdgeWeight_hour_ext (edge : Edge) (mode : RouteMode) :
  calculateEdgeWeight edge mode hour = calculateEdgeWeight edge mode hour'.
Proof. destruct mode; simpl; by rewrite ?same_speed. Qed.

Lemma search_step_hour_ext (g : Graph) (end_ : Z) (mode : RouteMode) (st : Search) :
  search_step g end_ mode hour st = search_step g end_ mode hour' st.
Proof.
  unfold search_step.
  destruct (pq_top_pop (pq st)) as [[[d c] pq1]|]; [|done].
  destruct (c =? end_); [done|].
  destruct (subscript _ _ _) as [d' ds].
  destruct (d' <? d)%float; [done|].
  destruct (getEdges g c); [|done].
  f_equal. apply fold_left_pointwise. intros x y.
  unfold relax. by rewrite calculateEdgeWeight_hour_ext.
Qed.

Lemma search_loop_hour_ext (fuel : nat) (g : Graph) (end_ : Z)
    (mode : RouteMode) (st : Search) :
  search_loop fuel g end_ mode hour st = search_loop fuel g end_ mode hour' st.
Proof.
  revert st. induction fuel as [|fuel IH]; intros st; [done|].
  simpl. rewrite search_step_hour_ext.
  by destruct (search_step g end_ mode hour' st).
Qed.

Lemma scan_edges_hour_ext (edges : list Edge) (next : Z) (totals : float * float) :
  scan_edges hour edges next totals = scan_edges hour' edges next totals.
Proof.
  induction edges as [|edge rest IH]; [done|].
  simpl. by rewrite same_speed, IH.
Qed.

Lemma route_metrics_hour_ext (g : Graph) (p : list Z) :
  route_metrics g hour p = route_metrics g hour' p.
Proof.
  unfold route_metrics. apply fold_left_pointwise. intros totals i.
  destruct (p !! i), (p !! S i); try done.
  destruct (getEdges g z); [|done]. apply scan_edges_hour_ext.
Qed.

Lemma dijkstra_hour_ext (fuel : nat) (g : Graph) (start end_ : Z)
    (mode : RouteMode) :
  dijkstra fuel g start end_ mode hour = dijkstra fuel g start end_ mode hour'.
Proof.
  unfold dijkstra. rewrite search_loop_hour_ext.
  destruct (search_loop fuel g end_ mode hour' (init_search g start)); [|done].
  destruct (subscript _ _ _) as [d ds].
  destruct (d =? infinity)%float; [done|].
  destruct (walk_back _ _ _ _ _); [|done].
  by rewrite route_metrics_hour_ext.
Qed.
End hour_extensionality.

(** C3, as stated, fails: a negative distance is stored like any other, and
    a search at hour 25 returns a route. *)
Lemma negative_distance_and_hour_25_accepted :
  ((-5 <? 0)%float = true ∧
   getEdges (addEdge empty_graph 1 2 (-5) "residential") 1 =
     Some [mkEdge 2 (-5) 40 "residential" 1]) ∧
  dijkstra 3 three_in_a_row 1 3 LEARNED 25 =
    Some (mkRouteResult [1; 2; 3] 222 7.992 LEARNED (mode_name_of LEARNED)).
Proof. split; [split|]; reflexivity. Qed.

(** C3, amended: neither call validates its arguments.  [addEdge] stores the
    edge with the distance it is given, whatever its sign, and [dijkstra]
    accepts every hour: an hour outside 0..23 is no rush hour, and the
    result is the one for hour 12. *)
Theorem precondition_violations_accepted :
  (∀ g from to_ d rt, ∃ edge,
     getEdges (addEdge g from to_ d rt) from =
       Some (default [] (getEdges g from) ++ [edge]) ∧
     distance edge = d) ∧
  (∀ fuel g start end_ mode hour, hour < 0 ∨ 23 < hour →
     dijkstra fuel g start end_ mode hour = dijkstra fuel g start end_ mode 12).
Proof.
  split.
  - intros g from to_ d rt.
    destruct (addEdge_stores g from to_ d rt) as [Hget _].
    eexists. split; [exact Hget|done].
  - intros fuel g start end_ mode hour Hhour.
    apply dijkstra_hour_ext. intros edge.
    unfold getTimeAdjustedSpeed.
    assert (((7 <=? hour) && (hour <=? 9) || (17 <=? hour) && (hour <=? 19))%bool
            = false) as ->; [|done].
    apply orb_false_iff. split; apply andb_false_iff; rewrite !Z.leb_gt; lia.
Qed.

(** ** Route metrics *)

(** C4: between two nodes joined by two parallel edges the reported metrics
    are not those of the route that was found.  With the residential road
    of 500 m stored before the motorway of 100 m, the distance search
    settles the end at 100 m, over the motorway, and the speed-limit search
    at 3.6 s; both return the path 1, 2 with a total distance of 500 m and
    an estimated time of 45 s, the figures of the edge that was stored
    first.  With the edges stored in the other order the same searches
    report 100 m and 3.6 s. *)
Theorem parallel_edges_misreported :
  (∀ fuel, ∃ st,
     search_loop (S (S fuel)) two_roads 2 DISTANCE 12 (init_search two_roads 1)
       = Some st ∧
     distances st !! 2 = Some 100%float ∧ previous st !! 2 = Some 1) ∧
  (∀ fuel, ∃ st,
     search_loop (S (S fuel)) two_roads 2 SPEED_LIMIT 12 (init_search two_roads 1)
       = Some st ∧
     distances st !! 2 = Some 3.6000000000000001%float ∧
     previous st !! 2 = Some 1) ∧
  (∀ fuel mode,
     dijkstra (S (S fuel)) two_roads 1 2 mode 12 =
       Some (mkRouteResult [1; 2] 500 45 mode (mode_name_of mode))) ∧
  (∀ fuel mode,
     dijkstra (S (S fuel)) two_roads_swapped 1 2 mode 12 =
       Some (mkRouteResult [1; 2] 100 3.6000000000000001 mode (mode_name_of mode))).
Proof.
  split_and!.
  - intros fuel. eexists. split; [vm_compute; reflexivity|]. by vm_compute.
  - intros fuel. eexists. split; [vm_compute; reflexivity|]. by vm_compute.
  - by intros fuel [| |]; vm_compute.
  - by intros fuel [| |]; vm_compute.
Qed.


(** ** Stored speeds and multipliers *)

Lemma speed_limit_of_in_table (rt : string) : speed_limit_of rt ∈ table_speeds.
Proof.
  unfold speed_limit_of, table_speeds.
  repeat (match goal with |- context [if ?b then _ else _] => destruct b end;
          [set_solver|]).
  set_solver.
Qed.

Lemma edge_ok_positive (edge : Edge) :
  edge_ok edge →
  (0 <? speed_limit edge)%float = true ∧ (0 <? crowd_multiplier edge)%float = true.
Proof.
  unfold edge_ok, table_speeds, crowd_overrides. intros [Hs Hc]. split.
  - repeat (apply elem_of_cons in Hs as [->|Hs]; [reflexivity|]).
    by apply elem_of_nil in Hs.
  - repeat (apply elem_of_cons in Hc as [->|Hc]; [reflexivity|]).
    by apply elem_of_nil in Hc.
Qed.

#[local] Instance annotated_refl : Reflexive annotated.
Proof. intros edge. by left. Qed.

Lemma annotated_set (c : float) (edge edge' : Edge) :
  c ∈ crowd_overrides → annotated edge edge' →
  annotated edge (set_crowd_multiplier c edge').
Proof.
  intros Hc [->|(c' & _ & ->)]; right; exists c; by split.
Qed.

Lemma annotated_ok (edge edge' : Edge) :
  annotated edge edge' → edge_ok edge → edge_ok edge'.
Proof.
  intros [->|(c & Hc & ->)] [Hs Hm]; [done|].
  split; [done|]. simpl. by right.
Qed.

Lemma annotate_edge_annotated (draws : nat → float) (st : Annotator) (edge : Edge) :
  annotated edge (annotate_edge draws st edge).2.
Proof.
  unfold annotate_edge.
  repeat match goal with
         | |- context [if ?b then _ else _] => destruct b; cbn [fst snd]
         end;
    repeat apply annotated_set; try reflexivity;
    unfold crowd_overrides; set_solver.
Qed.

Lemma annotate_edges_annotated (draws : nat → float) (st : Annotator)
    (edges : list Edge) :
  Forall2 annotated edges (annotate_edges draws st edges).2.
Proof.
  revert st. induction edges as [|edge rest IH]; intros st; [constructor|].
  cbn [annotate_edges].
  pose proof (annotate_edge_annotated draws st edge) as He.
  destruct (annotate_edge draws st edge) as [st1 edge1].
  specialize (IH st1). destruct (annotate_edges draws st1 rest) as [st2 rest1].
  by constructor.
Qed.

Lemma annotate_entries_annotated (draws : nat → float) (st : Annotator)
    (entries : list (Z * list Edge)) :
  Forall2 (fun entry entry' => entry.1 = entry'.1 ∧ Forall2 annotated entry.2 entry'.2)
    entries (annotate_entries draws st entries).2.
Proof.
  revert st. induction entries as [|[from edges] rest IH]; intros st; [constructor|].
  cbn [annotate_entries].
  pose proof (annotate_edges_annotated draws st edges) as He.
  destruct (annotate_edges draws st edges) as [st1 edges1].
  specialize (IH st1). destruct (annotate_entries draws st1 rest) as [st2 rest1].
  by constructor.
Qed.

Lemma annotate_entries_keys (entries entries' : list (Z * list Edge)) :
  Forall2 (fun entry entry' => entry.1 = entry'.1 ∧ Forall2 annotated entry.2 entry'.2)
    entries entries' →
  entries'.*1 = entries.*1.
Proof.
  induction 1 as [|x y l l' [Hk _] _ IH]; [done|].
  cbn [fmap list_fmap]. by rewrite Hk, IH.
Qed.

(** The annotation pass keeps the nodes, the sources and the number and
    order of the edges of each source; an edge changes in its multiplier
    only. *)
Lemma applyLearnedPatterns_frame (draws : nat → float) (g : Graph) :
  nodes (applyLearnedPatterns draws g).2 = nodes g ∧
  ∀ from, option_Forall2 (Forall2 annotated)
            (getEdges g from) (getEdges (applyLearnedPatterns draws g).2 from).
Proof.
  unfold applyLearnedPatterns, getEdges.
  pose proof (annotate_entries_annotated draws (mkAnnotator 0 0 0)
                (map_to_list (adjacency_list g))) as Hrel.
  destruct (annotate_entries _ _ _) as [st entries]. cbn [fst snd nodes adjacency_list] in *.
  split; [done|]. intros from.
  pose proof (annotate_entries_keys _ _ Hrel) as Hkeys.
  assert (NoDup entries.*1) as Hnodup.
  { rewrite Hkeys. apply NoDup_fst_map_to_list. }
  destruct (list_to_map entries !! from) as [edges'|] eqn:Hnew.
  - apply elem_of_list_to_map in Hnew; [|done].
    apply list_elem_of_lookup in Hnew as [i Hi].
    destruct (Forall2_lookup_r _ _ _ _ _ Hrel Hi) as ([k edges] & Hold & Hk & Hedges).
    simpl in *. subst k.
    apply list_elem_of_lookup_2, elem_of_map_to_list in Hold.
    rewrite Hold. by constructor.
  - apply not_elem_of_list_to_map in Hnew. rewrite Hkeys in Hnew.
    destruct (adjacency_list g !! from) as [edges|] eqn:Hold; [|constructor].
    exfalso. apply Hnew. apply elem_of_map_to_list in Hold.
    apply list_elem_of_fmap. by exists (from, edges).
Qed.

(** A property of edges that every edge has when [addEdge] stores it and
    that the annotation pass preserves holds of all edges of a history. *)
Lemma run_ops_edges_ind (P : Edge → Prop) (ops : list GraphOp) :
  (∀ edge edge', annotated edge edge' → P edge → P edge') →
  Forall (fun op => match op with
                    | OpAddEdge _ to_ d rt => P (mkEdge to_ d (speed_limit_of rt) rt 1)
                    | _ => True
                    end) ops →
  ∀ from edges, getEdges (run_ops ops) from = Some edges → Forall P edges.
Proof.
  intros Hpass. induction ops as [|op ops IH] using rev_ind;
    intros Hops from edges Hget; [done|].
  apply Forall_app in Hops as [Hops Hop]. apply Forall_inv in Hop.
  specialize (IH Hops).
  unfold run_ops in *. rewrite fold_left_app in Hget. cbn [fold_left] in Hget.
  set (g := fold_left apply_op ops empty_graph) in *.
  destruct op as [id lat lon|from' to_ d rt|draws]; cbn [apply_op] in Hget.
  - by apply (IH from).
  - destruct (addEdge_stores g from' to_ d rt) as (Hnew & Hother & _).
    destruct (decide (from = from')) as [->|Hne].
    + rewrite Hnew in Hget. injection Hget as <-.
      apply Forall_app. split; [|apply Forall_singleton, Hop].
      destruct (getEdges g from') as [old|] eqn:Hold; [by apply (IH from')|done].
    + rewrite Hother in Hget by done. by apply (IH from).
  - destruct (applyLearnedPatterns_frame draws g) as [_ Hframe].
    specialize (Hframe from). rewrite Hget in Hframe.
    inversion Hframe as [old ? Hrel Hold|]; subst.
    symmetry in Hold. apply IH in Hold.
    clear -Hrel Hold Hpass. induction Hrel as [|e e' l l' He _ IHrel]; [done|].
    inversion Hold; subst. constructor; [by eapply Hpass|by apply IHrel].
Qed.

Lemma run_ops_edge_ok (ops : list GraphOp) (from : Z) (edges : list Edge) :
  getEdges (run_ops ops) from = Some edges → Forall edge_ok edges.
Proof.
  apply (run_ops_edges_ind edge_ok); [apply annotated_ok|].
  apply Forall_forall. intros [| |] _; [done| |done].
  split; [apply speed_limit_of_in_table|by left].
Qed.

(** C10: after any sequence of [addNode], [addEdge] and
    [applyLearnedPatterns] calls, whatever the random draws, every stored
    edge has a strictly positive speed limit and a strictly positive crowd
    multiplier: [addEdge] stores a table speed with multiplier 1.0, and
    [applyLearnedPatterns] overwrites multipliers with 0.6, 1.4 or 1.2 and
    changes no other field of an edge and no node. *)
Theorem stored_edges_positive :
  (∀ ops from edges edge,
     getEdges (run_ops ops) from = Some edges → edge ∈ edges →
     (0 <? speed_limit edge)%float = true ∧
     (0 <? crowd_multiplier edge)%float = true) ∧
  (∀ g from to_ d rt, ∃ edge,
     getEdges (addEdge g from to_ d rt) from =
       Some (default [] (getEdges g from) ++ [edge]) ∧
     speed_limit edge ∈ table_speeds ∧ crowd_multiplier edge = 1%float) ∧
  (∀ draws g,
     nodes (applyLearnedPatterns draws g).2 = nodes g ∧
     ∀ from, option_Forall2 (Forall2 annotated)
               (getEdges g from) (getEdges (applyLearnedPatterns draws g).2 from)).
Proof.
  split_and!.
  - intros ops from edges edge Hget Hin.
    apply edge_ok_positive.
    apply run_ops_edge_ok in Hget. by apply (proj1 (Forall_forall _ _) Hget).
  - intros g from to_ d rt.
    destruct (addEdge_stores g from to_ d rt) as [Hget _].
    eexists. split; [exact Hget|]. split; [apply speed_limit_of_in_table|done].
  - apply applyLearnedPatterns_frame.
Qed.

(** ** Signs of sums, products and quotients of doubles *)

Lemma binary_round_aux_sign (s : bool) (m e : Z) (l : SpecFloat.location) :
  sf_negative (binary_round_aux prec emax s m e l) = false ∨
  sf_negative (binary_round_aux prec emax s m e l) = s.
Proof.
  unfold binary_round_aux.
  destruct (shr_fexp prec emax m e l) as [mrs' e'].
  destruct (shr_fexp prec emax _ e' loc_Exact) as [mrs'' e''].
  destruct (shr_m mrs''); [by right| |by left].
  destruct (e'' <=? emax - prec); by right.
Qed.

Lemma binary_round_aux_positive (m e : Z) (l : SpecFloat.location) :
  sf_negative (binary_round_aux prec emax false m e l) = false.
Proof. by destruct (binary_round_aux_sign false m e l). Qed.

Lemma sf_not_lt0 (x : spec_float) :
  sf_negative x = false → SFltb x (S754_zero false) = false.
Proof. by destruct x as [[]|[]| |[] ? ?]. Qed.

Lemma SFltb_0_sign (x : spec_float) :
  SFltb (S754_zero false) x = true → sf_negative x = false.
Proof. by destruct x as [[]|[]| |[] ? ?]. Qed.

Lemma SFmul_sign (x y : spec_float) :
  sf_negative x = false → sf_negative y = false →
  sf_negative (SFmul prec emax x y) = false.
Proof.
  destruct x as [sx|sx| |sx mx ex], y as [sy|sy| |sy my ey];
    cbn [sf_negative]; intros Hx Hy; subst; try reflexivity.
  apply binary_round_aux_positive.
Qed.

Lemma SFdiv_sign (x y : spec_float) :
  sf_negative x = false → sf_negative y = false →
  sf_negative (SFdiv prec emax x y) = false.
Proof.
  destruct x as [sx|sx| |sx mx ex], y as [sy|sy| |sy my ey];
    cbn [sf_negative]; intros Hx Hy; subst; try reflexivity.
  unfold SFdiv.
  destruct (SFdiv_core_binary prec emax (Z.pos mx) ex (Z.pos my) ey) as [[mz ez] lz].
  apply binary_round_aux_positive.
Qed.

Lemma SFdiv_not_lt0 (x y : spec_float) :
  SFltb x (S754_zero false) = false → sf_negative y = false →
  SFltb (SFdiv prec emax x y) (S754_zero false) = false.
Proof.
  intros Hx Hy.
  destruct x as [sx|sx| |sx mx ex].
  - destruct y as [sy|sy| |sy my ey]; reflexivity.
  - destruct sx; [discriminate|]. by apply sf_not_lt0, SFdiv_sign.
  - reflexivity.
  - destruct sx; [discriminate|]. by apply sf_not_lt0, SFdiv_sign.
Qed.

Lemma SFadd_not_lt0 (x y : spec_float) :
  SFltb x (S754_zero false) = false → SFltb y (S754_zero false) = false →
  SFltb (SFadd prec emax x y) (S754_zero false) = false.
Proof.
  intros Hx Hy.
  destruct x as [sx|sx| |sx mx ex]; try (destruct sx; try discriminate);
    destruct y as [sy|sy| |sy my ey]; try (destruct sy; try discriminate);
    try reflexivity.
  unfold SFadd. cbn [cond_Zopp].
  change (Z.pos ?a + Z.pos ?b) with (Z.pos (a + b)).
  unfold binary_normalize, binary_round.
  destruct (shl_align _ _ _) as [mz ez].
  apply sf_not_lt0, binary_round_aux_positive.
Qed.

Lemma positive_sign_clear (x : float) : (0 <? x)%float = true → sign_clear x.
Proof. rewrite ltb_spec. apply SFltb_0_sign. Qed.

Lemma sign_clear_not_negative (x : float) : sign_clear x → not_negative x.
Proof. unfold not_negative. rewrite ltb_spec. apply sf_not_lt0. Qed.

Lemma mul_sign_clear (x y : float) :
  sign_clear x → sign_clear y → sign_clear (x * y).
Proof. unfold sign_clear. rewrite mul_spec. apply SFmul_sign. Qed.

Lemma div_sign_clear (x y : float) :
  sign_clear x → sign_clear y → sign_clear (x / y).
Proof. unfold sign_clear. rewrite div_spec. apply SFdiv_sign. Qed.

Lemma div_not_negative (x y : float) :
  not_negative x → sign_clear y → not_negative (x / y).
Proof.
  unfold not_negative, sign_clear. rewrite !ltb_spec, div_spec.
  apply SFdiv_not_lt0.
Qed.

Lemma add_not_negative (x y : float) :
  not_negative x → not_negative y → not_negative (x + y).
Proof.
  unfold not_negative. rewrite !ltb_spec, add_spec. apply SFadd_not_lt0.
Qed.

(** An edge of non-negative length with a positive speed limit and a
    positive crowd multiplier has a non-negative cost in every mode. *)
Lemma calculateEdgeWeight_not_negative (edge : Edge) (mode : RouteMode) (hour : Z) :
  not_negative (distance edge) →
  (0 <? speed_limit edge)%float = true →
  (0 <? crowd_multiplier edge)%float = true →
  not_negative (calculateEdgeWeight edge mode hour).
Proof.
  intros Hd Hs%positive_sign_clear Hc%positive_sign_clear.
  assert (∀ x, sign_clear x → sign_clear (x * 1000 / 3600)) as Hconv.
  { intros x Hx. apply div_sign_clear; [apply mul_sign_clear|]; done. }
  destruct mode; cbn [calculateEdgeWeight].
  - done.
  - by apply div_not_negative, Hconv.
  - apply div_not_negative, Hconv, mul_sign_clear; [done| |done].
    unfold getTimeAdjustedSpeed.
    repeat match goal with |- context [if ?b then _ else _] => destruct b end;
      try done; by apply mul_sign_clear.
Qed.

(** ** Edges to identities that are no nodes *)

Lemma pq_top_pop_elem (l l' : list PQElement) (x : PQElement) :
  pq_top_pop l = Some (x, l') → x ∈ l ∧ ∀ y, y ∈ l' → y ∈ l.
Proof.
  revert l' x. induction l as [|a l IH]; intros l' x; [done|].
  cbn [pq_top_pop].
  destruct (pq_top_pop l) as [[y rest]|].
  - destruct (IH rest y eq_refl) as [Hy Hrest].
    destruct (pair_lt y a); intros [= <- <-].
    + split; [by right|]. intros z [->|Hz]%elem_of_cons; [left|right; auto].
    + split; [left|]. by right.
  - intros [= <- <-]. split; [left|]. by intros y ?%elem_of_nil.
Qed.

Lemma subscript_distances_inv (g : Graph) (ds : gmap Z float) (k : Z) :
  (∀ x, nodes g !! x = None → ds !! x = None ∨ ds !! x = Some 0%float) →
  ∀ x, nodes g !! x = None →
       (subscript 0%float ds k).2 !! x = None ∨
       (subscript 0%float ds k).2 !! x = Some 0%float.
Proof.
  intros Hds x Hx. rewrite subscript_snd_lookup.
  case_decide as Hk; [|by apply Hds]. subst x.
  right. by destruct (Hds k Hx) as [-> | ->].
Qed.

Section dead_ends.
Variables (g : Graph) (start end_ : Z) (mode : RouteMode) (hour : Z).
Hypothesis costs : costs_not_negative g mode hour.

Lemma relax_inv (d : float) (cur : Z) (st : Search) (edge : Edge) :
  not_negative d →
  is_Some (nodes g !! cur) ∨ cur = start →
  not_negative (calculateEdgeWeight edge mode hour) →
  search_inv g start st →
  search_inv g start (relax mode hour d cur st edge).
Proof.
  intros Hd Hcur Hw [Hpq Hprev Hdist]. unfold relax.
  pose proof (add_not_negative _ _ Hd Hw) as Hnew.
  pose proof (subscript_fst 0%float (distances st) (to edge)) as Hfst.
  pose proof (subscript_distances_inv g (distances st) (to edge) Hdist) as Hsnd.
  destruct (subscript 0%float (distances st) (to edge)) as [dt ds1].
  cbn [fst snd] in *.
  destruct (d + calculateEdgeWeight edge mode hour <? dt)%float eqn:Hlt;
    [|by split].
  assert (is_Some (nodes g !! to edge)) as Hto.
  { destruct (nodes g !! to edge) eqn:Hn; [by eexists|]. exfalso.
    assert (dt = 0%float) as ->.
    { rewrite Hfst. by destruct (Hdist _ Hn) as [-> | ->]. }
    unfold not_negative in Hnew. congruence. }
  split; cbn [pq previous distances].
  - intros d' x [[= -> ->]|Hin]%elem_of_cons; [by split; [|left]|by apply Hpq].
  - intros x v. rewrite lookup_insert. case_decide as Hx.
    + intros [= <-]. subst x. done.
    + apply Hprev.
  - intros x Hx. rewrite lookup_insert_ne; [by apply Hsnd|].
    intros <-. destruct Hto as [n Hn]. congruence.
Qed.

Lemma fold_relax_inv (d : float) (cur : Z) (edges : list Edge) (st : Search) :
  not_negative d →
  is_Some (nodes g !! cur) ∨ cur = start →
  Forall (fun edge => not_negative (calculateEdgeWeight edge mode hour)) edges →
  search_inv g start st →
  search_inv g start (fold_left (relax mode hour d cur) edges st).
Proof.
  intros Hd Hcur Hedges. revert st.
  induction Hedges as [|edge edges Hw _ IH]; intros st Hst; [done|].
  cbn [fold_left]. by apply IH, relax_inv.
Qed.

Lemma search_step_inv (st : Search) :
  search_inv g start st →
  search_inv g start (outcome_state (search_step g end_ mode hour st)).
Proof.
  intros Hst. pose proof Hst as [Hpq Hprev Hdist]. unfold search_step.
  destruct (pq_top_pop (pq st)) as [[[d cur] pq1]|] eqn:Hpop; [|done].
  apply pq_top_pop_elem in Hpop as [Htop Hrest].
  destruct (Hpq d cur Htop) as [Hd Hcur].
  assert (is_Some (nodes g !! cur) ∨ cur = start) as Hcur'.
  { destruct Hcur as [?|[= _ ->]]; [by left|by right]. }
  destruct (cur =? end_).
  { split; cbn [outcome_state pq previous distances]; auto. }
  pose proof (subscript_distances_inv g (distances st) cur Hdist) as Hsnd.
  destruct (subscript 0%float (distances st) cur) as [d' ds1]. cbn [snd] in Hsnd.
  assert (search_inv g start (mkSearch ds1 (previous st) pq1)) as Hst1.
  { split; cbn [pq previous distances]; auto. }
  destruct (d' <? d)%float; [done|].
  destruct (getEdges g cur) as [edges|] eqn:Hedges; [|done].
  cbn [outcome_state]. apply fold_relax_inv; try done.
  apply (costs cur edges Hedges).
Qed.

Lemma init_search_inv : search_inv g start (init_search g start).
Proof.
  split; cbn [init_search pq previous distances].
  - intros d x [[= -> ->]|[]%elem_of_nil]%elem_of_cons. by split; [|right].
  - intros x v. by rewrite lookup_empty.
  - intros x Hx. rewrite lookup_insert. case_decide; [by right|left].
    by rewrite init_distances_lookup, Hx.
Qed.

Lemma search_trace_inv (o : Outcome) :
  search_trace g start end_ mode hour o →
  search_inv g start (outcome_state o).
Proof.
  induction 1 as [|st _ IH]; [apply init_search_inv|].
  by apply search_step_inv.
Qed.

Lemma search_loop_trace (fuel : nat) (st st' : Search) :
  search_trace g start end_ mode hour (Running st) →
  search_loop fuel g end_ mode hour st = Some st' →
  search_trace g start end_ mode hour (Stopped st').
Proof.
  revert st. induction fuel as [|fuel IH]; intros st Hst; [done|].
  cbn [search_loop].
  pose proof (trace_step _ _ _ _ _ _ Hst) as Hnext.
  destruct (search_step g end_ mode hour st) as [st1|st1].
  - by apply IH.
  - by intros [= <-].
Qed.

End dead_ends.

Lemma walk_inv_subscript (g : Graph) (start : Z) (prev : gmap Z Z) (k : Z) :
  walk_inv g start prev →
  walk_inv g start (subscript 0 prev k).2 ∧
  (is_Some (nodes g !! (subscript 0 prev k).1) ∨ (subscript 0 prev k).1 = start ∨
   (subscript 0 prev k).1 = 0).
Proof.
  intros Hprev. unfold subscript.
  destruct (prev !! k) as [v|] eqn:Hk; cbn [fst snd].
  - split; [done|]. apply (Hprev k v Hk).
  - split; [|by right; right].
    intros j v. rewrite lookup_insert. case_decide; [|by apply Hprev].
    intros [= <-]. split; [by right; right|done].
Qed.

Lemma walk_back_stuck_unknown (g : Graph) (fuel : nat) (start : Z)
    (prev : gmap Z Z) (acc : list Z) :
  walk_inv g start prev → nodes g !! 0 = None → start ≠ 0 →
  walk_back fuel start prev 0 acc = None.
Proof.
  intros Hprev Hzero Hstart. apply walk_back_stuck; [done|].
  destruct (prev !! 0) as [v|] eqn:Hv; [right|by left].
  f_equal. by apply (Hprev 0 v Hv).
Qed.

(** A walk that returns has passed, after its first identity, through nodes
    of the graph only. *)
Lemma walk_back_nodes (g : Graph) (fuel : nat) (start : Z) (prev : gmap Z Z)
    (cur : Z) (acc p : list Z) :
  walk_inv g start prev →
  walk_back fuel start prev cur acc = Some p →
  (cur = start ∧ p = acc) ∨
  (cur ≠ start ∧ ∃ rest, p = acc ++ cur :: rest ∧
                          Forall (fun x => is_Some (nodes g !! x)) rest).
Proof.
  revert prev cur acc. induction fuel as [|fuel IH]; intros prev cur acc Hprev; [done|].
  cbn [walk_back]. destruct (Z.eqb_spec cur start) as [->|Hcur].
  { intros [= <-]. by left. }
  intros Hwalk. right. split; [done|].
  destruct (walk_inv_subscript g start prev cur Hprev) as [Hprev1 Hv].
  destruct (subscript 0 prev cur) as [v prev1]. cbn [fst snd] in *.
  destruct (IH prev1 v (acc ++ [cur]) Hprev1 Hwalk)
    as [[-> ->]|[Hvs (rest & -> & Hrest)]].
  - exists []. by split.
  - exists (v :: rest). split; [by rewrite <- (assoc_L (++))|].
    constructor; [|done].
    destruct Hv as [Hv|[Hv|Hv]]; [done..|]. subst v.
    destruct (nodes g !! 0) eqn:Hzero; [by eexists|].
    by rewrite (walk_back_stuck_unknown g fuel start prev1) in Hwalk.
Qed.

Lemma search_inv_walk_inv (g : Graph) (start : Z) (st : Search) :
  search_inv g start st → walk_inv g start (previous st).
Proof.
  intros [_ Hprev _] k v Hk. destruct (Hprev k v Hk) as [[n Hn] Hv].
  split; [|congruence]. destruct Hv; auto.
Qed.

(** Over non-negative costs a returned path is empty, or the single start,
    or leads from the start to the end through nodes of the graph. *)
Lemma dijkstra_path_shape (fuel : nat) (g : Graph) (start end_ : Z)
    (mode : RouteMode) (hour : Z) (r : RouteResult) :
  costs_not_negative g mode hour →
  dijkstra fuel g start end_ mode hour = Some r →
  path r = [] ∨ (start = end_ ∧ path r = [start]) ∨
  ∃ mid, path r = start :: mid ++ [end_] ∧
         Forall (fun x => is_Some (nodes g !! x)) mid.
Proof.
  intros Hcosts. unfold dijkstra.
  destruct (search_loop _ _ _ _ _ _) as [st|] eqn:Hloop; [|done].
  apply (search_loop_trace g start end_ mode hour) in Hloop; [|constructor].
  apply (search_trace_inv g start end_ mode hour Hcosts) in Hloop.
  apply search_inv_walk_inv in Hloop. cbn [outcome_state] in Hloop.
  destruct (subscript _ _ _) as [d ds].
  destruct (d =? infinity)%float; [intros [= <-]; by left|].
  destruct (walk_back _ _ _ _ _) as [p|] eqn:Hwalk; [|done].
  apply (walk_back_nodes g) in Hwalk; [|done].
  destruct (route_metrics _ _ _) as [td et]. intros [= <-]. cbn [path]. right.
  destruct Hwalk as [[-> ->]|[_ (rest & -> & Hrest)]]; [by left|right].
  exists (rev rest). split; [|by apply Forall_rev].
  cbn [app rev]. by rewrite rev_app_distr.
Qed.

(** C7, as stated, fails for an edge of negative length: relaxation over the
    edge from 1 to 9 succeeds although 9 is no node, and 9 lies on the path
    that is returned. *)
Lemma negative_edge_into_unknown_node :
  nodes (dangling (-5)) !! 9 = None ∧
  dijkstra 3 (dangling (-5)) 1 3 DISTANCE 12 =
    Some (mkRouteResult [1; 9; 3] (-4) (-0.36) DISTANCE (mode_name_of DISTANCE)).
Proof. split; reflexivity. Qed.

(** C7, amended: in a search where no stored edge has a negative cost, an
    edge to an identity that is no node of the graph is a dead end.  In
    every state of the search no predecessor is recorded for such an
    identity (relaxation into it never succeeded) and the only queue entry
    it can have is the initial entry of the start; and the nodes strictly
    inside a returned path are nodes of the graph. *)
Theorem unknown_targets_are_dead_ends (g : Graph) (start end_ : Z)
    (mode : RouteMode) (hour : Z) :
  costs_not_negative g mode hour →
  (∀ o x, search_trace g start end_ mode hour o → nodes g !! x = None →
     previous (outcome_state o) !! x = None ∧
     ∀ d, (d, x) ∈ pq (outcome_state o) → (d, x) = (0%float, start)) ∧
  (∀ fuel r i x, dijkstra fuel g start end_ mode hour = Some r →
     (0 < i < length (path r) - 1)%nat → path r !! i = Some x →
     is_Some (nodes g !! x)).
Proof.
  intros Hcosts. split.
  - intros o x Htrace Hx.
    apply (search_trace_inv g start end_ mode hour Hcosts) in Htrace
      as [Hpq Hprev _].
    split.
    + destruct (previous (outcome_state o) !! x) as [v|] eqn:Hv; [|done].
      destruct (Hprev x v Hv) as [[n Hn] _]. congruence.
    + intros d Hin. destruct (Hpq d x Hin) as [_ [[n Hn]|Heq]]; [congruence|done].
  - intros fuel r i x Hr Hi Hix.
    destruct (dijkstra_path_shape fuel g start end_ mode hour r Hcosts Hr)
      as [Hp|[[_ Hp]|(mid & Hp & Hmid)]]; rewrite Hp in Hi, Hix.
    + by rewrite lookup_nil in Hix.
    + simpl in Hi. lia.
    + destruct i as [|i]; [lia|].
      change ((start :: mid ++ [end_]) !! S i) with ((mid ++ [end_]) !! i) in Hix.
      cbn [length] in Hi. rewrite length_app in Hi. cbn [length] in Hi.
      rewrite lookup_app_l in Hix by lia.
      by apply (proj1 (Forall_lookup _ _) Hmid i x).
Qed.

Lemma unknown_targets_are_dead_ends_witness :
  costs_not_negative (dangling 5) DISTANCE 12 ∧
  nodes (dangling 5) !! 9 = None ∧
  (∀ o, search_trace (dangling 5) 1 3 DISTANCE 12 o →
        previous (outcome_state o) !! 9 = None).
Proof.
  assert (costs_not_negative (dangling 5) DISTANCE 12) as Hcosts.
  { apply map_Forall_to_list. vm_compute. repeat constructor. }
  split; [exact Hcosts|]. split; [reflexivity|].
  intros o Ho.
  apply (unknown_targets_are_dead_ends (dangling 5) 1 3 DISTANCE 12 Hcosts);
    [exact Ho|reflexivity].
Defined.

(** Graphs built without negative distances have no negative cost, in any
    mode and at any hour. *)
Lemma run_ops_costs_not_negative (ops : list GraphOp) (mode : RouteMode) (hour : Z) :
  distances_not_negative ops → costs_not_negative (run_ops ops) mode hour.
Proof.
  intros Hops from edges Hget.
  pose proof (run_ops_edge_ok ops from edges Hget) as Hok.
  assert (Forall (fun edge => not_negative (distance edge)) edges) as Hdist.
  { apply (run_ops_edges_ind (fun edge => not_negative (distance edge)) ops)
      with (from := from); [| |done].
    - by intros edge edge' [->|(c & _ & ->)].
    - eapply Forall_impl; [exact Hops|]. by intros [| |]. }
  apply Forall_forall. intros edge Hin.
  destruct (edge_ok_positive edge) as [Hs Hc].
  { by apply (proj1 (Forall_forall _ _) Hok). }
  apply calculateEdgeWeight_not_negative; [|done..].
  by apply (proj1 (Forall_forall _ _) Hdist).
Qed.
(** ** The metric pass *)

Lemma scan_edges_find (hour : Z) (edges : list Edge) (next : Z)
    (totals : float * float) :
  scan_edges hour edges next totals =
  match List.find (fun edge => to edge =? next) edges with
  | Some edge =>
      ((totals.1 + distance edge)%float, (totals.2 + learned_time hour edge)%float)
  | None => totals
  end.
Proof.
  induction edges as [|edge rest IH]; [done|].
  simpl. by destruct (to edge =? next).
Qed.

(** The index loop of the metric pass, started at index [length done_] of
    the path [done_ ++ todo], adds up the edges [summed_edges] lists for [todo]. *)
Lemma route_metrics_from (g : Graph) (hour : Z) (todo done_ : list Z)
    (totals : float * float) :
  fold_left
    (fun totals i =>
       match (done_ ++ todo) !! i, (done_ ++ todo) !! S i with
       | Some a, Some b =>
           match getEdges g a with
           | Some edges => scan_edges hour edges b totals
           | None => totals
           end
       | _, _ => totals
       end)
    (seq (length done_) (length todo - 1)) totals =
  (fold_left PrimFloat.add (distance <$> summed_edges g todo) totals.1,
   fold_left PrimFloat.add (learned_time hour <$> summed_edges g todo) totals.2).
Proof.
  revert done_ totals.
  induction todo as [|a todo IH]; intros done_ totals; [by destruct totals|].
  destruct todo as [|b todo]; [by destruct totals|].
  replace (length (a :: b :: todo) - 1)%nat with (S (length (b :: todo) - 1))
    by (simpl; lia).
  cbn [seq fold_left].
  rewrite (lookup_app_r done_) by lia.
  rewrite (lookup_app_r done_ _ (S _)) by lia.
  replace (length done_ - length done_)%nat with 0%nat by lia.
  replace (S (length done_) - length done_)%nat with 1%nat by lia.
  cbn [lookup list_lookup].
  specialize (IH (done_ ++ [a])).
  rewrite <- (assoc_L (++) done_ [a]) in IH. cbn [app] in IH.
  rewrite length_app, Nat.add_1_r in IH. rewrite IH.
  cbn [summed_edges]. unfold first_edge_to.
  destruct (getEdges g a) as [edges|]; cbn [mbind option_bind]; [|done].
  rewrite scan_edges_find.
  by destruct (List.find _ edges).
Qed.

Lemma route_metrics_sum (g : Graph) (hour : Z) (p : list Z) :
  route_metrics g hour p =
  (sum_doubles (distance <$> summed_edges g p),
   sum_doubles (learned_time hour <$> summed_edges g p)).
Proof. apply (route_metrics_from g hour p []). Qed.

(** The totals of a returned path are the sums over the edges the metric
    pass picks, accumulated in path order. *)
Lemma dijkstra_totals_summed (fuel : nat) (g : Graph) (start end_ : Z)
    (mode_ : RouteMode) (hour : Z) (r : RouteResult) :
  dijkstra fuel g start end_ mode_ hour = Some r →
  path r ≠ [] →
  total_distance r = sum_doubles (distance <$> summed_edges g (path r)) ∧
  estimated_time r = sum_doubles (learned_time hour <$> summed_edges g (path r)).
Proof.
  unfold dijkstra. intros Hr Hpath.
  destruct (search_loop _ _ _ _ _ _) as [st|]; [|done].
  destruct (subscript _ _ _) as [d ds].
  destruct (d =? infinity)%float.
  { injection Hr as <-. done. }
  destruct (walk_back _ _ _ _ _) as [p|]; [|done].
  rewrite route_metrics_sum in Hr. by injection Hr as <-.
Qed.


(** * Further properties of the graph store *)

(** X1: a node that was added is found under its identity, with the
    coordinates of the last [addNode] for that identity; other identities and
    all edges are untouched; the node count grows by one for a new identity
    and stays for a known one. *)
Theorem addNode_getNode (g : Graph) (k : Z) (la lo : float) :
  getNode (addNode g k la lo) k = Some (mkNode k la lo) ∧
  (∀ la' lo', getNode (addNode (addNode g k la' lo') k la lo) k =
              Some (mkNode k la lo)) ∧
  (∀ j, j ≠ k → getNode (addNode g k la lo) j = getNode g j) ∧
  (∀ j, getEdges (addNode g k la lo) j = getEdges g j) ∧
  nodeCount (addNode g k la lo) =
    match getNode g k with Some _ => nodeCount g | None => S (nodeCount g) end.
Proof.
  unfold getNode, getEdges, nodeCount, addNode. cbn [nodes adjacency_list].
  split_and!.
  - apply lookup_insert_eq.
  - intros. apply lookup_insert_eq.
  - intros j Hj. by apply lookup_insert_ne.
  - done.
  - rewrite map_size_insert. by destruct (nodes g !! k).
Qed.

Lemma entries_edges_cons (k : Z) (edges : list Edge) (l : list (Z * list Edge)) :
  entries_edges ((k, edges) :: l) = (length edges + entries_edges l)%nat.
Proof. reflexivity. Qed.

Lemma edgeCount_entries (g : Graph) :
  edgeCount g = entries_edges (map_to_list (adjacency_list g)).
Proof.
  unfold edgeCount. rewrite map_fold_foldr.
  induction (map_to_list (adjacency_list g)) as [|[k edges] l IH]; [done|].
  rewrite entries_edges_cons. cbn [foldr uncurry]. rewrite IH. lia.
Qed.

Lemma entries_edges_perm (l l' : list (Z * list Edge)) :
  l ≡ₚ l' → entries_edges l = entries_edges l'.
Proof. unfold entries_edges. by intros ->. Qed.

Lemma entries_edges_insert (m : gmap Z (list Edge)) (k : Z) (new : list Edge) :
  (entries_edges (map_to_list (<[k:=new]> m)) + length (default [] (m !! k)) =
   entries_edges (map_to_list m) + length new)%nat.
Proof.
  destruct (m !! k) as [old|] eqn:Hk; cbn.
  - rewrite <- (insert_delete_eq m k new).
    rewrite (entries_edges_perm _ _ (map_to_list_insert (delete k m) k new
                                       (lookup_delete_eq m k))).
    rewrite <- (entries_edges_perm _ _ (map_to_list_delete m k old Hk)).
    rewrite !entries_edges_cons. lia.
  - rewrite (entries_edges_perm _ _ (map_to_list_insert m k new Hk)).
    rewrite entries_edges_cons. simpl. lia.
Qed.

Lemma edgeCount_addEdge (g : Graph) (from to_ : Z) (d : float) (rt : string) :
  edgeCount (addEdge g from to_ d rt) = S (edgeCount g).
Proof.
  rewrite !edgeCount_entries. unfold addEdge.
  pose proof (subscript_fst [] (adjacency_list g) from) as Hf.
  assert (∀ new, <[from:=new]> (subscript [] (adjacency_list g) from).2 =
                 <[from:=new]> (adjacency_list g)) as Hs.
  { intros new. unfold subscript. destruct (adjacency_list g !! from); [done|].
    apply insert_insert_eq. }
  destruct (subscript [] (adjacency_list g) from) as [edges adj].
  cbn [fst snd adjacency_list] in *. rewrite Hs, Hf.
  pose proof (entries_edges_insert (adjacency_list g) from
                (default [] (adjacency_list g !! from) ++
                 [mkEdge to_ d (speed_limit_of rt) rt 1])) as H.
  rewrite length_app in H. simpl in H. lia.
Qed.

Lemma Forall2_annotated_length (l l' : list (Z * list Edge)) :
  Forall2 (fun entry entry' => entry.1 = entry'.1 ∧ Forall2 annotated entry.2 entry'.2)
    l l' →
  entries_edges l' = entries_edges l.
Proof.
  induction 1 as [|[k x] [k' y] l l' [_ Hxy] _ IH]; [done|].
  rewrite !entries_edges_cons. apply Forall2_length in Hxy. simpl in Hxy. lia.
Qed.

Lemma edgeCount_applyLearnedPatterns (draws : nat → float) (g : Graph) :
  edgeCount (applyLearnedPatterns draws g).2 = edgeCount g.
Proof.
  rewrite !edgeCount_entries. unfold applyLearnedPatterns.
  pose proof (annotate_entries_annotated draws (mkAnnotator 0 0 0)
                (map_to_list (adjacency_list g))) as Hrel.
  destruct (annotate_entries _ _ _) as [st entries].
  cbn [fst snd adjacency_list] in *.
  rewrite (entries_edges_perm (map_to_list (list_to_map entries)) entries).
  - by apply Forall2_annotated_length.
  - apply map_to_list_to_map.
    rewrite (annotate_entries_keys _ _ Hrel). apply NoDup_fst_map_to_list.
Qed.

(** X2: [edgeCount] is the number of [addEdge] calls made so far; [addNode]
    and [applyLearnedPatterns] neither add nor remove an edge. *)
Theorem edgeCount_run_ops (ops : list GraphOp) :
  edgeCount (run_ops ops) = length (List.filter is_addEdge ops).
Proof.
  induction ops as [|op ops IH] using rev_ind; [done|].
  unfold run_ops in *. rewrite fold_left_app, List.filter_app, length_app.
  cbn [fold_left]. rewrite <- IH.
  destruct op as [k la lo|from to_ d rt|draws]; cbn [apply_op List.filter is_addEdge length].
  - unfold edgeCount, addNode. cbn [adjacency_list]. lia.
  - rewrite edgeCount_addEdge. lia.
  - rewrite edgeCount_applyLearnedPatterns. lia.
Qed.

(** X3: no adjacency vector of a built graph is empty: [getEdges] returns
    either nothing or at least one edge. *)
Theorem getEdges_run_ops_nonempty (ops : list GraphOp) (from : Z) :
  getEdges (run_ops ops) from = None ∨
  ∃ edge rest, getEdges (run_ops ops) from = Some (edge :: rest).
Proof.
  revert from. induction ops as [|op ops IH] using rev_ind; intros from; [by left|].
  unfold run_ops in *. rewrite fold_left_app. cbn [fold_left].
  set (g := fold_left apply_op ops empty_graph) in *.
  destruct op as [k la lo|from' to_ d rt|draws]; cbn [apply_op].
  - apply IH.
  - destruct (addEdge_stores g from' to_ d rt) as (Hnew & Hother & _).
    destruct (decide (from = from')) as [->|Hne].
    + right. rewrite Hnew.
      destruct (default [] (getEdges g from')) as [|e l]; by eexists _, _.
    + rewrite Hother by done. apply IH.
  - destruct (applyLearnedPatterns_frame draws g) as [_ Hframe].
    specialize (Hframe from).
    destruct (IH from) as [Hold|(e & l & Hold)]; rewrite Hold in Hframe.
    + left. by inversion Hframe.
    + right. inversion Hframe as [? new Hrel|]; subst.
      inversion Hrel; subst. by eexists _, _.
Qed.

(** * Further properties of the annotation pass *)

Ltac road_class_cases :=
  repeat match goal with
         | |- context [String.eqb ?a ?b] =>
             destruct (String.eqb_spec a b); simplify_eq/=
         end.

Lemma annotate_edge_class (draws : nat → float) (st : Annotator) (edge : Edge) :
  class_annotated edge (annotate_edge draws st edge).2.
Proof.
  unfold annotate_edge, class_annotated. destruct edge as [t d s rt c]. cbn.
  road_class_cases;
    repeat match goal with
           | |- context [if (?x <? ?y)%float then _ else _] =>
               destruct (x <? y)%float; cbn
           end;
    try (by left);
    first [ right; left; split; [set_solver|done]
          | right; right; left; split; [set_solver|done]
          | right; right; right; by split ].
Qed.

(** What holds between each edge and its image under [annotate_edge] holds
    between the adjacency vectors before and after the pass. *)
Lemma applyLearnedPatterns_edgewise (R : Edge → Edge → Prop)
    (draws : nat → float) (g : Graph) :
  (∀ st edge, R edge (annotate_edge draws st edge).2) →
  ∀ from, option_Forall2 (Forall2 R)
            (getEdges g from) (getEdges (applyLearnedPatterns draws g).2 from).
Proof.
  intros HR.
  assert (∀ st edges, Forall2 R edges (annotate_edges draws st edges).2) as Hedges.
  { intros st edges. revert st.
    induction edges as [|edge rest IH]; intros st; [constructor|].
    cbn [annotate_edges]. pose proof (HR st edge) as He.
    destruct (annotate_edge draws st edge) as [st1 edge1].
    specialize (IH st1). destruct (annotate_edges draws st1 rest) as [st2 rest1].
    by constructor. }
  assert (∀ st entries,
            Forall2 (fun entry entry' => entry.1 = entry'.1 ∧ Forall2 R entry.2 entry'.2)
              entries (annotate_entries draws st entries).2) as Hentries.
  { intros st entries. revert st.
    induction entries as [|[k edges] rest IH]; intros st; [constructor|].
    cbn [annotate_entries]. pose proof (Hedges st edges) as He.
    destruct (annotate_edges draws st edges) as [st1 edges1].
    specialize (IH st1). destruct (annotate_entries draws st1 rest) as [st2 rest1].
    by constructor. }
  unfold applyLearnedPatterns, getEdges.
  pose proof (Hentries (mkAnnotator 0 0 0) (map_to_list (adjacency_list g))) as Hrel.
  pose proof (annotate_entries_annotated draws (mkAnnotator 0 0 0)
                (map_to_list (adjacency_list g))) as Hkeys.
  apply annotate_entries_keys in Hkeys.
  destruct (annotate_entries _ _ _) as [st entries].
  cbn [fst snd nodes adjacency_list] in *. intros from.
  assert (NoDup entries.*1) as Hnodup.
  { rewrite Hkeys. apply NoDup_fst_map_to_list. }
  destruct (list_to_map entries !! from) as [edges'|] eqn:Hnew.
  - apply elem_of_list_to_map in Hnew; [|done].
    apply list_elem_of_lookup in Hnew as [i Hi].
    destruct (Forall2_lookup_r _ _ _ _ _ Hrel Hi) as ([k edges] & Hold & Hk & Hes).
    simpl in *. subst k.
    apply list_elem_of_lookup_2, elem_of_map_to_list in Hold.
    rewrite Hold. by constructor.
  - apply not_elem_of_list_to_map in Hnew. rewrite Hkeys in Hnew.
    destruct (adjacency_list g !! from) as [edges|] eqn:Hold; [|constructor].
    exfalso. apply Hnew. apply elem_of_map_to_list in Hold.
    apply list_elem_of_fmap. by exists (from, edges).
Qed.

(** X4: whatever the draws, the annotation pass can only set a motorway or
    trunk edge to 0.6, a primary or secondary edge to 1.4 and a residential
    edge to 1.2; an edge of any other road class is never changed. *)
Theorem applyLearnedPatterns_by_class (draws : nat → float) (g : Graph) (from : Z) :
  option_Forall2 (Forall2 class_annotated)
    (getEdges g from) (getEdges (applyLearnedPatterns draws g).2 from).
Proof. apply applyLearnedPatterns_edgewise. apply annotate_edge_class. Qed.

(** A draw that is not below 0.05 is below neither 0.03 nor 0.02. *)
Lemma draw_thresholds (x : float) :
  (x <? 0.05)%float = false →
  (x <? 0.03)%float = false ∧ (x <? 0.02)%float = false.
Proof.
  rewrite !ltb_spec.
  set (a := Prim2SF 0.05). set (b := Prim2SF 0.03). set (c := Prim2SF 0.02).
  vm_compute in a, b, c. subst a b c.
  destruct (Prim2SF x) as [s|[]| |[] m e]; try done;
    try (intros _; split; reflexivity).
  unfold SFltb, SFcompare.
  destruct (Z.compare_spec e (-57)) as [->|He|He]; [|done|].
  - intros _. split; reflexivity.
  - intros _. assert ((e ?= -58) = Gt) as -> by (apply Z.compare_gt_iff; lia).
    done.
Qed.

Lemma annotate_edge_no_hit (draws : nat → float) (st : Annotator) (edge : Edge) :
  (∀ n, (draws n <? 0.05)%float = false) →
  (annotate_edge draws st edge).2 = edge.
Proof.
  intros Hdraws. unfold annotate_edge.
  assert (∀ n, (draws n <? 0.03)%float = false) as H3
    by (intros n; apply draw_thresholds, Hdraws).
  assert (∀ n, (draws n <? 0.02)%float = false) as H2
    by (intros n; apply draw_thresholds, Hdraws).
  destruct (_ || _)%bool; rewrite ?Hdraws; cbn;
    destruct (_ || _)%bool; rewrite ?H3; cbn;
    destruct (String.eqb _ _); rewrite ?H2; done.
Qed.

(** X5: multipliers persist from one pass to the next: a pass in which no
    draw falls below 0.05 leaves the graph exactly as it was, whatever
    multipliers earlier passes have set. *)
Theorem applyLearnedPatterns_no_hit (draws : nat → float) (g : Graph) :
  (∀ n, (draws n <? 0.05)%float = false) →
  (applyLearnedPatterns draws g).2 = g.
Proof.
  intros Hdraws.
  assert (∀ from, getEdges (applyLearnedPatterns draws g).2 from = getEdges g from)
    as Hsame.
  { intros from.
    pose proof (applyLearnedPatterns_edgewise (fun e e' => e' = e) draws g
                  (fun st e => annotate_edge_no_hit draws st e Hdraws) from) as H.
    inversion H as [old new Hrel|]; [|done]. f_equal.
    clear -Hrel. induction Hrel as [|e e' l l' -> _ IH]; [done|]. by rewrite IH. }
  destruct (applyLearnedPatterns_frame draws g) as [Hnodes _].
  destruct (applyLearnedPatterns draws g) as [st [ns adj]], g as [ns0 adj0].
  cbn [snd nodes] in *. subst ns. f_equal.
  apply map_eq. intros from. apply Hsame.
Qed.

Lemma applyLearnedPatterns_no_hit_witness :
  (applyLearnedPatterns (fun _ => 0.5%float)
     (addEdge (addEdge empty_graph 1 2 5 "motorway") 2 1 5 "primary")).2 =
  addEdge (addEdge empty_graph 1 2 5 "motorway") 2 1 5 "primary".
Proof.
  apply (applyLearnedPatterns_no_hit (fun _ => 0.5%float)
           (addEdge (addEdge empty_graph 1 2 5 "motorway") 2 1 5 "primary")).
  intros n. reflexivity.
Defined.

Lemma annotate_edge_counts (draws : nat → float) (st : Annotator) (edge : Edge) :
  let st' := (annotate_edge draws st edge).1 in
  let n := if annotatable edge then 1 else 0 in
  next_draw st' = (next_draw st + Z.to_nat n)%nat ∧
  shortcuts_found st ≤ shortcuts_found st' ∧
  congestion_points st ≤ congestion_points st' ∧
  shortcuts_found st' + congestion_points st' ≤
    shortcuts_found st + congestion_points st + n.
Proof.
  unfold annotate_edge, annotatable. destruct edge as [t d s rt c], st as [i a b].
  cbn.
  road_class_cases;
    repeat match goal with
           | |- context [if (?x <? ?y)%float then _ else _] =>
               destruct (x <? y)%float; cbn
           end;
    try case_bool_decide; cbn; try lia; exfalso;
    first [ solve_class
          | match goal with H : _ ∉ _ |- _ => apply H; repeat constructor end ].
Qed.

Lemma annotate_edges_counts (draws : nat → float) (st : Annotator)
    (edges : list Edge) :
  let st' := (annotate_edges draws st edges).1 in
  let n := length (List.filter annotatable edges) in
  next_draw st' = (next_draw st + n)%nat ∧
  shortcuts_found st ≤ shortcuts_found st' ∧
  congestion_points st ≤ congestion_points st' ∧
  shortcuts_found st' + congestion_points st' ≤
    shortcuts_found st + congestion_points st + Z.of_nat n.
Proof.
  revert st. induction edges as [|edge rest IH]; intros st; cbn; [lia|].
  pose proof (annotate_edge_counts draws st edge) as He.
  destruct (annotate_edge draws st edge) as [st1 edge1].
  specialize (IH st1). destruct (annotate_edges draws st1 rest) as [st2 rest1].
  cbn in *. destruct (annotatable edge); cbn [length]; lia.
Qed.

Lemma annotate_entries_counts (draws : nat → float) (st : Annotator)
    (entries : list (Z * list Edge)) :
  let st' := (annotate_entries draws st entries).1 in
  let n := entries_annotatable entries in
  next_draw st' = (next_draw st + n)%nat ∧
  shortcuts_found st ≤ shortcuts_found st' ∧
  congestion_points st ≤ congestion_points st' ∧
  shortcuts_found st' + congestion_points st' ≤
    shortcuts_found st + congestion_points st + Z.of_nat n.
Proof.
  revert st. induction entries as [|[k edges] rest IH]; intros st.
  { cbn. lia. }
  cbn [annotate_entries].
  pose proof (annotate_edges_counts draws st edges) as He.
  destruct (annotate_edges draws st edges) as [st1 edges1].
  specialize (IH st1). destruct (annotate_entries draws st1 rest) as [st2 rest1].
  change (entries_annotatable ((k, edges) :: rest))
    with (length (List.filter annotatable edges) + entries_annotatable rest)%nat.
  cbn [fst] in *. lia.
Qed.

Lemma entries_annotatable_le (entries : list (Z * list Edge)) :
  (entries_annotatable entries ≤ entries_edges entries)%nat.
Proof.
  induction entries as [|[k edges] rest IH]; [done|].
  change (entries_annotatable ((k, edges) :: rest))
    with (length (List.filter annotatable edges) + entries_annotatable rest)%nat.
  rewrite entries_edges_cons.
  pose proof (List.filter_length_le annotatable edges). lia.
Qed.

(** X6: an annotation pass takes exactly one random draw for each edge of
    class motorway, trunk, primary, secondary or residential and none for
    any other edge; the two counters it reports are non-negative and together
    count at most one hit per draw, hence at most the number of edges. *)
Theorem applyLearnedPatterns_counters (draws : nat → float) (g : Graph) :
  let report := (applyLearnedPatterns draws g).1 in
  next_draw report = entries_annotatable (map_to_list (adjacency_list g)) ∧
  0 ≤ shortcuts_found report ∧
  0 ≤ congestion_points report ∧
  shortcuts_found report + congestion_points report ≤ Z.of_nat (next_draw report) ∧
  (next_draw report ≤ edgeCount g)%nat.
Proof.
  cbv zeta. unfold applyLearnedPatterns.
  pose proof (annotate_entries_counts draws (mkAnnotator 0 0 0)
                (map_to_list (adjacency_list g))) as H.
  pose proof (entries_annotatable_le (map_to_list (adjacency_list g))) as Hle.
  rewrite <- edgeCount_entries in Hle.
  destruct (annotate_entries _ _ _) as [st entries].
  cbn [fst next_draw shortcuts_found congestion_points] in *. lia.
Qed.

(** * Further properties of the search *)

Lemma fold_left_ext_Forall {A B} (f f' : A → B → A) (l : list B) (a : A) :
  Forall (fun y => ∀ x, f x y = f' x y) l → fold_left f l a = fold_left f' l a.
Proof.
  intros Hl. revert a. induction Hl as [|y l Hy _ IH]; intros a; [done|].
  cbn [fold_left]. by rewrite Hy, IH.
Qed.

(** Two cost models that agree on the stored edges drive the search loop
    through the same states. *)
Lemma search_loop_cost_ext (fuel : nat) (g : Graph) (end_ : Z)
    (mode mode' : RouteMode) (hour hour' : Z) (st : Search) :
  (∀ from edges, getEdges g from = Some edges →
     Forall (fun edge => calculateEdgeWeight edge mode hour =
                         calculateEdgeWeight edge mode' hour') edges) →
  search_loop fuel g end_ mode hour st = search_loop fuel g end_ mode' hour' st.
Proof.
  intros Hcost. revert st. induction fuel as [|fuel IH]; intros st; [done|].
  cbn [search_loop].
  assert (search_step g end_ mode hour st = search_step g end_ mode' hour' st) as ->.
  { unfold search_step.
    destruct (pq_top_pop (pq st)) as [[[d c] pq1]|]; [|done].
    destruct (c =? end_); [done|].
    destruct (subscript _ _ _) as [d' ds].
    destruct (d' <? d)%float; [done|].
    destruct (getEdges g c) as [edges|] eqn:Hedges; [|done].
    f_equal. apply fold_left_ext_Forall.
    eapply Forall_impl; [exact (Hcost c edges Hedges)|].
    intros edge He s. unfold relax. by rewrite He. }
  destruct (search_step g end_ mode' hour' st); [apply IH|done].
Qed.

Lemma learned_off_peak_cost (edge : Edge) (hour : Z) :
  hour ∉ rush_hours → crowd_multiplier edge = 1%float →
  calculateEdgeWeight edge LEARNED hour = calculateEdgeWeight edge SPEED_LIMIT hour.
Proof.
  intros Hhour Hcrowd. cbn [calculateEdgeWeight]. unfold getTimeAdjustedSpeed.
  destruct ((7 <=? hour) && (hour <=? 9) || (17 <=? hour) && (hour <=? 19))%bool
    eqn:Hrush.
  { by apply rush_hours_spec in Hrush. }
  by rewrite Hcrowd, float_mul_1_r.
Qed.

(** X7: outside the rush hours and on a graph that no annotation pass has
    touched, the learned mode is the speed-limit mode: both searches return
    the same path, the same distance and the same time. *)
Theorem learned_off_peak_is_speed_limit (fuel : nat) (g : Graph) (start end_ : Z)
    (hour : Z) :
  hour ∉ rush_hours → unannotated g →
  (fun r => (path r, total_distance r, estimated_time r)) <$>
    dijkstra fuel g start end_ LEARNED hour =
  (fun r => (path r, total_distance r, estimated_time r)) <$>
    dijkstra fuel g start end_ SPEED_LIMIT hour.
Proof.
  intros Hhour Hg. unfold dijkstra.
  rewrite (search_loop_cost_ext fuel g end_ LEARNED SPEED_LIMIT hour hour).
  - destruct (search_loop _ _ _ _ _ _) as [st|]; [|done].
    destruct (subscript _ _ _) as [d ds].
    destruct (d =? infinity)%float; [done|].
    destruct (walk_back _ _ _ _ _) as [p|]; [|done].
    by destruct (route_metrics _ _ _).
  - intros from edges Hedges.
    eapply Forall_impl; [exact (Hg from edges Hedges)|].
    intros edge Hc. by apply learned_off_peak_cost.
Qed.

Lemma learned_off_peak_is_speed_limit_witness :
  (fun r => (path r, total_distance r, estimated_time r)) <$>
    dijkstra 3 three_in_a_row 1 3 LEARNED 12 =
  Some ([1; 2; 3], 222%float, 7.992%float) ∧
  (fun r => (path r, total_distance r, estimated_time r)) <$>
    dijkstra 3 three_in_a_row 1 3 LEARNED 12 =
  (fun r => (path r, total_distance r, estimated_time r)) <$>
    dijkstra 3 three_in_a_row 1 3 SPEED_LIMIT 12.
Proof.
  split; [reflexivity|].
  apply (learned_off_peak_is_speed_limit 3 three_in_a_row 1 3 12).
  - intros H. repeat (apply elem_of_cons in H as [H|H]; [discriminate|]).
    by apply elem_of_nil in H.
  - apply map_Forall_to_list. vm_compute. repeat constructor.
Defined.

(** X8: in the distance and speed-limit modes the hour of day changes neither
    the path that is found nor its reported distance (it changes the
    reported time only). *)
Theorem route_independent_of_hour (fuel : nat) (g : Graph) (start end_ : Z)
    (hour hour' : Z) :
  (fun r => (path r, total_distance r)) <$>
    dijkstra fuel g start end_ DISTANCE hour =
  (fun r => (path r, total_distance r)) <$>
    dijkstra fuel g start end_ DISTANCE hour' ∧
  (fun r => (path r, total_distance r)) <$>
    dijkstra fuel g start end_ SPEED_LIMIT hour =
  (fun r => (path r, total_distance r)) <$>
    dijkstra fuel g start end_ SPEED_LIMIT hour'.
Proof.
  split; unfold dijkstra.
  - rewrite (search_loop_cost_ext fuel g end_ DISTANCE DISTANCE hour hour')
      by (intros; by apply Forall_true).
    destruct (search_loop _ _ _ _ _ _) as [st|]; [|done].
    destruct (subscript _ _ _) as [d ds].
    destruct (d =? infinity)%float; [done|].
    destruct (walk_back _ _ _ _ _) as [p|]; [|done].
    by rewrite !route_metrics_sum.
  - rewrite (search_loop_cost_ext fuel g end_ SPEED_LIMIT SPEED_LIMIT hour hour')
      by (intros; by apply Forall_true).
    destruct (search_loop _ _ _ _ _ _) as [st|]; [|done].
    destruct (subscript _ _ _) as [d ds].
    destruct (d =? infinity)%float; [done|].
    destruct (walk_back _ _ _ _ _) as [p|]; [|done].
    by rewrite !route_metrics_sum.
Qed.

Lemma walk_back_shape (fuel : nat) (start : Z) (prev : gmap Z Z) (cur : Z)
    (acc p : list Z) :
  walk_back fuel start prev cur acc = Some p →
  ∃ visited, p = acc ++ visited ∧ (start ∉ visited) ∧
    (cur = start ∧ visited = [] ∨ cur ≠ start ∧ ∃ rest, visited = cur :: rest).
Proof.
  revert prev cur acc. induction fuel as [|fuel IH]; intros prev cur acc; [done|].
  cbn [walk_back]. destruct (Z.eqb_spec cur start) as [->|Hcur].
  { intros [= <-]. exists []. rewrite app_nil_r.
    split_and!; [done| |by left]. intros H. by apply elem_of_nil in H. }
  destruct (subscript 0 prev cur) as [u prev1]. intros Hwalk.
  destruct (IH _ _ _ Hwalk) as (visited & -> & Hnot & _).
  exists (cur :: visited). split_and!.
  - by rewrite <- (assoc_L (++)).
  - intros [?|?]%elem_of_cons; [congruence|done].
  - right. split; [done|by eexists].
Qed.

(** X9: the record a search returns carries the requested mode and its
    label, and its path is empty with zero distance and time (no path
    found), or the single start when start and end coincide, or a sequence
    that begins with the start, ends with the end and does not pass through
    the start in between. *)
Theorem dijkstra_result_shape (fuel : nat) (g : Graph) (start end_ : Z)
    (mode_ : RouteMode) (hour : Z) (r : RouteResult) :
  dijkstra fuel g start end_ mode_ hour = Some r →
  mode r = mode_ ∧ mode_name r = mode_name_of mode_ ∧
  (path r = [] ∧ total_distance r = 0%float ∧ estimated_time r = 0%float ∨
   start = end_ ∧ path r = [start] ∧
     total_distance r = 0%float ∧ estimated_time r = 0%float ∨
   start ≠ end_ ∧ ∃ mid, path r = start :: mid ++ [end_] ∧ start ∉ mid).
Proof.
  unfold dijkstra.
  destruct (search_loop _ _ _ _ _ _) as [st|]; [|done].
  destruct (subscript _ _ _) as [d ds].
  destruct (d =? infinity)%float.
  { intros [= <-]. split_and!; [done..|]. by left. }
  destruct (walk_back _ _ _ _ _) as [p|] eqn:Hwalk; [|done].
  apply walk_back_shape in Hwalk as (visited & -> & Hnot & Hcases).
  cbn [app].
  destruct Hcases as [[<- ->]|[Hne (rest & ->)]].
  - cbn. intros [= <-]. split_and!; [done..|]. right. left. done.
  - destruct (route_metrics _ _ _) as [td et]. intros [= <-].
    split_and!; [done..|]. right. right. split; [done|].
    exists (rev rest). cbn [path app rev]. rewrite rev_app_distr. cbn [rev app].
    split; [done|].
    intros Hin. apply Hnot. right.
    by apply list_elem_of_In, in_rev, list_elem_of_In in Hin.
Qed.

Lemma dijkstra_result_shape_witness :
  dijkstra 3 three_in_a_row 1 3 LEARNED 8 =
    Some (mkRouteResult [1; 2; 3] 222 19.98 LEARNED (mode_name_of LEARNED)) ∧
  (1 ≠ 3 ∧ ∃ mid, [1; 2; 3] = 1 :: mid ++ [3] ∧ 1 ∉ mid).
Proof.
  split; [reflexivity|].
  destruct (dijkstra_result_shape 3 three_in_a_row 1 3 LEARNED 8
              (mkRouteResult [1; 2; 3] 222 19.98 LEARNED (mode_name_of LEARNED))
              eq_refl) as (_ & _ & [[H _]|[[H _]|H]]).
  - discriminate H.
  - discriminate H.
  - exact H.
Defined.

(** ** Every step of a returned path is a stored edge *)

Lemma chain_snoc (R : Z → Z → Prop) (l : list Z) (x y : Z) :
  chain R (l ++ [x]) → R x y → chain R ((l ++ [x]) ++ [y]).
Proof.
  intros Hl Hxy. induction l as [|a l IH]; cbn [app] in *.
  { by repeat constructor. }
  destruct l as [|b l]; cbn [app] in *; inversion Hl; subst.
  - by repeat constructor.
  - constructor; [done|]. by apply IH.
Qed.

Lemma chain_rev (R : Z → Z → Prop) (l : list Z) :
  chain R l → chain (flip R) (rev l).
Proof.
  induction 1 as [|x|x y l Hxy _ IH]; [constructor..|].
  cbn [rev] in *. by apply chain_snoc.
Qed.

Lemma chain_lookup (R : Z → Z → Prop) (l : list Z) (i : nat) (a b : Z) :
  chain R l → l !! i = Some a → l !! S i = Some b → R a b.
Proof.
  intros Hl. revert i. induction Hl as [|x|x y l Hxy _ IH]; intros i Ha Hb.
  - by rewrite lookup_nil in Ha.
  - by rewrite lookup_cons, lookup_nil in Hb.
  - destruct i as [|i]; [by simplify_eq/=|]. by apply (IH i).
Qed.

Lemma chain_impl (R R' : Z → Z → Prop) (l : list Z) :
  (∀ x y, R x y → R' x y) → chain R l → chain R' l.
Proof. intros HR. induction 1; constructor; auto. Qed.

Lemma has_edge_first (g : Graph) (a b : Z) :
  has_edge g a b → is_Some (first_edge_to g a b).
Proof.
  intros (edges & edge & Hget & Hin & Hto). unfold first_edge_to.
  rewrite Hget. cbn [mbind option_bind].
  destruct (List.find _ edges) as [e|] eqn:Hfind; [by eexists|].
  apply list_elem_of_In in Hin.
  pose proof (List.find_none _ _ Hfind _ Hin) as Hno. cbn in Hno.
  apply Z.eqb_neq in Hno. done.
Qed.

Lemma chain_summed_edges (g : Graph) (l : list Z) :
  chain (has_edge g) l → length (summed_edges g l) = (length l - 1)%nat.
Proof.
  induction 1 as [|x|x y l Hxy _ IH]; [done..|].
  change (summed_edges g (x :: y :: l))
    with (match first_edge_to g x y with
          | Some edge => edge :: summed_edges g (y :: l)
          | None => summed_edges g (y :: l)
          end).
  destruct (has_edge_first g x y Hxy) as [e ->].
  cbn [length] in *. lia.
Qed.

Lemma subscript_keeps_infinity (ds : gmap Z float) (k j : Z) :
  ds !! j = Some infinity → (subscript 0%float ds k).2 !! j = Some infinity.
Proof.
  intros Hj. rewrite subscript_snd_lookup. case_decide as Hk; [|done].
  subst. by rewrite Hj.
Qed.

Section links.
Variables (g : Graph) (start end_ : Z) (mode_ : RouteMode) (hour : Z).

Lemma relax_link (d : float) (cur : Z) (edges : list Edge) (st : Search)
    (edge : Edge) :
  cur = start ∨ is_Some (previous st !! cur) →
  getEdges g cur = Some edges → edge ∈ edges →
  link_inv g start st →
  link_inv g start (relax mode_ hour d cur st edge) ∧
  (cur = start ∨ is_Some (previous (relax mode_ hour d cur st edge) !! cur)).
Proof.
  intros Hcur Hget Hin [Hpq Hprev Hdist]. unfold relax.
  pose proof (subscript_keeps_infinity (distances st) (to edge)) as Hinf.
  destruct (subscript 0%float (distances st) (to edge)) as [dt ds1].
  cbn [snd] in Hinf.
  destruct (_ <? dt)%float; cbn [previous pq distances].
  - assert (∀ x, is_Some (previous st !! x) →
                 is_Some (<[to edge:=cur]> (previous st) !! x)) as Hmono.
    { intros x Hx. rewrite lookup_insert. by case_decide. }
    split; [split; cbn [previous pq distances]|].
    + intros d' x [[= -> ->]|Hx]%elem_of_cons.
      * right. by rewrite lookup_insert_eq.
      * destruct (Hpq d' x Hx); auto.
    + intros x u. rewrite lookup_insert. case_decide as Hx.
      * intros [= <-]. subst x. split.
        -- destruct Hcur; auto.
        -- by exists edges, edge.
      * intros Hxu. destruct (Hprev x u Hxu) as [[?|?] ?]; auto.
    + intros k Hk Hks. destruct (decide (to edge = k)) as [<-|Hne].
      * right. by rewrite lookup_insert_eq.
      * rewrite lookup_insert_ne by done.
        destruct (Hdist k Hk Hks); auto.
    + destruct Hcur; auto.
  - split; [split; cbn [previous pq distances]; auto|done].
    intros k Hk Hks. destruct (Hdist k Hk Hks); auto.
Qed.

Lemma fold_relax_link (d : float) (cur : Z) (edges todo : list Edge) (st : Search) :
  cur = start ∨ is_Some (previous st !! cur) →
  getEdges g cur = Some edges → Forall (fun edge => edge ∈ edges) todo →
  link_inv g start st →
  link_inv g start (fold_left (relax mode_ hour d cur) todo st).
Proof.
  intros Hcur Hget Htodo. revert st Hcur.
  induction Htodo as [|edge todo Hin _ IH]; intros st Hcur Hst; [done|].
  cbn [fold_left].
  destruct (relax_link d cur edges st edge Hcur Hget Hin Hst) as [Hst' Hcur'].
  by apply IH.
Qed.

Lemma search_step_link (st : Search) :
  link_inv g start st →
  link_inv g start (outcome_state (search_step g end_ mode_ hour st)).
Proof.
  intros Hst. pose proof Hst as [Hpq Hprev Hdist]. unfold search_step.
  destruct (pq_top_pop (pq st)) as [[[d cur] pq1]|] eqn:Hpop; [|done].
  apply pq_top_pop_elem in Hpop as [Htop Hrest].
  pose proof (Hpq d cur Htop) as Hcur.
  destruct (cur =? end_).
  { split; cbn [outcome_state pq previous distances]; auto.
    intros d0 x Hx. by apply (Hpq d0 x), Hrest. }
  pose proof (subscript_keeps_infinity (distances st) cur) as Hinf.
  destruct (subscript 0%float (distances st) cur) as [d' ds1]. cbn [snd] in Hinf.
  assert (link_inv g start (mkSearch ds1 (previous st) pq1)) as Hst1.
  { split; cbn [pq previous distances]; auto.
    - intros d0 x Hx. by apply (Hpq d0 x), Hrest.
    - intros k Hk Hks. destruct (Hdist k Hk Hks); auto. }
  destruct (d' <? d)%float; [done|].
  destruct (getEdges g cur) as [edges|] eqn:Hedges; [|done].
  cbn [outcome_state]. apply (fold_relax_link d cur edges); try done.
  by apply Forall_forall.
Qed.

Lemma init_search_link : link_inv g start (init_search g start).
Proof.
  split; cbn [init_search pq previous distances].
  - intros d x [[= -> ->]|[]%elem_of_nil]%elem_of_cons. by left.
  - intros x u. by rewrite lookup_empty.
  - intros k [n Hk] Hks. left. rewrite lookup_insert_ne by done.
    by rewrite init_distances_lookup, Hk.
Qed.

Lemma search_loop_link (fuel : nat) (st st' : Search) :
  link_inv g start st →
  search_loop fuel g end_ mode_ hour st = Some st' →
  link_inv g start st'.
Proof.
  revert st. induction fuel as [|fuel IH]; intros st Hst; [done|].
  cbn [search_loop]. pose proof (search_step_link st Hst) as Hnext.
  destruct (search_step g end_ mode_ hour st) as [st1|st1].
  - by apply IH.
  - by intros [= <-].
Qed.

Lemma walk_back_linked (fuel : nat) (prev : gmap Z Z) (cur : Z) (acc p : list Z) :
  (∀ x u, prev !! x = Some u →
          (u = start ∨ is_Some (prev !! u)) ∧ has_edge g u x) →
  cur = start ∨ is_Some (prev !! cur) →
  chain (fun x y => has_edge g y x) (acc ++ [cur]) →
  walk_back fuel start prev cur acc = Some p →
  chain (fun x y => has_edge g y x) (p ++ [start]).
Proof.
  intros Hprev. revert cur acc.
  induction fuel as [|fuel IH]; intros cur acc Hcur Hacc; [done|].
  cbn [walk_back]. destruct (Z.eqb_spec cur start) as [->|Hne].
  { by intros [= <-]. }
  destruct Hcur as [?|[u Hu]]; [done|].
  unfold subscript. rewrite Hu.
  destruct (Hprev cur u Hu) as [Hu' Hedge].
  apply IH; [done|]. by apply chain_snoc.
Qed.

End links.

(** When the end is a node, consecutive identities of a returned path are
    joined by stored edges, whatever the costs. *)
Lemma dijkstra_path_chain (fuel : nat) (g : Graph) (start end_ : Z)
    (mode_ : RouteMode) (hour : Z) (r : RouteResult) :
  is_Some (nodes g !! end_) →
  dijkstra fuel g start end_ mode_ hour = Some r →
  chain (has_edge g) (path r).
Proof.
  intros [n Hend]. unfold dijkstra.
  destruct (search_loop _ _ _ _ _ _) as [st|] eqn:Hloop; [|done].
  apply (search_loop_link g start end_ mode_ hour) in Hloop;
    [|apply init_search_link].
  destruct Hloop as [_ Hprev Hdist].
  pose proof (subscript_fst 0%float (distances st) end_) as Hd.
  destruct (subscript _ _ _) as [d ds]. cbn [fst] in Hd.
  destruct (d =? infinity)%float eqn:Hinf.
  { intros [= <-]. constructor. }
  destruct (walk_back _ _ _ _ _) as [p|] eqn:Hwalk; [|done].
  apply (walk_back_linked g start) in Hwalk; [|done| |constructor].
  - destruct (route_metrics _ _ _) as [td et]. intros [= <-]. cbn [path].
    apply chain_rev in Hwalk. revert Hwalk. by apply chain_impl.
  - destruct (decide (end_ = start)) as [?|Hne]; [by left|right].
    destruct (Hdist end_) as [Hdi|?]; [by eexists|done| |done].
    rewrite Hdi in Hd. cbn in Hd. subst d. done.
Qed.

(** X10: when the end is a node of the graph, every step of a returned path
    runs along a stored edge, whatever the costs; so the metric pass finds an
    edge for each step and the reported totals leave no step out. *)
Theorem dijkstra_steps_are_edges (fuel : nat) (g : Graph) (start end_ : Z)
    (mode_ : RouteMode) (hour : Z) (r : RouteResult) :
  is_Some (nodes g !! end_) →
  dijkstra fuel g start end_ mode_ hour = Some r →
  (∀ i a b, path r !! i = Some a → path r !! S i = Some b →
            has_edge g a b ∧ is_Some (first_edge_to g a b)) ∧
  length (summed_edges g (path r)) = (length (path r) - 1)%nat.
Proof.
  intros Hend Hr.
  pose proof (dijkstra_path_chain fuel g start end_ mode_ hour r Hend Hr) as Hchain.
  split.
  - intros i a b Ha Hb.
    assert (has_edge g a b) as Hab
      by apply (chain_lookup (has_edge g) (path r) i a b Hchain Ha Hb).
    split; [done|]. by apply has_edge_first.
  - by apply chain_summed_edges.
Qed.

Lemma dijkstra_steps_are_edges_witness :
  dijkstra 3 three_in_a_row 1 3 DISTANCE 8 =
    Some (mkRouteResult [1; 2; 3] 222 19.98 DISTANCE (mode_name_of DISTANCE)) ∧
  length (summed_edges three_in_a_row [1; 2; 3]) = 2%nat.
Proof.
  split; [reflexivity|].
  apply (dijkstra_steps_are_edges 3 three_in_a_row 1 3 DISTANCE 8
           (mkRouteResult [1; 2; 3] 222 19.98 DISTANCE (mode_name_of DISTANCE))).
  - eexists. reflexivity.
  - reflexivity.
Defined.


(** ** Metrics of a path whose parallel edges do not differ *)

Lemma stores_empty (k : Z) (edge : Edge) : ¬ stores empty_graph k edge.
Proof. intros (edges & Hget & _). discriminate Hget. Qed.

Lemma stores_addNode (g : Graph) (id : Z) (lat_ lon_ : float) (k : Z) (edge : Edge) :
  stores (addNode g id lat_ lon_) k edge ↔ stores g k edge.
Proof. done. Qed.

Lemma stores_addEdge (g : Graph) (from to_ : Z) (d : float) (rt : string)
    (k : Z) (edge : Edge) :
  stores (addEdge g from to_ d rt) k edge ↔
  stores g k edge ∨ (k = from ∧ edge = mkEdge to_ d (speed_limit_of rt) rt 1).
Proof.
  destruct (addEdge_stores g from to_ d rt) as (Hfrom & Hother & _).
  unfold stores. destruct (decide (k = from)) as [->|Hne].
  - rewrite Hfrom. split.
    + intros (edges & [= <-] & [Hin|Hin%list_elem_of_singleton]%elem_of_app);
        [|by right].
      left. destruct (getEdges g from) as [old|]; [by exists old|].
      by apply elem_of_nil in Hin.
    + intros [(old & Hold & Hin)|[_ ->]]; eexists; (split; [done|]);
        apply elem_of_app; [left|right; apply list_elem_of_here].
      by rewrite Hold.
  - rewrite (Hother k Hne). split; [by left|]. by intros [?|[? _]].
Qed.

Lemma first_edge_to_stores (g : Graph) (a b : Z) (edge : Edge) :
  first_edge_to g a b = Some edge → stores g a edge ∧ to edge = b.
Proof.
  unfold first_edge_to. destruct (getEdges g a) as [edges|] eqn:Hget; [|done].
  cbn [mbind option_bind]. intros [Hin Hto]%List.find_some.
  split; [|by apply Z.eqb_eq]. exists edges. split; [done|].
  by apply list_elem_of_In.
Qed.

Lemma summed_edges_cons (g : Graph) (a b : Z) (l : list Z) :
  summed_edges g (a :: b :: l) =
  match first_edge_to g a b with
  | Some edge => edge :: summed_edges g (b :: l)
  | None => summed_edges g (b :: l)
  end.
Proof. reflexivity. Qed.

(** On a path whose steps are stored edges the metric pass adds up one edge
    of each step. *)
Lemma chain_path_edges (g : Graph) (l : list Z) :
  chain (has_edge g) l → l ≠ [] → path_edges g l (summed_edges g l).
Proof.
  induction 1 as [|x|x y l Hxy _ IH]; intros Hne; [done|constructor|].
  rewrite summed_edges_cons.
  destruct (has_edge_first g x y Hxy) as [edge Hedge]. rewrite Hedge.
  apply first_edge_to_stores in Hedge as [Hst Hto].
  constructor; [done..|]. by apply IH.
Qed.

(** Where parallel edges do not differ, a path has no other edges. *)
Lemma path_edges_summed (g : Graph) (l : list Z) (edges : list Edge) :
  unrivalled g → path_edges g l edges → edges = summed_edges g l.
Proof.
  intros Hg. induction 1 as [a|a b rest edge edges Hst Hto _ IH]; [done|].
  rewrite summed_edges_cons.
  destruct (has_edge_first g a b) as [first Hfirst].
  { destruct Hst as (stored & Hget & Hin). by exists stored, edge. }
  rewrite Hfirst. apply first_edge_to_stores in Hfirst as [Hst' Hto'].
  f_equal; [|done]. apply (Hg a); [done..|congruence].
Qed.

(** X26: when the end is a node and parallel edges do not differ (as when
    no two stored edges share source and target), a returned path that is
    not empty has exactly one sequence of edges, one stored edge per step;
    the reported distance is the sum of their stored distances and the
    reported time the sum of their distances divided by the time-adjusted
    speed times the crowd multiplier in m/s, whatever mode found the
    path. *)
Theorem dijkstra_metrics_unrivalled (fuel : nat) (g : Graph) (start end_ : Z)
    (mode_ : RouteMode) (hour : Z) (r : RouteResult) :
  is_Some (nodes g !! end_) → unrivalled g →
  dijkstra fuel g start end_ mode_ hour = Some r → path r ≠ [] →
  ∃ edges,
    path_edges g (path r) edges ∧
    (∀ edges', path_edges g (path r) edges' → edges' = edges) ∧
    total_distance r = sum_doubles (distance <$> edges) ∧
    estimated_time r = sum_doubles (learned_time hour <$> edges).
Proof.
  intros Hend Hg Hr Hpath. exists (summed_edges g (path r)).
  pose proof (dijkstra_path_chain fuel g start end_ mode_ hour r Hend Hr) as Hchain.
  destruct (dijkstra_totals_summed fuel g start end_ mode_ hour r Hr Hpath)
    as [Hdistance Htime].
  split_and!; [by apply chain_path_edges| |done..].
  intros edges' Hedges'. by apply path_edges_summed.
Qed.

Lemma three_in_a_row_unrivalled : unrivalled three_in_a_row.
Proof.
  intros from e1 e2 H1 H2 Hto. unfold three_in_a_row in *.
  rewrite !stores_addEdge, !stores_addNode in H1, H2.
  destruct H1 as [[H1|[-> ->]]|[-> ->]]; [by apply stores_empty in H1|..];
    destruct H2 as [[H2|[? ->]]|[? ->]]; try (by apply stores_empty in H2);
    try done.
Qed.

Lemma dijkstra_metrics_unrivalled_witness :
  ∃ edges,
    path_edges three_in_a_row [1; 2; 3] edges ∧
    (∀ edges', path_edges three_in_a_row [1; 2; 3] edges' → edges' = edges) ∧
    222%float = sum_doubles (distance <$> edges) ∧
    19.98%float = sum_doubles (learned_time 8 <$> edges).
Proof.
  apply (dijkstra_metrics_unrivalled 3 three_in_a_row 1 3 DISTANCE 8
           (mkRouteResult [1; 2; 3] 222 19.98 DISTANCE (mode_name_of DISTANCE))).
  - eexists. reflexivity.
  - exact three_in_a_row_unrivalled.
  - reflexivity.
  - discriminate.
Defined.
(** ** The search loop terminates *)

Lemma digits2_pos_bound (m : positive) : Z.pos m < 2 ^ Z.pos (digits2_pos m).
Proof.
  induction m as [m IH|m IH|]; cbn [digits2_pos]; [| |done];
    rewrite Pos2Z.inj_succ, Z.pow_succ_r by lia; lia.
Qed.

Lemma valid_finite_bounds (s : bool) (m : positive) (e : Z) :
  valid_binary (S754_finite s m e) = true →
  Z.pos m < 2 ^ 53 ∧ -1074 ≤ e ≤ 971.
Proof.
  unfold valid_binary. cbn [SpecFloat.valid_binary]. unfold bounded, canonical_mantissa.
  intros [Hc He]%andb_prop. apply Z.eqb_eq in Hc. apply Z.leb_le in He.
  unfold fexp, emin, prec, emax in *.
  pose proof (digits2_pos_bound m) as Hm.
  assert (Z.pos (digits2_pos m) ≤ 53) as Hd by lia.
  pose proof (Z.pow_le_mono_r 2 _ _ ltac:(lia) Hd). lia.
Qed.

Lemma sf_rank_bound (x : spec_float) :
  valid_binary x = true → - rank_top ≤ sf_rank x ≤ rank_top.
Proof.
  destruct x as [s|[]| |s m e]; cbn [sf_rank]; unfold rank_top;
    change (2 ^ 53) with 9007199254740992; try lia.
  intros [Hm He]%valid_finite_bounds.
  change (2 ^ 53) with 9007199254740992 in Hm. destruct s; nia.
Qed.

Lemma sf_rank_lt (x y : spec_float) :
  valid_binary x = true → valid_binary y = true →
  SFltb x y = true → sf_rank x < sf_rank y.
Proof.
  intros Hx Hy. pose proof (sf_rank_bound x Hx) as Bx.
  pose proof (sf_rank_bound y Hy) as By.
  destruct x as [sx|sx| |sx mx ex], y as [sy|sy| |sy my ey];
    try apply valid_finite_bounds in Hx as [Hmx Hex];
    try apply valid_finite_bounds in Hy as [Hmy Hey];
    unfold SFltb; cbn [SFcompare sf_rank] in *; unfold rank_top in *;
    change (2 ^ 53) with 9007199254740992 in *;
    try destruct sx; try destruct sy; try done; try nia.
  - destruct (Z.compare_spec ex ey) as [->|H|H]; [|done|intros _; nia].
    pose proof (Pos.compare_spec mx my) as Hc. unfold Pos.compare in Hc.
    destruct Hc; cbn; [done|done|lia].
  - destruct (Z.compare_spec ex ey) as [->|H|H]; [|intros _; nia|done].
    pose proof (Pos.compare_spec mx my) as Hc. unfold Pos.compare in Hc.
    destruct Hc; cbn; [done|lia|done].
Qed.

Lemma rank_lt (x y : float) : (x <? y)%float = true → rank x < rank y.
Proof.
  rewrite ltb_spec. apply sf_rank_lt; apply Prim2SF_valid.
Qed.

Lemma rank_bound (x : float) : - rank_top ≤ rank x ≤ rank_top.
Proof. apply sf_rank_bound, Prim2SF_valid. Qed.

Lemma foldr_add_le (f f' : Z → Z) (l : list Z) :
  (∀ k, k ∈ l → f' k ≤ f k) →
  foldr Z.add 0 (f' <$> l) ≤ foldr Z.add 0 (f <$> l).
Proof.
  induction l as [|k l IH]; intros Hl; [done|].
  cbn [fmap list_fmap foldr].
  pose proof (Hl k ltac:(left)). 
  assert (foldr Z.add 0 (f' <$> l) ≤ foldr Z.add 0 (f <$> l)).
  { apply IH. intros j Hj. apply Hl. by right. }
  cbn [fmap] in *. lia.
Qed.

Lemma foldr_add_lt (f f' : Z → Z) (l : list Z) (k0 : Z) :
  (∀ k, k ∈ l → f' k ≤ f k) → k0 ∈ l → f' k0 < f k0 →
  foldr Z.add 0 (f' <$> l) < foldr Z.add 0 (f <$> l).
Proof.
  induction l as [|k l IH]; intros Hl Hin Hlt; [by apply elem_of_nil in Hin|].
  cbn [fmap list_fmap foldr].
  pose proof (Hl k ltac:(left)) as Hk.
  assert (∀ j, j ∈ l → f' j ≤ f j) as Hl' by (intros j Hj; apply Hl; by right).
  pose proof (foldr_add_le f f' l Hl') as Hle. cbn [fmap] in *.
  apply elem_of_cons in Hin as [->|Hin]; [lia|].
  specialize (IH Hl' Hin Hlt). lia.
Qed.

Lemma dist_rank_nonneg (st : Search) (k : Z) : 0 ≤ dist_rank st k.
Proof. unfold dist_rank. pose proof (rank_bound (default 0%float (distances st !! k))). lia. Qed.

Lemma search_measure_nonneg (g : Graph) (st : Search) : 0 ≤ search_measure g st.
Proof.
  unfold search_measure.
  assert (0 ≤ foldr Z.add 0 (dist_rank st <$> targets g)); [|lia].
  induction (targets g) as [|k l IH]; [done|].
  cbn [fmap list_fmap foldr]. pose proof (dist_rank_nonneg st k). cbn [fmap] in *. lia.
Qed.

Lemma subscript_default (ds : gmap Z float) (k j : Z) :
  default 0%float ((subscript 0%float ds k).2 !! j) = default 0%float (ds !! j).
Proof.
  rewrite subscript_snd_lookup. case_decide as Hk; [|done]. by subst.
Qed.

Lemma targets_elem (g : Graph) (from : Z) (edges : list Edge) (edge : Edge) :
  getEdges g from = Some edges → edge ∈ edges → to edge ∈ targets g.
Proof.
  intros Hget Hin. unfold targets. apply list_elem_of_bind.
  exists (from, edges). split; [|by apply elem_of_map_to_list].
  cbn. apply list_elem_of_fmap. by exists edge.
Qed.

(** A relaxation does not raise the measure: when it succeeds, the queue
    grows by one entry and the distance of the target falls by a rank. *)
Lemma relax_measure (g : Graph) (mode_ : RouteMode) (hour : Z) (d : float)
    (cur : Z) (st : Search) (edge : Edge) :
  to edge ∈ targets g →
  search_measure g (relax mode_ hour d cur st edge) ≤ search_measure g st.
Proof.
  intros Hto. unfold relax, search_measure.
  pose proof (subscript_fst 0%float (distances st) (to edge)) as Hfst.
  pose proof (subscript_default (distances st) (to edge)) as Hsnd.
  destruct (subscript 0%float (distances st) (to edge)) as [dt ds1].
  cbn [fst snd] in *.
  destruct (_ <? dt)%float eqn:Hlt; cbn [pq distances].
  - apply rank_lt in Hlt.
    assert (foldr Z.add 0
              (dist_rank (mkSearch (<[to edge:=(d + calculateEdgeWeight edge mode_ hour)%float]> ds1)
                            (<[to edge:=cur]> (previous st))
                            (((d + calculateEdgeWeight edge mode_ hour)%float, to edge) :: pq st))
                 <$> targets g) <
            foldr Z.add 0 (dist_rank st <$> targets g)); [|cbn [length]; lia].
    apply (foldr_add_lt _ _ _ (to edge)); [|done|].
    + intros k _. unfold dist_rank. cbn [distances].
      rewrite lookup_insert. case_decide as Hk.
      * subst k. cbn. rewrite <- Hfst. lia.
      * rewrite Hsnd. lia.
    + unfold dist_rank. cbn [distances]. rewrite lookup_insert_eq. cbn.
      rewrite <- Hfst. lia.
  - assert (foldr Z.add 0 (dist_rank (mkSearch ds1 (previous st) (pq st)) <$> targets g) ≤
            foldr Z.add 0 (dist_rank st <$> targets g)); [|lia].
    apply foldr_add_le. intros k _. unfold dist_rank. cbn [distances].
    rewrite Hsnd. lia.
Qed.

Lemma fold_relax_measure (g : Graph) (mode_ : RouteMode) (hour : Z) (d : float)
    (cur : Z) (todo : list Edge) (st : Search) :
  Forall (fun edge => to edge ∈ targets g) todo →
  search_measure g (fold_left (relax mode_ hour d cur) todo st) ≤ search_measure g st.
Proof.
  intros Htodo. revert st. induction Htodo as [|edge todo Hto _ IH]; intros st; [done|].
  cbn [fold_left]. etrans; [apply IH|]. by apply relax_measure.
Qed.

Lemma pq_top_pop_None (l : list PQElement) : pq_top_pop l = None → l = [].
Proof.
  destruct l as [|a l]; [done|]. cbn [pq_top_pop].
  destruct (pq_top_pop l) as [[y rest]|]; [|done]. by destruct (pair_lt y a).
Qed.

Lemma pq_top_pop_length (l l' : list PQElement) (x : PQElement) :
  pq_top_pop l = Some (x, l') → length l = S (length l').
Proof.
  revert l' x. induction l as [|a l IH]; intros l' x; [done|].
  cbn [pq_top_pop]. destruct (pq_top_pop l) as [[y rest]|] eqn:Hl.
  - specialize (IH rest y eq_refl).
    destruct (pair_lt y a); intros [= <- <-]; cbn [length]; lia.
  - apply pq_top_pop_None in Hl as ->. by intros [= <- <-].
Qed.

(** Each evaluation of the loop that goes on lowers the measure. *)
Lemma search_step_measure (g : Graph) (end_ : Z) (mode_ : RouteMode) (hour : Z)
    (st st' : Search) :
  search_step g end_ mode_ hour st = Running st' →
  search_measure g st' < search_measure g st.
Proof.
  unfold search_step.
  destruct (pq_top_pop (pq st)) as [[[d cur] pq1]|] eqn:Hpop; [|done].
  apply pq_top_pop_length in Hpop.
  destruct (cur =? end_); [done|].
  pose proof (subscript_default (distances st) cur) as Hsnd.
  destruct (subscript 0%float (distances st) cur) as [d' ds1]. cbn [snd] in Hsnd.
  assert (search_measure g (mkSearch ds1 (previous st) pq1) < search_measure g st)
    as Hst1.
  { unfold search_measure. cbn [pq].
    assert (foldr Z.add 0 (dist_rank (mkSearch ds1 (previous st) pq1) <$> targets g) ≤
            foldr Z.add 0 (dist_rank st <$> targets g)); [|lia].
    apply foldr_add_le. intros k _. unfold dist_rank. cbn [distances].
    rewrite Hsnd. lia. }
  destruct (d' <? d)%float; [by intros [= <-]|].
  destruct (getEdges g cur) as [edges|] eqn:Hedges; [|by intros [= <-]].
  intros [= <-].
  eapply Z.le_lt_trans; [|exact Hst1].
  apply fold_relax_measure. apply Forall_forall. intros edge Hin.
  by apply (targets_elem g cur edges).
Qed.

Lemma search_loop_enough_fuel (fuel : nat) (g : Graph) (end_ : Z)
    (mode_ : RouteMode) (hour : Z) (st : Search) :
  search_measure g st < Z.of_nat fuel →
  is_Some (search_loop fuel g end_ mode_ hour st).
Proof.
  revert st. induction fuel as [|fuel IH]; intros st Hfuel.
  { pose proof (search_measure_nonneg g st). lia. }
  cbn [search_loop].
  destruct (search_step g end_ mode_ hour st) as [st1|st1] eqn:Hstep; [|by eexists].
  apply IH. apply search_step_measure in Hstep. lia.
Qed.

(** X11: the frontier loop of a search comes to an end on every graph and
    for every start, end, mode and hour, negative costs included: a
    relaxation succeeds only by lowering a distance, and a double can be
    lowered only finitely often.  From some amount of fuel on the loop has
    always finished. *)
Theorem search_loop_terminates (g : Graph) (start end_ : Z) (mode_ : RouteMode)
    (hour : Z) :
  ∃ fuel0, ∀ fuel, (fuel0 ≤ fuel)%nat →
    is_Some (search_loop fuel g end_ mode_ hour (init_search g start)).
Proof.
  exists (S (Z.to_nat (search_measure g (init_search g start)))).
  intros fuel Hfuel. apply search_loop_enough_fuel.
  pose proof (search_measure_nonneg g (init_search g start)). lia.
Qed.

(** ** An end that cannot be reached *)

Section reach.
Variables (g : Graph) (start end_ : Z) (mode_ : RouteMode) (hour : Z).

Lemma relax_reach (d : float) (cur : Z) (edges : list Edge) (st : Search)
    (edge : Edge) :
  reachable g start cur → getEdges g cur = Some edges → edge ∈ edges →
  reach_inv g start st →
  reach_inv g start (relax mode_ hour d cur st edge).
Proof.
  intros Hcur Hget Hin [Hpq Hdist]. unfold relax.
  pose proof (subscript_keeps_infinity (distances st) (to edge)) as Hinf.
  destruct (subscript 0%float (distances st) (to edge)) as [dt ds1].
  cbn [snd] in Hinf.
  assert (reachable g start (to edge)) as Hto.
  { apply (reachable_step g start cur); [done|]. by exists edges, edge. }
  destruct (_ <? dt)%float; split; cbn [pq distances]; auto.
  - intros d' x [[= -> ->]|Hx]%elem_of_cons; [done|by apply (Hpq d')].
  - intros k Hk. destruct (decide (to edge = k)) as [<-|Hne]; [by right|].
    rewrite lookup_insert_ne by done. destruct (Hdist k Hk); auto.
  - intros k Hk. destruct (Hdist k Hk); auto.
Qed.

Lemma fold_relax_reach (d : float) (cur : Z) (edges todo : list Edge) (st : Search) :
  reachable g start cur → getEdges g cur = Some edges →
  Forall (fun edge => edge ∈ edges) todo →
  reach_inv g start st →
  reach_inv g start (fold_left (relax mode_ hour d cur) todo st).
Proof.
  intros Hcur Hget Htodo. revert st.
  induction Htodo as [|edge todo Hin _ IH]; intros st Hst; [done|].
  cbn [fold_left]. apply IH. by apply (relax_reach d cur edges).
Qed.

Lemma search_step_reach (st : Search) :
  reach_inv g start st →
  reach_inv g start (outcome_state (search_step g end_ mode_ hour st)).
Proof.
  intros Hst. pose proof Hst as [Hpq Hdist]. unfold search_step.
  destruct (pq_top_pop (pq st)) as [[[d cur] pq1]|] eqn:Hpop; [|done].
  apply pq_top_pop_elem in Hpop as [Htop Hrest].
  pose proof (Hpq d cur Htop) as Hcur.
  assert (∀ d0 x, (d0, x) ∈ pq1 → reachable g start x) as Hpq1.
  { intros d0 x Hx. by apply (Hpq d0), Hrest. }
  destruct (cur =? end_).
  { split; cbn [outcome_state pq distances]; auto. }
  pose proof (subscript_keeps_infinity (distances st) cur) as Hinf.
  destruct (subscript 0%float (distances st) cur) as [d' ds1]. cbn [snd] in Hinf.
  assert (reach_inv g start (mkSearch ds1 (previous st) pq1)) as Hst1.
  { split; cbn [pq distances]; auto.
    intros k Hk. destruct (Hdist k Hk); auto. }
  destruct (d' <? d)%float; [done|].
  destruct (getEdges g cur) as [edges|] eqn:Hedges; [|done].
  cbn [outcome_state]. apply (fold_relax_reach d cur edges); try done.
  by apply Forall_forall.
Qed.

Lemma init_search_reach : reach_inv g start (init_search g start).
Proof.
  split; cbn [init_search pq distances].
  - intros d x [[= -> ->]|[]%elem_of_nil]%elem_of_cons. constructor.
  - intros k [n Hk]. destruct (decide (start = k)) as [<-|Hne].
    + right. constructor.
    + left. rewrite lookup_insert_ne by done.
      by rewrite init_distances_lookup, Hk.
Qed.

Lemma search_loop_reach (fuel : nat) (st st' : Search) :
  reach_inv g start st →
  search_loop fuel g end_ mode_ hour st = Some st' →
  reach_inv g start st'.
Proof.
  revert st. induction fuel as [|fuel IH]; intros st Hst; [done|].
  cbn [search_loop]. pose proof (search_step_reach st Hst) as Hnext.
  destruct (search_step g end_ mode_ hour st) as [st1|st1].
  - by apply IH.
  - by intros [= <-].
Qed.

End reach.

(** X12: when the end is a node that cannot be reached from the start along
    stored edges, the search returns, given enough fuel, the empty path with
    zero distance and zero time, whatever the costs. *)
Theorem dijkstra_unreachable_end (g : Graph) (start end_ : Z) (mode_ : RouteMode)
    (hour : Z) :
  is_Some (nodes g !! end_) → ¬ reachable g start end_ →
  ∃ fuel0, ∀ fuel, (fuel0 ≤ fuel)%nat →
    dijkstra fuel g start end_ mode_ hour =
    Some (mkRouteResult [] 0 0 mode_ (mode_name_of mode_)).
Proof.
  intros Hend Hreach.
  destruct (search_loop_enough_fuel
              (S (Z.to_nat (search_measure g (init_search g start))))
              g end_ mode_ hour (init_search g start)) as [st0 _].
  { pose proof (search_measure_nonneg g (init_search g start)). lia. }
  exists (S (Z.to_nat (search_measure g (init_search g start)))).
  intros fuel Hfuel. unfold dijkstra.
  destruct (search_loop_enough_fuel fuel g end_ mode_ hour (init_search g start))
    as [st Hst].
  { pose proof (search_measure_nonneg g (init_search g start)). lia. }
  rewrite Hst.
  apply (search_loop_reach g start end_ mode_ hour) in Hst;
    [|apply init_search_reach].
  destruct Hst as [_ Hdist].
  destruct (Hdist end_ Hend) as [Hinf|?]; [|done].
  unfold subscript. by rewrite Hinf.
Qed.

Lemma dijkstra_unreachable_end_witness :
  ∃ fuel0, ∀ fuel, (fuel0 ≤ fuel)%nat →
    dijkstra fuel three_in_a_row 3 1 LEARNED 8 =
    Some (mkRouteResult [] 0 0 LEARNED (mode_name_of LEARNED)).
Proof.
  apply (dijkstra_unreachable_end three_in_a_row 3 1 LEARNED 8).
  - eexists. reflexivity.
  - intros H.
    assert (∀ x, reachable three_in_a_row 3 x → x = 3) as Honly.
    { induction 1 as [|b c _ -> (edges & edge & Hget & _)]; [done|].
      discriminate Hget. }
    by apply Honly in H.
Defined.


(** ** Addition of doubles that are not negative *)


Lemma digits2_pos_lower (m : positive) :
  2 ^ (Z.pos (digits2_pos m) - 1) ≤ Z.pos m.
Proof.
  induction m as [m IH|m IH|]; cbn [digits2_pos]; [| |done];
    rewrite Pos2Z.inj_succ;
    replace (Z.succ (Z.pos (digits2_pos m)) - 1)
      with (Z.succ (Z.pos (digits2_pos m) - 1)) by lia;
    rewrite Z.pow_succ_r by lia; lia.
Qed.

Lemma shr_1_m (mrs : shr_record) :
  0 ≤ shr_m mrs → shr_m (shr_1 mrs) = shr_m mrs / 2.
Proof.
  destruct mrs as [[|[p|p|]|p] r s]; cbn [shr_m shr_1]; intros Hm; try done.
  - rewrite Pos2Z.inj_xI. apply (Z.div_unique _ 2 _ 1); lia.
  - rewrite Pos2Z.inj_xO. apply (Z.div_unique _ 2 _ 0); lia.
Qed.

Lemma iter_shr_1_m (p : positive) (mrs : shr_record) :
  0 ≤ shr_m mrs →
  shr_m (SpecFloat.iter_pos shr_1 p mrs) = shr_m mrs / 2 ^ Z.pos p.
Proof.
  revert mrs. induction p as [p IH|p IH|]; intros mrs Hm; cbn [SpecFloat.iter_pos].
  - assert (0 ≤ shr_m (shr_1 mrs)) as H1.
    { rewrite shr_1_m by done. by apply Z.div_pos. }
    assert (0 ≤ shr_m (SpecFloat.iter_pos shr_1 p (shr_1 mrs))) as H2.
    { rewrite IH by done. apply Z.div_pos; [done|]. by apply Z.pow_pos_nonneg. }
    rewrite IH, IH, shr_1_m by done.
    rewrite !Z.div_div by (try apply Z.pow_pos_nonneg; lia).
    f_equal. rewrite Pos2Z.inj_xI, <- Z.pow_add_r, <- (Z.pow_1_r 2) at 1 by lia.
    rewrite <- Z.pow_add_r by lia. f_equal. lia.
  - assert (0 ≤ shr_m (SpecFloat.iter_pos shr_1 p mrs)) as H2.
    { rewrite IH by done. apply Z.div_pos; [done|]. by apply Z.pow_pos_nonneg. }
    rewrite IH, IH by done.
    rewrite !Z.div_div by (try apply Z.pow_pos_nonneg; lia).
    f_equal. rewrite Pos2Z.inj_xO, <- Z.pow_add_r by lia. f_equal. lia.
  - by rewrite shr_1_m.
Qed.

(** Shifting a non-negative mantissa right by [n] positions. *)
Lemma shr_m_e (mrs : shr_record) (e n : Z) :
  0 ≤ shr_m mrs →
  (shr mrs e n).2 = e + Z.max n 0 ∧
  shr_m (shr mrs e n).1 = shr_m mrs / 2 ^ Z.max n 0.
Proof.
  intros Hm. destruct n as [|p|p]; cbn [shr fst snd].
  - rewrite Z.add_0_r. cbn. by rewrite Z.div_1_r.
  - rewrite Z.max_l by lia. split; [done|]. by apply iter_shr_1_m.
  - rewrite Z.max_r by lia. rewrite Z.add_0_r. cbn. by rewrite Z.div_1_r.
Qed.

Lemma round_nearest_even_ge (m : Z) (l : location) : m ≤ round_nearest_even m l.
Proof. destruct l as [|[]]; cbn; try lia. destruct (Z.even m); lia. Qed.

Lemma shl_align_fst (mx : positive) (ex ez : Z) :
  ez ≤ ex → Z.pos (shl_align mx ex ez).1 = Z.pos mx * 2 ^ (ex - ez).
Proof.
  intros Hle. unfold shl_align.
  destruct (ez - ex) as [|d|d] eqn:Hd; cbn [fst]; try lia.
  - replace (ex - ez) with 0 by lia. lia.
  - replace (ex - ez) with (Z.pos d) by lia.
    clear. induction d as [|d IH] using Pos.peano_ind.
    + cbn. lia.
    + rewrite Pos.iter_succ, Pos2Z.inj_xO, IH, Pos2Z.inj_succ, Z.pow_succ_r by lia.
      lia.
Qed.

Lemma pow2_le_lt (a b : Z) : 0 ≤ a → 2 ^ a < 2 ^ b → a < b.
Proof.
  intros Ha H. destruct (Z.lt_ge_cases a b) as [|Hge]; [done|].
  destruct (Z.lt_ge_cases b 0) as [Hb|Hb].
  - rewrite (Z.pow_neg_r 2 b) in H by done.
    pose proof (Z.pow_pos_nonneg 2 a). lia.
  - pose proof (Z.pow_le_mono_r 2 b a). lia.
Qed.

Lemma div_pow2_pos (m k d : Z) :
  0 ≤ k → k ≤ d - 1 → 2 ^ (d - 1) ≤ m → 1 ≤ m / 2 ^ k.
Proof.
  intros Hk Hd Hm. apply Z.div_le_lower_bound; [by apply Z.pow_pos_nonneg|].
  pose proof (Z.pow_le_mono_r 2 k (d - 1)). lia.
Qed.

Lemma binary_round_rank_ge (M mx : positive) (ez ex : Z) :
  Z.pos mx < 2 ^ 53 → ex ≤ 971 →
  SpecFloat.fexp prec emax (Z.pos (digits2_pos mx) + ex) = ex →
  -1074 ≤ ez ≤ ex →
  Z.pos mx * 2 ^ (ex - ez) ≤ Z.pos M →
  (ex + 1075) * 2 ^ 53 + Z.pos mx ≤ sf_rank (binary_round prec emax false M ez).
Proof.
  intros Hmx Hex Hcanon Hez HM.
  pose proof (digits2_pos_bound M) as HMu.
  pose proof (digits2_pos_lower M) as HMl.
  pose proof (digits2_pos_lower mx) as Hmxl.
  set (D := Z.pos (digits2_pos M)) in *.
  set (dx := Z.pos (digits2_pos mx)) in *.
  assert (dx + ex ≤ D + ez) as Hdigits.
  { assert (2 ^ (dx - 1 + (ex - ez)) < 2 ^ D) as Hpow.
    { rewrite Z.pow_add_r by lia.
      pose proof (Z.pow_pos_nonneg 2 (ex - ez)). nia. }
    apply pow2_le_lt in Hpow; lia. }
  unfold SpecFloat.fexp, emin, prec, emax in Hcanon.
  set (F := SpecFloat.fexp prec emax (D + ez)).
  assert (F = Z.max (D + ez - 53) (-1074)) as HF by done.
  assert (ex ≤ F) as HexF by lia.
  unfold binary_round. fold D. fold F.
  assert (shl_align M ez F = (M, ez)) as ->.
  { unfold shl_align. destruct (F - ez) eqn:Hd; try done. lia. }
  unfold binary_round_aux, shr_fexp. cbn [Zdigits2]. fold D. fold F.
  destruct (shr_m_e (shr_record_of_loc (Z.pos M) loc_Exact) ez (F - ez))
    as [He1 Hm1]; [done|].
  destruct (shr _ ez (F - ez)) as [mrs1 e1]. cbn [fst snd shr_record_of_loc shr_m] in *.
  rewrite Z.max_l in He1, Hm1 by lia.
  assert (e1 = F) as -> by lia.
  assert (1 ≤ shr_m mrs1) as Hm1pos.
  { rewrite Hm1. apply (div_pow2_pos _ _ D); lia. }
  pose proof (round_nearest_even_ge (shr_m mrs1) (loc_of_shr_record mrs1)) as Hm2.
  set (m2 := round_nearest_even (shr_m mrs1) (loc_of_shr_record mrs1)) in *.
  destruct m2 as [|p2|p2] eqn:Hp2; try lia.
  cbn [Zdigits2].
  pose proof (digits2_pos_lower p2) as Hp2l.
  set (d2 := Z.pos (digits2_pos p2)) in *.
  set (F2 := SpecFloat.fexp prec emax (d2 + F)).
  assert (F2 = Z.max (d2 + F - 53) (-1074)) as HF2 by done.
  destruct (shr_m_e (shr_record_of_loc (Z.pos p2) loc_Exact) F (F2 - F))
    as [He2 Hm3]; [done|].
  destruct (shr _ F (F2 - F)) as [mrs2 e2]. cbn [fst snd shr_record_of_loc shr_m] in *.
  assert (1 ≤ shr_m mrs2) as Hm3pos.
  { rewrite Hm3. apply (div_pow2_pos _ _ d2); lia. }
  destruct (shr_m mrs2) as [|m3|m3] eqn:Hm3'; try lia.
  assert (F ≤ e2) as HFe2 by lia.
  change (2 ^ 53) with 9007199254740992 in *.
  destruct (e2 <=? emax - prec) eqn:Hover; cbn [sf_rank].
  - change (2 ^ 53) with 9007199254740992.
    destruct (decide (ex < e2)) as [|Heq]; [nia|].
    assert (e2 = ex) as -> by lia. assert (F = ex) as HFex by lia.
    assert (F2 - F ≤ 0) as Hn2 by lia.
    rewrite Z.max_r in Hm3 by lia. change (2 ^ 0) with 1 in Hm3.
    rewrite Z.div_1_r in Hm3.
    assert (Z.pos mx ≤ shr_m mrs1) as Hge.
    { rewrite Hm1, HFex. apply Z.div_le_lower_bound; [|lia].
      apply Z.pow_pos_nonneg; lia. }
    lia.
  - unfold rank_top. change (2 ^ 53) with 9007199254740992. nia.
Qed.

Lemma sf_rank_not_negative (y : spec_float) :
  valid_binary y = true → SFltb y (S754_zero false) = false → y ≠ S754_nan →
  0 ≤ sf_rank y.
Proof.
  destruct y as [s|[]| |[] m e]; cbn [sf_rank]; unfold rank_top; try done; try lia.
  intros Hy _ _. unfold valid_binary in Hy. cbn [SpecFloat.valid_binary] in Hy.
  unfold bounded, canonical_mantissa in Hy.
  apply andb_prop in Hy as [Hc _]. apply Z.eqb_eq in Hc.
  unfold SpecFloat.fexp, emin, prec, emax in Hc.
  change (2 ^ 53) with 9007199254740992. lia.
Qed.

Lemma SFadd_rank_mono (x y : spec_float) :
  valid_binary x = true → valid_binary y = true →
  SFltb x (S754_zero false) = false → SFltb y (S754_zero false) = false →
  SFadd prec emax x y ≠ S754_nan →
  sf_rank x ≤ sf_rank (SFadd prec emax x y).
Proof.
  intros Hx Hy Hx0 Hy0 Hnan.
  destruct x as [sx|[]| |[] mx ex]; try done.
  - (* zero *)
    destruct y as [sy|[]| |[] my ey]; try done.
    + cbn [SFadd sf_rank]. by destruct sx, sy.
    + cbn [SFadd]. by apply (sf_rank_not_negative (S754_finite false my ey)).
  - (* plus infinity *)
    by destruct y as [sy|[]| |[] my ey].
  - (* a positive number *)
    destruct y as [sy|[]| |[] my ey]; try done.
    + cbn [SFadd]. unfold valid_binary in Hx. cbn [SpecFloat.valid_binary] in Hx.
      apply andb_prop in Hx as [Hc Hb]. apply Z.leb_le in Hb.
      unfold canonical_mantissa in Hc. apply Z.eqb_eq in Hc.
      pose proof (digits2_pos_bound mx) as Hmx.
      unfold SpecFloat.fexp, emin, prec, emax in *.
      assert (Z.pos (digits2_pos mx) ≤ 53) as Hd by lia.
      pose proof (Z.pow_le_mono_r 2 _ _ ltac:(lia) Hd).
      cbn [sf_rank]. unfold rank_top. change (2 ^ 53) with 9007199254740992 in *. nia.
    + unfold valid_binary in Hx, Hy. cbn [SpecFloat.valid_binary] in Hx, Hy.
      apply andb_prop in Hx as [Hcx Hbx]. apply Z.leb_le in Hbx.
      apply andb_prop in Hy as [Hcy Hby]. apply Z.leb_le in Hby.
      unfold canonical_mantissa in Hcx, Hcy.
      apply Z.eqb_eq in Hcx. apply Z.eqb_eq in Hcy.
      assert (-1074 ≤ ex ∧ -1074 ≤ ey) as [Hex Hey].
      { unfold SpecFloat.fexp, emin, prec, emax in *. lia. }
      assert (Z.pos mx < 2 ^ 53) as Hmx.
      { pose proof (digits2_pos_bound mx) as Hmx.
        unfold SpecFloat.fexp, emin, prec, emax in *.
        assert (Z.pos (digits2_pos mx) ≤ 53) as Hd by lia.
        pose proof (Z.pow_le_mono_r 2 _ _ ltac:(lia) Hd). lia. }
      unfold SFadd. cbn [cond_Zopp]. 
      pose proof (shl_align_fst mx ex (Z.min ex ey) ltac:(lia)) as Hsx.
      change (Z.pos ?a + Z.pos ?b) with (Z.pos (a + b)).
      cbn [binary_normalize sf_rank].
      apply binary_round_rank_ge; try done; try (unfold emax, prec in *; lia).
Qed.

Lemma add_rank_mono (d w z : float) :
  not_negative d → not_negative w → (d + w <? z)%float = true →
  rank d ≤ rank (d + w).
Proof.
  unfold not_negative, rank. rewrite !ltb_spec, add_spec.
  intros Hd Hw Hlt. apply SFadd_rank_mono; try apply Prim2SF_valid; try done.
  intros Hnan. unfold SF64add in Hlt. rewrite Hnan in Hlt. done.
Qed.

(** ** Order of the predecessor links *)

Lemma search_loop_more_fuel (fuel fuel' : nat) (g : Graph) (end_ : Z)
    (mode_ : RouteMode) (hour : Z) (st st' : Search) :
  search_loop fuel g end_ mode_ hour st = Some st' → (fuel ≤ fuel')%nat →
  search_loop fuel' g end_ mode_ hour st = Some st'.
Proof.
  revert fuel' st. induction fuel as [|fuel IH]; intros fuel' st; [done|].
  destruct fuel' as [|fuel']; [lia|]. cbn [search_loop].
  destruct (search_step g end_ mode_ hour st); [|done].
  intros H ?. apply IH; [done|lia].
Qed.

Lemma subscript_keeps (ds : gmap Z float) (k j : Z) (v : float) :
  ds !! j = Some v → (subscript 0%float ds k).2 !! j = Some v.
Proof.
  intros Hj. rewrite subscript_snd_lookup. case_decide as Hk; [|done].
  subst. by rewrite Hj.
Qed.

Lemma walk_measure_nonneg (st : Search) (stamp : Z → Z) (n x : Z) :
  (∀ y, 0 ≤ stamp y < n) → 0 ≤ walk_measure st stamp n x.
Proof.
  intros Hstamp. unfold walk_measure.
  pose proof (rank_bound (default 0%float (distances st !! x))).
  pose proof (Hstamp x). nia.
Qed.

Section path_order.
Variables (g : Graph) (start end_ : Z) (mode_ : RouteMode) (hour : Z).
Hypothesis costs : costs_not_negative g mode_ hour.

Lemma relax_order (d : float) (cur : Z) (st : Search) (edge : Edge)
    (stamp : Z → Z) (n : Z) :
  not_negative d →
  not_negative (calculateEdgeWeight edge mode_ hour) →
  (∃ dc, distances st !! cur = Some dc ∧ rank dc ≤ rank d) →
  order_inv g start st stamp n →
  ∃ stamp' n',
    order_inv g start (relax mode_ hour d cur st edge) stamp' n' ∧
    ∃ dc, distances (relax mode_ hour d cur st edge) !! cur = Some dc ∧
          rank dc ≤ rank d.
Proof.
  intros Hd Hw (dc & Hdc & Hrdc) [Hstamp Hpq Hprev Hreached]. unfold relax.
  pose proof (subscript_fst 0%float (distances st) (to edge)) as Hfst.
  pose proof (subscript_keeps (distances st) (to edge)) as Hkeep.
  destruct (subscript 0%float (distances st) (to edge)) as [dt ds1].
  cbn [fst snd] in *.
  destruct (d + calculateEdgeWeight edge mode_ hour <? dt)%float eqn:Hlt.
  2:{ exists stamp, n. split; [|by exists dc; auto].
      split; cbn [pq previous distances]; auto.
      - intros d' x Hx. destruct (Hpq d' x Hx) as (dx & Hdx & ?). eauto.
      - intros x u Hxu.
        destruct (Hprev x u Hxu) as (dx & du & Hdx & Hdu & ?). exists dx, du. auto.
      - intros x Hx Hne. destruct (Hreached x Hx Hne); auto. }
  pose proof (rank_lt _ _ Hlt) as Hnew_lt.
  pose proof (add_rank_mono _ _ _ Hd Hw Hlt) as Hnew_ge.
  pose proof (rank_bound dt) as Hdt.
  set (new := (d + calculateEdgeWeight edge mode_ hour)%float) in *.
  assert (cur ≠ to edge) as Hcur.
  { intros ->. rewrite Hdc in Hfst. cbn in Hfst. subst dt. lia. }
  exists (fun x => if decide (x = to edge) then n else stamp x), (n + 1).
  split; [|exists dc; cbn [distances]; rewrite lookup_insert_ne by done; auto].
  split; cbn [pq previous distances].
  - intros x. pose proof (Hstamp x). case_decide; lia.
  - intros d' x [[= -> ->]|Hx]%elem_of_cons.
    { exists new. by rewrite lookup_insert_eq. }
    destruct (Hpq d' x Hx) as (dx & Hdx & Hle).
    destruct (decide (x = to edge)) as [->|Hne].
    + exists new. rewrite lookup_insert_eq. split; [done|].
      rewrite Hdx in Hfst. cbn in Hfst. subst dt. lia.
    + exists dx. rewrite lookup_insert_ne by done. auto.
  - intros x u. rewrite lookup_insert. case_decide as Hx.
    + intros [= <-]. subst x. exists new, dc.
      rewrite lookup_insert_eq, lookup_insert_ne by done.
      split_and!; [done|auto|lia|].
      rewrite decide_False, decide_True by done. pose proof (Hstamp cur). lia.
    + intros Hxu. destruct (Hprev x u Hxu) as (dx & du & Hdx & Hdu & Htop & Hord).
      rewrite lookup_insert_ne by done.
      destruct (decide (u = to edge)) as [->|Hu].
      * exists dx, new. rewrite lookup_insert_eq.
        rewrite Hdu in Hfst. cbn in Hfst. subst dt.
        split_and!; [auto|done|done|lia].
      * exists dx, du. rewrite lookup_insert_ne by done.
        rewrite !decide_False by done. auto.
  - intros x Hx Hne. rewrite !lookup_insert. case_decide; [right; by eexists|].
    destruct (Hreached x Hx Hne); auto.
Qed.

Lemma fold_relax_order (d : float) (cur : Z) (edges : list Edge) (st : Search)
    (stamp : Z → Z) (n : Z) :
  not_negative d →
  Forall (fun edge => not_negative (calculateEdgeWeight edge mode_ hour)) edges →
  (∃ dc, distances st !! cur = Some dc ∧ rank dc ≤ rank d) →
  order_inv g start st stamp n →
  ∃ stamp' n',
    order_inv g start (fold_left (relax mode_ hour d cur) edges st) stamp' n'.
Proof.
  intros Hd Hedges. revert st stamp n.
  induction Hedges as [|edge edges Hw _ IH]; intros st stamp n Hcur Hst.
  { by exists stamp, n. }
  cbn [fold_left].
  destruct (relax_order d cur st edge stamp n Hd Hw Hcur Hst)
    as (stamp1 & n1 & Hst1 & Hcur1).
  by apply (IH _ stamp1 n1).
Qed.

Lemma search_step_order (st : Search) (stamp : Z → Z) (n : Z) :
  search_inv g start st → order_inv g start st stamp n →
  ∃ stamp' n',
    order_inv g start (outcome_state (search_step g end_ mode_ hour st)) stamp' n'.
Proof.
  intros [Hinv _ _] Hst. pose proof Hst as [Hstamp Hpq Hprev Hreached].
  unfold search_step.
  destruct (pq_top_pop (pq st)) as [[[d cur] pq1]|] eqn:Hpop; [|by exists stamp, n].
  apply pq_top_pop_elem in Hpop as [Htop Hrest].
  destruct (Hinv d cur Htop) as [Hd _].
  destruct (Hpq d cur Htop) as (dc & Hdc & Hrdc).
  assert (∀ d0 x, (d0, x) ∈ pq1 → (d0, x) ∈ pq st) as Hsub.
  { intros d0 x Hx. by apply Hrest. }
  destruct (cur =? end_).
  { exists stamp, n. split; cbn [outcome_state pq previous distances]; auto. }
  pose proof (subscript_keeps (distances st) cur) as Hkeep.
  destruct (subscript 0%float (distances st) cur) as [d' ds1]. cbn [snd] in Hkeep.
  assert (order_inv g start (mkSearch ds1 (previous st) pq1) stamp n) as Hst1.
  { split; cbn [pq previous distances]; auto.
    - intros d0 x Hx. destruct (Hpq d0 x (Hsub d0 x Hx)) as (dx & Hdx & ?). eauto.
    - intros x u Hxu.
      destruct (Hprev x u Hxu) as (dx & du & Hdx & Hdu & ?). exists dx, du. auto.
    - intros x Hx Hne. destruct (Hreached x Hx Hne); auto. }
  destruct (d' <? d)%float; [by exists stamp, n|].
  destruct (getEdges g cur) as [edges|] eqn:Hedges; [|by exists stamp, n].
  cbn [outcome_state]. apply (fold_relax_order d cur edges _ stamp n); try done.
  - apply (costs cur edges Hedges).
  - exists dc. cbn [distances]. auto.
Qed.

Lemma init_search_order :
  order_inv g start (init_search g start) (fun _ => 0) 1.
Proof.
  split; cbn [init_search pq previous distances].
  - intros _. lia.
  - intros d x [[= -> ->]|[]%elem_of_nil]%elem_of_cons.
    exists 0%float. by rewrite lookup_insert_eq.
  - intros x u. by rewrite lookup_empty.
  - intros x [node Hx] Hne. left. rewrite lookup_insert_ne by done.
    by rewrite init_distances_lookup, Hx.
Qed.

Lemma search_loop_order (fuel : nat) (st st' : Search) (stamp : Z → Z) (n : Z) :
  search_inv g start st → order_inv g start st stamp n →
  search_loop fuel g end_ mode_ hour st = Some st' →
  search_inv g start st' ∧ ∃ stamp' n', order_inv g start st' stamp' n'.
Proof.
  revert st stamp n. induction fuel as [|fuel IH]; intros st stamp n Hinv Hst; [done|].
  cbn [search_loop].
  pose proof (search_step_inv g start end_ mode_ hour costs st Hinv) as Hinv1.
  destruct (search_step_order st stamp n Hinv Hst) as (stamp1 & n1 & Hst1).
  destruct (search_step g end_ mode_ hour st) as [st1|st1]; cbn [outcome_state] in *.
  - by apply (IH st1 stamp1 n1).
  - intros [= <-]. eauto.
Qed.

Lemma walk_back_enough_fuel (st : Search) (stamp : Z → Z) (n : Z) (fuel : nat)
    (cur : Z) (acc : list Z) :
  search_inv g start st → order_inv g start st stamp n →
  cur = start ∨ is_Some (previous st !! cur) →
  walk_measure st stamp n cur < Z.of_nat fuel →
  is_Some (walk_back fuel start (previous st) cur acc).
Proof.
  intros [_ Hinv _] [Hstamp _ Hprev Hreached].
  revert cur acc. induction fuel as [|fuel IH]; intros cur acc Hcur Hfuel.
  { pose proof (walk_measure_nonneg st stamp n cur Hstamp). lia. }
  cbn [walk_back]. destruct (Z.eqb_spec cur start) as [->|Hne]; [by eexists|].
  destruct Hcur as [?|[u Hu]]; [done|].
  unfold subscript. rewrite Hu.
  destruct (Hprev cur u Hu) as (dx & du & Hdx & Hdu & Htop & Hord).
  destruct (Hinv cur u Hu) as [_ Hnode].
  apply IH.
  - destruct (decide (u = start)) as [|Hus]; [by left|right].
    destruct Hnode as [Hnode|?]; [|done].
    destruct (Hreached u Hnode Hus) as [Hinf|?]; [|done].
    rewrite Hdu in Hinf. injection Hinf as ->.
    change (rank infinity) with rank_top in Hord. lia.
  - unfold walk_measure in *. rewrite Hdx in Hfuel. rewrite Hdu. cbn [default] in *.
    pose proof (Hstamp cur). pose proof (Hstamp u).
    change (Datatypes.id ?x) with x in *.
    destruct Hord as [Hlt|[Heq ?]]; [|rewrite Heq; lia].
    assert ((rank du + rank_top + 1) * n ≤ (rank dx + rank_top) * n)
      by (apply Z.mul_le_mono_nonneg_r; lia).
    lia.
Qed.

End path_order.

Lemma walk_back_more_fuel (fuel fuel' : nat) (start : Z) (prev : gmap Z Z)
    (cur : Z) (acc p : list Z) :
  walk_back fuel start prev cur acc = Some p → (fuel ≤ fuel')%nat →
  walk_back fuel' start prev cur acc = Some p.
Proof.
  revert fuel' prev cur acc. induction fuel as [|fuel IH]; intros fuel' prev cur acc;
    [done|].
  destruct fuel' as [|fuel']; [lia|]. cbn [walk_back].
  destruct (cur =? start); [done|].
  destruct (subscript 0 prev cur) as [u prev1].
  intros H ?. apply IH; [done|lia].
Qed.

(** Over costs that are not negative a search for a node returns: from some
    amount of fuel on, [dijkstra] gives one and the same result. *)
Lemma dijkstra_enough_fuel (g : Graph) (start end_ : Z) (mode_ : RouteMode)
    (hour : Z) :
  costs_not_negative g mode_ hour → is_Some (nodes g !! end_) →
  ∃ fuel0 r, ∀ fuel, (fuel0 ≤ fuel)%nat →
    dijkstra fuel g start end_ mode_ hour = Some r.
Proof.
  intros Hcosts Hend.
  set (fuel1 := S (Z.to_nat (search_measure g (init_search g start)))).
  destruct (search_loop_enough_fuel fuel1 g end_ mode_ hour (init_search g start))
    as [st Hst].
  { pose proof (search_measure_nonneg g (init_search g start)). lia. }
  destruct (search_loop_order g start end_ mode_ hour Hcosts fuel1 _ st _ _
              (init_search_inv g start) (init_search_order g start) Hst)
    as (Hinv & stamp & n & Hord).
  pose proof (subscript_fst 0%float (distances st) end_) as Hd.
  destruct (subscript 0%float (distances st) end_) as [d ds1] eqn:Hsub.
  cbn [fst] in Hd.
  destruct (d =? infinity)%float eqn:Hinf.
  { exists fuel1, (mkRouteResult [] 0 0 mode_ (mode_name_of mode_)).
    intros fuel Hfuel. unfold dijkstra.
    rewrite (search_loop_more_fuel _ _ _ _ _ _ _ _ Hst Hfuel), Hsub, Hinf. done. }
  set (fuel2 := S (Z.to_nat (walk_measure st stamp n end_))).
  destruct (walk_back_enough_fuel g start st stamp n fuel2 end_ [] Hinv Hord)
    as [p Hp].
  { destruct (decide (end_ = start)) as [|Hne]; [by left|right].
    destruct (ord_reached _ _ _ _ _ Hord end_ Hend Hne) as [Hend_inf|?]; [|done].
    rewrite Hend_inf in Hd. cbn in Hd. subst d. done. }
  { pose proof (walk_measure_nonneg st stamp n end_ (ord_stamp _ _ _ _ _ Hord)). lia. }
  destruct (route_metrics g hour (rev (p ++ [start]))) as [td et] eqn:Hmetrics.
  exists (fuel1 `max` fuel2)%nat,
    (mkRouteResult (rev (p ++ [start])) td et mode_ (mode_name_of mode_)).
  intros fuel Hfuel. unfold dijkstra.
  rewrite (search_loop_more_fuel _ fuel _ _ _ _ _ _ Hst) by lia.
  rewrite Hsub, Hinf.
  rewrite (walk_back_more_fuel _ fuel _ _ _ _ _ Hp) by lia.
  by rewrite Hmetrics.
Qed.

(** X25: over costs that are not negative a search for a node of the graph
    returns: from some amount of fuel on, [dijkstra] gives one and the same
    result, whatever the start.  Both loops end: the queue loop because
    distances only fall, the walk along the predecessors because a
    predecessor has a lower distance than its successor, or the same
    distance and an older relaxation. *)
Theorem dijkstra_terminates (g : Graph) (start end_ : Z) (mode_ : RouteMode)
    (hour : Z) :
  costs_not_negative g mode_ hour → is_Some (nodes g !! end_) →
  ∃ fuel0 r, ∀ fuel, (fuel0 ≤ fuel)%nat →
    dijkstra fuel g start end_ mode_ hour = Some r.
Proof. apply dijkstra_enough_fuel. Qed.

Lemma dijkstra_terminates_witness :
  ∃ fuel0 r, ∀ fuel, (fuel0 ≤ fuel)%nat →
    dijkstra fuel (dangling 5) 1 3 DISTANCE 12 = Some r.
Proof.
  apply (dijkstra_terminates (dangling 5) 1 3 DISTANCE 12).
  - apply map_Forall_to_list. vm_compute. repeat constructor.
  - eexists. reflexivity.
Defined.
(** ** Costs of stored edges *)

(** X13: in a graph built by [addNode], [addEdge] and annotation passes in
    which no [addEdge] was given a negative distance, no stored edge has a
    negative cost, in any mode and at any hour. *)
Theorem stored_costs_not_negative (ops : list GraphOp) (mode_ : RouteMode)
    (hour from : Z) (edges : list Edge) (edge : Edge) :
  distances_not_negative ops →
  getEdges (run_ops ops) from = Some edges → edge ∈ edges →
  (calculateEdgeWeight edge mode_ hour <? 0)%float = false.
Proof.
  intros Hops Hget Hin.
  pose proof (run_ops_costs_not_negative ops mode_ hour Hops from edges Hget) as Hall.
  by apply (proj1 (Forall_forall _ _) Hall).
Qed.

Lemma stored_costs_not_negative_witness :
  (calculateEdgeWeight (mkEdge 2 120 40 "residential" 1) LEARNED 17 <? 0)%float
  = false.
Proof.
  apply (stored_costs_not_negative [OpAddNode 1 0 0; OpAddEdge 1 2 120 "residential"]
           LEARNED 17 1 [mkEdge 2 120 40 "residential" 1]).
  - repeat constructor.
  - vm_compute. reflexivity.
  - apply list_elem_of_here.
Defined.

(** ** The route comparison *)

Lemma opp_negative_sign_clear (x : float) :
  (x <? 0)%float = true → sign_clear (- x).
Proof.
  unfold sign_clear. rewrite ltb_spec, opp_spec.
  by destruct (Prim2SF x) as [[]|[]| |[] m e].
Qed.

Lemma binary_round_aux_negative (m e : Z) (l : SpecFloat.location) :
  SFltb (S754_zero false) (binary_round_aux prec emax true m e l) = false.
Proof.
  unfold binary_round_aux.
  destruct (shr_fexp prec emax m e l) as [mrs' e'].
  destruct (shr_fexp prec emax _ e' loc_Exact) as [mrs'' e''].
  destruct (shr_m mrs''); [done| |done].
  by destruct (e'' <=? emax - prec).
Qed.

Lemma SFdiv_not_positive (x y : spec_float) :
  SFltb (S754_zero false) x = false → SFltb (S754_zero false) y = true →
  SFltb (S754_zero false) (SFdiv prec emax x y) = false.
Proof.
  destruct x as [[]|[]| |[] mx ex], y as [[]|[]| |[] my ey]; try done.
  intros _ _. unfold SFdiv.
  destruct (SFdiv_core_binary prec emax (Z.pos mx) ex (Z.pos my) ey) as [[mz ez] lz].
  apply binary_round_aux_negative.
Qed.

Lemma div_not_positive (x y : float) :
  (0 <? x)%float = false → (0 <? y)%float = true → (0 <? x / y)%float = false.
Proof. rewrite !ltb_spec, div_spec. apply SFdiv_not_positive. Qed.

Lemma route_box_signs (baseline : option RouteResult) (route : RouteResult)
    (box : RouteBox) (v : TimeVerdict * DistanceVerdict) :
  route_box baseline route = Some box → box_versus box = Some v →
  verdict_signs v.
Proof.
  unfold route_box. case_match; [done|]. intros [= <-]. cbn [box_versus].
  destruct baseline as [baseline|]; [|done]. case_match; [|done].
  intros [= <-]. split; cbn [fst snd].
  - destruct (_ <? 0)%float eqn:Htime.
    + apply sign_clear_not_negative, div_sign_clear; [|reflexivity].
      by apply opp_negative_sign_clear.
    + apply div_not_negative; [done|reflexivity].
  - destruct (0 <? _)%float eqn:Hdist.
    + apply sign_clear_not_negative, div_sign_clear; [|reflexivity].
      by apply positive_sign_clear.
    + by apply div_not_positive.
Qed.

(** X14: in every comparison line that [printRouteComparison] prints, the
    minutes after [FASTER] and [slower] and the km after [longer] are not
    below zero, and the km before [shorter] are not above zero: a shorter
    route is reported with a number that is negative or zero. *)
Theorem printRouteComparison_signs (routes : list RouteResult)
    (boxes : list RouteBox) (ins : Insights) (box : RouteBox)
    (v : TimeVerdict * DistanceVerdict) :
  printRouteComparison routes = Some (boxes, ins) →
  box ∈ boxes → box_versus box = Some v →
  verdict_signs v.
Proof.
  unfold printRouteComparison.
  destruct (mapM _ routes) as [boxes'|] eqn:Hboxes; [|done].
  intros [= <- _] Hin Hv.
  apply mapM_Some_1 in Hboxes.
  apply list_elem_of_lookup in Hin as [i Hi].
  destruct (Forall2_lookup_r _ _ _ _ _ Hboxes Hi) as (route & _ & Hbox).
  by apply (route_box_signs (baseline_of routes) route box).
Qed.

Lemma dijkstra_mode (fuel : nat) (g : Graph) (start end_ : Z) (mode_ : RouteMode)
    (hour : Z) (r : RouteResult) :
  dijkstra fuel g start end_ mode_ hour = Some r →
  mode r = mode_ ∧ mode_name r = mode_name_of mode_.
Proof. unfold dijkstra. intros H. repeat case_match; simplify_eq; done. Qed.

Lemma custom_routes_three (fuel : nat) (g : Graph) (start end_ hour : Z)
    (routes : list RouteResult) :
  custom_routes fuel g start end_ hour = Some routes →
  ∃ r1 r2 r3, routes = [r1; r2; r3] ∧
    dijkstra fuel g start end_ DISTANCE hour = Some r1 ∧
    dijkstra fuel g start end_ SPEED_LIMIT hour = Some r2 ∧
    dijkstra fuel g start end_ LEARNED hour = Some r3.
Proof.
  unfold custom_routes.
  destruct (dijkstra fuel _ start end_ DISTANCE hour) as [r1|]; [|done].
  destruct (dijkstra fuel _ start end_ SPEED_LIMIT hour) as [r2|]; [|done].
  destruct (dijkstra fuel _ start end_ LEARNED hour) as [r3|]; [|done].
  cbn [mbind option_bind]. intros [= <-]. by exists r1, r2, r3.
Qed.

(** The comparison of the three routes of a round. *)
Lemma custom_routes_comparison (fuel : nat) (g : Graph)
    (start end_ hour : Z) (routes : list RouteResult) :
  custom_routes fuel g start end_ hour = Some routes →
  ∃ b1 b2 b3 ins,
    printRouteComparison routes = Some ([b1; b2; b3], ins) ∧
    baseline_of routes = routes !! 1%nat ∧
    box_dashes <$> [b1; b2; b3] = [37; 21; 23] ∧
    is_Some (box_versus b1) ∧ box_versus b2 = None ∧ is_Some (box_versus b3) ∧
    is_Some (distance_slower ins).
Proof.
  intros (r1 & r2 & r3 & -> & H1 & H2 & H3)%custom_routes_three.
  apply dijkstra_mode in H1 as [Hm1 Hn1], H2 as [Hm2 Hn2], H3 as [Hm3 Hn3].
  unfold printRouteComparison, insights_of, baseline_of, last_of_mode, route_box.
  cbn [List.find List.filter mapM].
  rewrite Hm1, Hm2, Hm3, Hn1, Hn2, Hn3. cbn.
  do 4 eexists. split; [reflexivity|]. cbn. split_and!; eauto.
Qed.

(** X15: for the three routes of a round, [printRouteComparison] prints three
    boxes, the titles filled up with 37, 21 and 23 dashes; the baseline is
    the second route, the first and the third box carry a comparison line
    and the second carries none, and the distance insight is printed
    whatever the sign of the difference. *)
Theorem printRouteComparison_custom_routes (fuel : nat) (g : Graph)
    (start end_ hour : Z) (routes : list RouteResult) :
  custom_routes fuel g start end_ hour = Some routes →
  ∃ b1 b2 b3 ins,
    printRouteComparison routes = Some ([b1; b2; b3], ins) ∧
    baseline_of routes = routes !! 1%nat ∧
    box_dashes <$> [b1; b2; b3] = [37; 21; 23] ∧
    is_Some (box_versus b1) ∧ box_versus b2 = None ∧ is_Some (box_versus b3) ∧
    is_Some (distance_slower ins).
Proof. apply custom_routes_comparison. Qed.

Lemma printRouteComparison_signs_witness :
  ∃ boxes ins box v,
    printRouteComparison
      [mkRouteResult [1; 2] 1000 90 DISTANCE "Pure Distance";
       mkRouteResult [1; 3; 2] 1500 60 SPEED_LIMIT "Speed Limit (Traditional GPS)"]
    = Some (boxes, ins) ∧
    box ∈ boxes ∧ box_versus box = Some v ∧ verdict_signs v.
Proof.
  eexists _, _, _, _. split_and!.
  - vm_compute. reflexivity.
  - apply list_elem_of_here.
  - reflexivity.
  - eapply (printRouteComparison_signs
              [mkRouteResult [1; 2] 1000 90 DISTANCE "Pure Distance";
               mkRouteResult [1; 3; 2] 1500 60 SPEED_LIMIT
                 "Speed Limit (Traditional GPS)"]).
    + vm_compute. reflexivity.
    + apply list_elem_of_here.
    + reflexivity.
Defined.

Lemma printRouteComparison_custom_routes_witness :
  ∃ routes,
    custom_routes 8 three_in_a_row 1 3 17 = Some routes ∧
    ∃ b1 b2 b3 ins,
      printRouteComparison routes = Some ([b1; b2; b3], ins) ∧
      baseline_of routes = routes !! 1%nat ∧
      box_dashes <$> [b1; b2; b3] = [37; 21; 23] ∧
      is_Some (box_versus b1) ∧ box_versus b2 = None ∧ is_Some (box_versus b3) ∧
      is_Some (distance_slower ins).
Proof.
  eexists.
  refine ((fun H => conj H
             (printRouteComparison_custom_routes 8 three_in_a_row 1 3 17 _ H)) _).
  vm_compute. reflexivity.
Defined.

(** ** Route export *)

Lemma export_waypoints_nodes (g : Graph) (route : RouteResult) :
  Forall (fun x => is_Some (nodes g !! x)) (path route) →
  ∃ waypoints, export_waypoints g route = Some waypoints ∧
               wp_id <$> waypoints = path route.
Proof.
  unfold export_waypoints. induction 1 as [|x l [node Hx] _ (ws & Hws & Hids)].
  - by exists [].
  - exists (mkWaypoint x (lat node) (lon node) :: ws).
    assert (export_waypoint g x = Some (mkWaypoint x (lat node) (lon node)))
      as Hwx by (unfold export_waypoint, getNode; by rewrite Hx).
    cbn [mapM]. rewrite Hwx, Hws. cbn. by rewrite Hids.
Qed.

Lemma dijkstra_path_nodes (fuel : nat) (g : Graph) (start end_ : Z)
    (mode_ : RouteMode) (hour : Z) (r : RouteResult) :
  costs_not_negative g mode_ hour →
  is_Some (nodes g !! start) → is_Some (nodes g !! end_) →
  dijkstra fuel g start end_ mode_ hour = Some r →
  Forall (fun x => is_Some (nodes g !! x)) (path r).
Proof.
  intros Hcosts Hstart Hend Hr.
  destruct (dijkstra_path_shape fuel g start end_ mode_ hour r Hcosts Hr)
    as [->|[[_ ->]|(mid & -> & Hmid)]].
  - constructor.
  - by repeat constructor.
  - constructor; [done|]. apply Forall_app. split; [done|]. by repeat constructor.
Qed.

Lemma export_route_nodes (g : Graph) (route : RouteResult) :
  Forall (fun x => is_Some (nodes g !! x)) (path route) →
  ∃ js, export_route g route = Some js ∧
        json_color js = route_color (mode route) ∧
        wp_id <$> json_waypoints js = path route.
Proof.
  intros (ws & Hws & Hids)%export_waypoints_nodes.
  unfold export_route. rewrite Hws. cbn [mbind option_bind]. by eexists.
Qed.

(** The three routes of a round between two nodes, over costs that are not
    negative, are compared and exported without undefined behaviour. *)
Lemma custom_routes_export (fuel : nat) (is_open : bool) (g : Graph)
    (start end_ hour : Z) (routes : list RouteResult) :
  (∀ mode_, costs_not_negative g mode_ hour) →
  is_Some (nodes g !! start) → is_Some (nodes g !! end_) →
  custom_routes fuel g start end_ hour = Some routes →
  ∃ export,
    compare_and_export is_open g routes = Some (Some export) ∧
    mode <$> routes = [DISTANCE; SPEED_LIMIT; LEARNED] ∧
    export_of is_open routes export.
Proof.
  intros Hcosts Hstart Hend Hroutes. unfold compare_and_export.
  destruct (custom_routes_comparison _ _ _ _ _ _ Hroutes)
    as (b1 & b2 & b3 & ins & -> & _).
  cbn [mbind option_bind].
  apply custom_routes_three in Hroutes as (r1 & r2 & r3 & -> & H1 & H2 & H3).
  destruct (export_route_nodes g r1) as (j1 & Hj1 & Hc1 & Hi1).
  { by apply (dijkstra_path_nodes fuel _ start end_ DISTANCE hour). }
  destruct (export_route_nodes g r2) as (j2 & Hj2 & Hc2 & Hi2).
  { by apply (dijkstra_path_nodes fuel _ start end_ SPEED_LIMIT hour). }
  destruct (export_route_nodes g r3) as (j3 & Hj3 & Hc3 & Hi3).
  { by apply (dijkstra_path_nodes fuel _ start end_ LEARNED hour). }
  apply dijkstra_mode in H1 as [Hm1 _], H2 as [Hm2 _], H3 as [Hm3 _].
  unfold exportRouteToJSON, export_of. destruct is_open.
  - exists (RoutesWritten [j1; j2; j3]). cbn [mapM].
    rewrite Hj1, Hj2, Hj3. split; [done|]. cbn [fmap list_fmap].
    rewrite Hm1, Hm2, Hm3. split; [done|].
    exists [j1; j2; j3]. split; [done|]. by repeat constructor.
  - exists CouldNotCreateFile. split; [done|]. cbn [fmap list_fmap].
    by rewrite Hm1, Hm2, Hm3.
Qed.

Lemma max3_le (a b c n : nat) :
  (a `max` (b `max` c) ≤ n)%nat → (a ≤ n ∧ b ≤ n ∧ c ≤ n)%nat.
Proof. lia. Qed.

(** Over costs that are not negative the three searches of a round for a
    node return. *)
Lemma custom_routes_enough_fuel (g : Graph) (start end_ hour : Z) :
  (∀ mode_, costs_not_negative g mode_ hour) → is_Some (nodes g !! end_) →
  ∃ fuel0 routes, ∀ fuel, (fuel0 ≤ fuel)%nat →
    custom_routes fuel g start end_ hour = Some routes.
Proof.
  intros Hcosts Hend.
  destruct (dijkstra_enough_fuel g start end_ DISTANCE hour (Hcosts _) Hend)
    as (f1 & r1 & H1).
  destruct (dijkstra_enough_fuel g start end_ SPEED_LIMIT hour (Hcosts _) Hend)
    as (f2 & r2 & H2).
  destruct (dijkstra_enough_fuel g start end_ LEARNED hour (Hcosts _) Hend)
    as (f3 & r3 & H3).
  exists (f1 `max` (f2 `max` f3))%nat, [r1; r2; r3].
  intros fuel (? & ? & ?)%max3_le. unfold custom_routes.
  by rewrite H1, H2, H3.
Qed.



(** ** Sample nodes *)

Lemma collect_candidates_inv (fuel : nat) (g : Graph) (id samples : Z)
    (candidates : list Z) :
  scan_inv g id samples candidates → 10000000 - id < Z.of_nat fuel →
  ∃ cs id', collect_candidates fuel g id samples candidates = Some cs ∧
            scan_inv g id' (Z.of_nat (length cs)) cs ∧
            (id' = 10000000 ∨ length cs = 5000%nat).
Proof.
  revert id samples candidates.
  induction fuel as [|fuel IH]; intros id samples candidates Hinv Hfuel.
  { destruct Hinv. lia. }
  cbn [collect_candidates].
  destruct (Z.ltb_spec id 10000000) as [Hid|Hid];
    [destruct (Z.ltb_spec samples 5000) as [Hs|Hs]|]; cbn [andb].
  - destruct Hinv as [Hsamples Hbound Hrange Hsound Hnodup Hcomplete].
    destruct (has_edges g id) eqn:Hedges; apply IH; try lia; split; try lia.
    + rewrite length_app. cbn [length]. lia.
    + intros x [Hx| ->%list_elem_of_singleton]%elem_of_app; [|split; [lia|done]].
      destruct (Hsound x Hx). split; [lia|done].
    + apply NoDup_app. split; [done|]. split; [|apply NoDup_singleton].
      intros x Hx ->%list_elem_of_singleton. destruct (Hsound id Hx). lia.
    + intros _ x Hx Hxe. apply elem_of_app.
      destruct (decide (x = id)) as [->|Hne]; [right; apply list_elem_of_here|].
      left. apply Hcomplete; [done|lia|done].
    + intros x Hx. destruct (Hsound x Hx). split; [lia|done].
    + done.
    + intros _ x Hx Hxe. destruct (decide (x = id)) as [->|Hne]; [congruence|].
      apply Hcomplete; [done|lia|done].
  - exists candidates, id. destruct Hinv as [Hsamples Hbound ? ? ? ?].
    split; [done|]. split; [|right; lia]. by split; try lia; rewrite <- ?Hsamples.
  - exists candidates, id. destruct Hinv as [Hsamples Hbound ? ? ? ?].
    split; [done|]. split; [|left; lia]. by split; try lia; rewrite <- ?Hsamples.
Qed.

Lemma collect_candidates_all (g : Graph) :
  ∃ cs, collect_candidates (Z.to_nat 10000000) g 1 0 [] = Some cs ∧
        NoDup cs ∧ (length cs ≤ 5000)%nat ∧
        (∀ x, x ∈ cs → 1 ≤ x < 10000000 ∧ has_edges g x = true) ∧
        ((length cs < 5000)%nat →
         ∀ x, 1 ≤ x < 10000000 → has_edges g x = true → x ∈ cs).
Proof.
  destruct (collect_candidates_inv (Z.to_nat 10000000) g 1 0 [])
    as (cs & id' & Hcs & [_ Hbound Hid Hsound Hnodup Hcomplete] & Hend).
  { split; try done; try lia; try apply NoDup_nil_2.
    intros x Hx. by apply elem_of_nil in Hx. }
  { lia. }
  exists cs. split; [done|]. split; [done|]. split; [lia|]. split.
  - intros x Hx. destruct (Hsound x Hx). split; [lia|done].
  - intros Hlen x Hx Hxe. destruct Hend as [->|?]; [|lia].
    apply Hcomplete; [lia|done..].
Qed.

(** The sample is made of distinct identities in the scanned range that
    have outgoing edges. *)
Lemma getRandomConnectedNodes_props (shuffle : list Z → list Z) (g : Graph)
    (count : Z) :
  (∀ l, shuffle l ≡ₚ l) → 0 ≤ count →
  ∃ l, getRandomConnectedNodes shuffle g count = Some l ∧
       NoDup l ∧
       Z.of_nat (length l) ≤ Z.min count 5000 ∧
       (∀ x, x ∈ l → 1 ≤ x < 10000000 ∧ has_edges g x = true) ∧
       (2 ≤ count → l = [] ∨ (2 ≤ length l)%nat).
Proof.
  intros Hshuffle Hcount. unfold getRandomConnectedNodes.
  destruct (collect_candidates_all g) as (cs & -> & Hnodup & Hlen & Hsound & _).
  cbn [mbind option_bind].
  destruct (Nat.ltb_spec (length cs) 2) as [Hfew|Hmany].
  { exists []. split; [done|]. split; [constructor|]. cbn [length].
    split; [lia|]. split; [by intros x ?%elem_of_nil|auto]. }
  pose proof (Permutation_length (Hshuffle cs)) as Hslen.
  destruct (Z.ltb_spec (Z.min count (Z.of_nat (length (shuffle cs)))) 0); [lia|].
  eexists. split; [done|]. split; [|split; [|split]].
  - apply (sublist_NoDup _ (shuffle cs));
      first [apply sublist_take|by rewrite (Hshuffle cs)].
  - rewrite length_take. lia.
  - intros x Hx. apply Hsound. rewrite <- (Hshuffle cs).
    revert Hx. apply subseteq_take.
  - intros Htwo. right. rewrite length_take. lia.
Qed.

(** X17: for a count that is not negative, [getRandomConnectedNodes] returns
    distinct identities between 1 and 9999999 that each have at least one
    outgoing edge, at most [count] and at most 5000 of them; asked for two
    or more it returns none or at least two. *)
Theorem getRandomConnectedNodes_sound (shuffle : list Z → list Z) (g : Graph)
    (count : Z) :
  (∀ l, shuffle l ≡ₚ l) → 0 ≤ count →
  ∃ l, getRandomConnectedNodes shuffle g count = Some l ∧
       NoDup l ∧
       Z.of_nat (length l) ≤ Z.min count 5000 ∧
       (∀ x, x ∈ l → 1 ≤ x < 10000000 ∧ has_edges g x = true) ∧
       (2 ≤ count → l = [] ∨ (2 ≤ length l)%nat).
Proof. apply getRandomConnectedNodes_props. Qed.

Lemma getRandomConnectedNodes_sound_witness :
  ∃ l, getRandomConnectedNodes reverse three_in_a_row 10 = Some l ∧
       NoDup l ∧
       Z.of_nat (length l) ≤ Z.min 10 5000 ∧
       (∀ x, x ∈ l → 1 ≤ x < 10000000 ∧ has_edges three_in_a_row x = true) ∧
       (2 ≤ 10 → l = [] ∨ (2 ≤ length l)%nat).
Proof.
  apply (getRandomConnectedNodes_sound reverse three_in_a_row 10).
  - intros l. apply reverse_Permutation.
  - lia.
Defined.

(** X18: when two different identities between 1 and 9999999 have outgoing
    edges and two or more samples are asked for, [getRandomConnectedNodes]
    returns at least two identities. *)
Theorem getRandomConnectedNodes_finds_two (shuffle : list Z → list Z) (g : Graph)
    (count a b : Z) :
  (∀ l, shuffle l ≡ₚ l) → 2 ≤ count → a ≠ b →
  1 ≤ a < 10000000 → 1 ≤ b < 10000000 →
  has_edges g a = true → has_edges g b = true →
  ∃ l, getRandomConnectedNodes shuffle g count = Some l ∧
       (2 ≤ length l)%nat.
Proof.
  intros Hshuffle Hcount Hab Ha Hb Hea Heb. unfold getRandomConnectedNodes.
  destruct (collect_candidates_all g)
    as (cs & -> & Hnodup & Hlen & Hsound & Hcomplete).
  cbn [mbind option_bind].
  assert (2 ≤ length cs)%nat as Hmany.
  { destruct (decide (length cs < 5000)%nat) as [Hless|]; [|lia].
    pose proof (Hcomplete Hless a Ha Hea) as Hina.
    pose proof (Hcomplete Hless b Hb Heb) as Hinb.
    destruct cs as [|x [|y cs]]; cbn [length]; try lia.
    - by apply elem_of_nil in Hina.
    - apply list_elem_of_singleton in Hina, Hinb. congruence. }
  destruct (Nat.ltb_spec (length cs) 2) as [Hfew|_]; [lia|].
  pose proof (Permutation_length (Hshuffle cs)) as Hslen.
  destruct (Z.ltb_spec (Z.min count (Z.of_nat (length (shuffle cs)))) 0); [lia|].
  eexists. split; [done|]. rewrite length_take. lia.
Qed.

Lemma getRandomConnectedNodes_finds_two_witness :
  ∃ l, getRandomConnectedNodes reverse three_in_a_row 10 = Some l ∧
       (2 ≤ length l)%nat.
Proof.
  apply (getRandomConnectedNodes_finds_two reverse three_in_a_row 10 1 2).
  - intros l. apply reverse_Permutation.
  - lia.
  - lia.
  - lia.
  - lia.
  - reflexivity.
  - reflexivity.
Defined.

(** ** The map parser *)

Lemma stores_applyLearnedPatterns (draws : nat → float) (g : Graph) (k : Z)
    (edge' : Edge) :
  stores (applyLearnedPatterns draws g).2 k edge' →
  ∃ edge, stores g k edge ∧ annotated edge edge'.
Proof.
  intros (edges' & Hget & Hin).
  destruct (applyLearnedPatterns_frame draws g) as [_ Hframe].
  specialize (Hframe k). rewrite Hget in Hframe.
  inversion Hframe as [edges ? Hall Hold|]; subst.
  apply list_elem_of_lookup in Hin as [i Hi].
  destruct (Forall2_lookup_r _ _ _ _ _ Hall Hi) as (edge & Hedge & Hann).
  exists edge. split; [|done]. exists edges. split; [done|].
  by apply list_elem_of_lookup_2 in Hedge.
Qed.

Lemma annotated_fields (edge edge' : Edge) :
  annotated edge edge' →
  to edge' = to edge ∧ distance edge' = distance edge ∧
  road_type edge' = road_type edge ∧ speed_limit edge' = speed_limit edge.
Proof. by intros [->|(c & _ & ->)]. Qed.

Section parser_facts.
Variables (sin cos : float → float) (atan2 : float → float → float).
Variable sscanf_lld : string → string → option Z.
Variable sscanf_lf : string → string → option float.

Lemma add_way_edges_cons (g : Graph) (type : string) (a b : Z) (way : list Z) :
  add_way_edges sin cos atan2 g type (a :: b :: way) =
  add_way_edges sin cos atan2
    match getNode g a, getNode g b with
    | Some node1, Some node2 =>
        let dist := haversineDistance sin cos atan2 (lat node1) (lon node1)
                      (lat node2) (lon node2) in
        addEdge (addEdge g a b dist type) b a dist type
    | _, _ => g
    end type (b :: way).
Proof. reflexivity. Qed.

Lemma parse_node_graph (line : string) (st st' : ParseState) :
  parse_node sscanf_lld sscanf_lf line st = Some st' →
  graph st' = graph st ∨
  ∃ id lat_ lon_, graph st' = addNode (graph st) id lat_ lon_.
Proof.
  unfold parse_node. intros H.
  repeat (case_match; simplify_option_eq); eauto.
Qed.

Lemma parse_nd_ref_graph (line : string) (st st' : ParseState) :
  parse_nd_ref sscanf_lld line st = Some st' → graph st' = graph st.
Proof.
  unfold parse_nd_ref. intros H.
  by repeat (case_match; simplify_option_eq).
Qed.

Lemma parse_highway_tag_graph (line : string) (st : ParseState) :
  graph (parse_highway_tag line st) = graph st.
Proof. unfold parse_highway_tag. by case_match. Qed.

Lemma parse_way_open_graph (line : string) (st : ParseState) :
  graph (parse_way_open line st) = graph st.
Proof. unfold parse_way_open. by case_match. Qed.

Lemma parse_way_close_graph (line : string) (st st' : ParseState) :
  parse_way_close sin cos atan2 line st = Some st' →
  graph st' = graph st ∨
  graph st' = add_way_edges sin cos atan2 (graph st) (highwayType st) (wayNodes st).
Proof.
  unfold parse_way_close. intros H.
  repeat (case_match; simplify_option_eq); eauto.
Qed.

Section graph_induction.
Variable P : Graph → Prop.
Hypothesis P_addNode : ∀ g id lat_ lon_, P g → P (addNode g id lat_ lon_).
Hypothesis P_addEdges : ∀ g a b node1 node2 type,
  P g → getNode g a = Some node1 → getNode g b = Some node2 →
  P (addEdge
       (addEdge g a b
          (haversineDistance sin cos atan2 (lat node1) (lon node1)
             (lat node2) (lon node2)) type)
       b a
       (haversineDistance sin cos atan2 (lat node1) (lon node1)
          (lat node2) (lon node2)) type).

Lemma add_way_edges_ind (g : Graph) (type : string) (way : list Z) :
  P g → P (add_way_edges sin cos atan2 g type way).
Proof.
  revert g. induction way as [|a way IH]; intros g Hg; [done|].
  destruct way as [|b way]; [done|].
  rewrite add_way_edges_cons. apply IH.
  destruct (getNode g a) as [node1|] eqn:Ha; [|done].
  destruct (getNode g b) as [node2|] eqn:Hb; [|done].
  by apply P_addEdges.
Qed.

Lemma parse_line_ind (line : string) (st st' : ParseState) :
  parse_line sin cos atan2 sscanf_lld sscanf_lf line st = Some st' →
  P (graph st) → P (graph st').
Proof.
  unfold parse_line. intros H Hg.
  destruct (parse_node _ _ line st) as [st1|] eqn:H1; [|done].
  cbn [mbind option_bind] in H.
  destruct (parse_nd_ref _ line _) as [st2|] eqn:H2; [|done].
  cbn [mbind option_bind] in H.
  apply parse_nd_ref_graph in H2.
  rewrite parse_highway_tag_graph, parse_way_open_graph in H2.
  assert (P (graph st2)) as Hg2.
  { rewrite H2. apply parse_node_graph in H1 as [->|(i & la & lo & ->)]; auto. }
  apply parse_way_close_graph in H as [->| ->]; [done|].
  by apply add_way_edges_ind.
Qed.

Lemma parse_lines_ind (lines : list string) (st st' : ParseState) :
  parse_lines sin cos atan2 sscanf_lld sscanf_lf lines st = Some st' →
  P (graph st) → P (graph st').
Proof.
  revert st. induction lines as [|line lines IH]; intros st H Hg.
  - by injection H as <-.
  - cbn [parse_lines] in H.
    destruct (parse_line _ _ _ _ _ line st) as [st1|] eqn:H1; [|done].
    apply (IH st1 H). by apply (parse_line_ind line st).
Qed.

Lemma parseOSM_ind (file : option (list string)) (g g' : Graph) (ok : bool) :
  parseOSM sin cos atan2 sscanf_lld sscanf_lf file g = Some (ok, g') →
  P g → P g'.
Proof.
  unfold parseOSM. destruct file as [lines|]; [|by intros [= _ <-]].
  destruct (parse_lines _ _ _ _ _ lines _) as [st|] eqn:Hst; [|done].
  intros [= _ <-]. by apply (parse_lines_ind _ _ _ Hst).
Qed.

End graph_induction.

End parser_facts.

Lemma closed_addNode (g : Graph) (id : Z) (lat_ lon_ : float) :
  closed g → closed (addNode g id lat_ lon_).
Proof.
  intros Hg from edge Hst. destruct (Hg from edge Hst) as [Hfrom Hto].
  cbn [addNode nodes]. rewrite !lookup_insert_is_Some'. auto.
Qed.

Lemma closed_addEdge (g : Graph) (a b : Z) (d : float) (rt : string) :
  closed g → is_Some (nodes g !! a) → is_Some (nodes g !! b) →
  closed (addEdge g a b d rt).
Proof.
  intros Hg Ha Hb from edge Hst.
  destruct (addEdge_stores g a b d rt) as (_ & _ & ->).
  apply stores_addEdge in Hst as [Hst|[-> ->]]; [by apply Hg|done].
Qed.

Lemma two_way_addEdges (g : Graph) (a b : Z) (d : float) (rt : string) :
  two_way g → two_way (addEdge (addEdge g a b d rt) b a d rt).
Proof.
  intros Hg from edge Hst.
  apply stores_addEdge in Hst as [Hst|[-> ->]];
    [apply stores_addEdge in Hst as [Hst|[-> ->]]|].
  - destruct (Hg from edge Hst) as (edge' & Hst' & Hfields).
    exists edge'. split; [|done]. rewrite !stores_addEdge. auto.
  - exists (mkEdge a d (speed_limit_of rt) rt 1). split; [|done].
    rewrite !stores_addEdge. auto.
  - exists (mkEdge b d (speed_limit_of rt) rt 1). split; [|done].
    rewrite !stores_addEdge. auto.
Qed.

(** X19: [parseOSM] keeps a graph closed: when every stored edge led from a
    node to a node before the call, so it does after it; an identity of a
    way that no node line introduced before the way was closed gets no
    edge. *)
Theorem parseOSM_closed (sin cos : float → float) (atan2 : float → float → float)
    (sscanf_lld : string → string → option Z)
    (sscanf_lf : string → string → option float)
    (file : option (list string)) (g g' : Graph) (ok : bool) :
  closed g →
  parseOSM sin cos atan2 sscanf_lld sscanf_lf file g = Some (ok, g') →
  closed g'.
Proof.
  intros Hg Hparse.
  apply (parseOSM_ind sin cos atan2 sscanf_lld sscanf_lf closed) in Hparse;
    try done.
  - intros. by apply closed_addNode.
  - intros g0 a b node1 node2 type Hg0 Ha Hb. unfold getNode in *.
    apply closed_addEdge; [apply closed_addEdge| |]; try done.
    all: by destruct (addEdge_stores g0 a b
           (haversineDistance sin cos atan2 (lat node1) (lon node1)
              (lat node2) (lon node2)) type) as (_ & _ & ->).
Qed.

Lemma parseOSM_closed_witness :
  ∃ g', parseOSM (fun x => x) (fun x => x) (fun y _ => y)
          scan_unsigned scan_unsigned_double (Some example_map) empty_graph
        = Some (true, g') ∧ closed g'.
Proof.
  eexists. split; [vm_compute; reflexivity|].
  apply (parseOSM_closed (fun x => x) (fun x => x) (fun y _ => y)
           scan_unsigned scan_unsigned_double (Some example_map) empty_graph _ true).
  - intros from edge (edges & Hget & _). discriminate Hget.
  - vm_compute. reflexivity.
Defined.

(** X20: [parseOSM] keeps a graph two-way: it stores the edges of a way in
    pairs, one per direction, with the same distance, road class and speed
    limit. *)
Theorem parseOSM_two_way (sin cos : float → float) (atan2 : float → float → float)
    (sscanf_lld : string → string → option Z)
    (sscanf_lf : string → string → option float)
    (file : option (list string)) (g g' : Graph) (ok : bool) :
  two_way g →
  parseOSM sin cos atan2 sscanf_lld sscanf_lf file g = Some (ok, g') →
  two_way g'.
Proof.
  intros Hg Hparse.
  apply (parseOSM_ind sin cos atan2 sscanf_lld sscanf_lf two_way) in Hparse;
    try done.
  intros. by apply two_way_addEdges.
Qed.

Lemma parseOSM_two_way_witness :
  ∃ g', parseOSM (fun x => x) (fun x => x) (fun y _ => y)
          scan_unsigned scan_unsigned_double (Some example_map) empty_graph
        = Some (true, g') ∧ two_way g'.
Proof.
  eexists. split; [vm_compute; reflexivity|].
  apply (parseOSM_two_way (fun x => x) (fun x => x) (fun y _ => y)
           scan_unsigned scan_unsigned_double (Some example_map) empty_graph _ true).
  - intros from edge (edges & Hget & _). discriminate Hget.
  - vm_compute. reflexivity.
Defined.

(** ** Distances of parsed maps *)

Lemma SFsqrt_sign (x : spec_float) :
  x ≠ S754_zero true → sf_negative (SFsqrt prec emax x) = false.
Proof.
  destruct x as [[]|[]| |[] mx ex]; intros Hx; try done.
  unfold SFsqrt.
  destruct (SFsqrt_core_binary prec emax (Z.pos mx) ex) as [[mz ez] lz].
  apply binary_round_aux_positive.
Qed.

Lemma haversineDistance_sign (sin cos : float → float)
    (atan2 : float → float → float) (lat1 lon1 lat2 lon2 : float) :
  (∀ y x, sign_clear y → sign_clear (atan2 y x)) →
  atan2 neg_zero 1%float = neg_zero →
  not_negative (haversineDistance sin cos atan2 lat1 lon1 lat2 lon2).
Proof.
  intros Hsign Hzero. unfold haversineDistance.
  set (a := (_ + _)%float).
  assert (Prim2SF a = S754_zero true ∨ Prim2SF a ≠ S754_zero true) as [Ha|Ha].
  { destruct (Prim2SF a) as [[]| | |]; auto; by right. }
  - assert (a = neg_zero) as ->.
    { rewrite <- (SF2Prim_Prim2SF a), Ha. reflexivity. }
    change (sqrt neg_zero) with neg_zero.
    change (sqrt (1 - neg_zero)) with 1%float.
    rewrite Hzero. reflexivity.
  - apply sign_clear_not_negative, mul_sign_clear; [reflexivity|].
    apply mul_sign_clear; [reflexivity|]. apply Hsign.
    unfold sign_clear. rewrite sqrt_spec. by apply SFsqrt_sign.
Qed.

(** X21: the distance that [haversineDistance] returns is never below zero,
    whatever the coordinates, given two facts of the contract of [atan2]:
    a first argument with a clear sign bit gives a result with a clear sign
    bit, and [atan2(-0.0, 1.0)] is [-0.0]. *)
Theorem haversineDistance_not_negative (sin cos : float → float)
    (atan2 : float → float → float) (lat1 lon1 lat2 lon2 : float) :
  (∀ y x, sign_clear y → sign_clear (atan2 y x)) →
  atan2 neg_zero 1%float = neg_zero →
  (haversineDistance sin cos atan2 lat1 lon1 lat2 lon2 <? 0)%float = false.
Proof. apply haversineDistance_sign. Qed.

Lemma haversineDistance_not_negative_witness :
  (haversineDistance (fun x => x) (fun x => x) (fun y _ => y) 10 20 11 20 <? 0)%float
  = false.
Proof.
  apply (haversineDistance_not_negative (fun x => x) (fun x => x) (fun y _ => y)).
  - intros y _ Hy. exact Hy.
  - reflexivity.
Defined.

Lemma run_ops_snoc (ops : list GraphOp) (op : GraphOp) :
  run_ops (ops ++ [op]) = apply_op (run_ops ops) op.
Proof. unfold run_ops. by rewrite fold_left_app. Qed.

(** A parsed map is the graph of a history of [addNode] and [addEdge] calls
    whose distances come from [haversineDistance]. *)
Lemma parseOSM_run_ops (sin cos : float → float) (atan2 : float → float → float)
    (sscanf_lld : string → string → option Z)
    (sscanf_lf : string → string → option float)
    (file : option (list string)) (g : Graph) (ok : bool) :
  parseOSM sin cos atan2 sscanf_lld sscanf_lf file empty_graph = Some (ok, g) →
  ∃ ops, g = run_ops ops ∧ Forall (parser_op sin cos atan2) ops.
Proof.
  intros Hparse.
  apply (parseOSM_ind sin cos atan2 sscanf_lld sscanf_lf
           (fun g => ∃ ops, g = run_ops ops ∧ Forall (parser_op sin cos atan2) ops))
    in Hparse; [done| | |by exists []].
  - intros g0 id_ lat_ lon_ (ops & -> & Hops).
    exists (ops ++ [OpAddNode id_ lat_ lon_]). rewrite run_ops_snoc.
    split; [done|]. apply Forall_app. by repeat constructor.
  - intros g0 a b node1 node2 type (ops & -> & Hops) _ _.
    eexists (ops ++ [OpAddEdge a b _ type; OpAddEdge b a _ type]).
    rewrite (assoc_L _ ops [_] [_] : ops ++ [_; _] = (ops ++ [_]) ++ [_]).
    rewrite !run_ops_snoc. split; [done|].
    rewrite !Forall_app. split_and!; [done|..]; apply Forall_singleton; cbn; eauto.
Qed.

Lemma parser_ops_not_negative (sin cos : float → float)
    (atan2 : float → float → float) (ops : list GraphOp) :
  (∀ y x, sign_clear y → sign_clear (atan2 y x)) →
  atan2 neg_zero 1%float = neg_zero →
  Forall (parser_op sin cos atan2) ops → distances_not_negative ops.
Proof.
  intros Hsign Hzero Hops. eapply Forall_impl; [exact Hops|].
  intros [| |] Hop; try done. destruct Hop as (lat1 & lon1 & lat2 & lon2 & ->).
  by apply haversineDistance_sign.
Qed.

Lemma distances_not_negative_snoc (ops : list GraphOp) (draws : nat → float) :
  distances_not_negative ops →
  distances_not_negative (ops ++ [OpApplyLearnedPatterns draws]).
Proof. intros Hops. apply Forall_app. by repeat constructor. Qed.

(** X22: in a map parsed into an empty graph no stored edge has a negative
    cost, in any mode and at any hour, before and after the annotation
    pass, given the two facts of the contract of [atan2]. *)
Theorem parsed_costs_not_negative (sin cos : float → float)
    (atan2 : float → float → float)
    (sscanf_lld : string → string → option Z)
    (sscanf_lf : string → string → option float)
    (file : option (list string)) (g : Graph) (ok : bool)
    (draws : nat → float) (mode_ : RouteMode) (hour : Z) :
  (∀ y x, sign_clear y → sign_clear (atan2 y x)) →
  atan2 neg_zero 1%float = neg_zero →
  parseOSM sin cos atan2 sscanf_lld sscanf_lf file empty_graph = Some (ok, g) →
  costs_not_negative g mode_ hour ∧
  costs_not_negative (applyLearnedPatterns draws g).2 mode_ hour.
Proof.
  intros Hsign Hzero Hparse.
  apply parseOSM_run_ops in Hparse as (ops & -> & Hops).
  apply (parser_ops_not_negative _ _ _ _ Hsign Hzero) in Hops. split.
  - by apply run_ops_costs_not_negative.
  - change (applyLearnedPatterns draws (run_ops ops)).2
      with (apply_op (run_ops ops) (OpApplyLearnedPatterns draws)).
    rewrite <- run_ops_snoc.
    by apply run_ops_costs_not_negative, distances_not_negative_snoc.
Qed.

Lemma parsed_costs_not_negative_witness :
  ∃ g, parseOSM (fun x => x) (fun x => x) (fun y _ => y)
         scan_unsigned scan_unsigned_double (Some example_map) empty_graph
       = Some (true, g) ∧
       costs_not_negative g LEARNED 17 ∧
       costs_not_negative (applyLearnedPatterns (fun _ => 0%float) g).2 LEARNED 17.
Proof.
  eexists. split; [vm_compute; reflexivity|].
  apply (parsed_costs_not_negative (fun x => x) (fun x => x) (fun y _ => y)
           scan_unsigned scan_unsigned_double (Some example_map) _ true).
  - intros y _ Hy. exact Hy.
  - reflexivity.
  - vm_compute. reflexivity.
Defined.

(** ** The first routes of [main] *)

Lemma closed_applyLearnedPatterns (draws : nat → float) (g : Graph) :
  closed g → closed (applyLearnedPatterns draws g).2.
Proof.
  intros Hg from edge' Hst.
  destruct (applyLearnedPatterns_frame draws g) as [-> _].
  apply stores_applyLearnedPatterns in Hst as (edge & Hst & Hann).
  apply annotated_fields in Hann as (-> & _). by apply Hg.
Qed.

Lemma closed_parsed (sin cos : float → float) (atan2 : float → float → float)
    (sscanf_lld : string → string → option Z)
    (sscanf_lf : string → string → option float)
    (file : option (list string)) (g : Graph) (ok : bool) :
  parseOSM sin cos atan2 sscanf_lld sscanf_lf file empty_graph = Some (ok, g) →
  closed g.
Proof.
  intros Hparse.
  apply (parseOSM_ind sin cos atan2 sscanf_lld sscanf_lf closed) in Hparse;
    try done.
  - intros. by apply closed_addNode.
  - intros g0 a b node1 node2 type Hg0 Ha Hb. unfold getNode in *.
    apply closed_addEdge; [apply closed_addEdge| |]; try done.
    all: by destruct (addEdge_stores g0 a b
           (haversineDistance sin cos atan2 (lat node1) (lon node1)
              (lat node2) (lon node2)) type) as (_ & _ & ->).
  - intros from edge (edges & Hget & _). discriminate Hget.
Qed.

Lemma has_edges_stores (g : Graph) (x : Z) :
  has_edges g x = true → ∃ edge, stores g x edge.
Proof.
  unfold has_edges. destruct (getEdges g x) as [[|edge edges]|] eqn:Hget; try done.
  intros _. exists edge, (edge :: edges). split; [done|apply list_elem_of_here].
Qed.

(** The graph [main] searches: closed, and without negative costs. *)
Lemma main_graph (sin cos : float → float) (atan2 : float → float → float)
    (sscanf_lld : string → string → option Z)
    (sscanf_lf : string → string → option float)
    (draws : nat → float) (file : option (list string)) (g : Graph) (ok : bool) :
  (∀ y x, sign_clear y → sign_clear (atan2 y x)) →
  atan2 neg_zero 1%float = neg_zero →
  parseOSM sin cos atan2 sscanf_lld sscanf_lf file empty_graph = Some (ok, g) →
  closed (applyLearnedPatterns draws g).2 ∧
  (∀ mode_ hour, costs_not_negative (applyLearnedPatterns draws g).2 mode_ hour) ∧
  (ok = false → file = None).
Proof.
  intros Hsign Hzero Hparse. split_and!.
  - apply closed_applyLearnedPatterns. by apply closed_parsed in Hparse.
  - intros mode_ hour. apply parseOSM_run_ops in Hparse as (ops & -> & Hops).
    apply (parser_ops_not_negative _ _ _ _ Hsign Hzero) in Hops.
    change (applyLearnedPatterns draws (run_ops ops)).2
      with (apply_op (run_ops ops) (OpApplyLearnedPatterns draws)).
    rewrite <- run_ops_snoc.
    by apply run_ops_costs_not_negative, distances_not_negative_snoc.
  - unfold parseOSM in Hparse. destruct file as [lines|]; [|done].
    destruct (parse_lines _ _ _ _ _ lines _); [|done]. by injection Hparse as <- _.
Qed.

Lemma sample_is_node (g : Graph) (l : list Z) (x : Z) :
  closed g → (∀ y, y ∈ l → 1 ≤ y < 10000000 ∧ has_edges g y = true) →
  x ∈ l → is_Some (nodes g !! x).
Proof.
  intros Hclosed Hsound Hx. destruct (Hsound x Hx) as [_ Hedges].
  apply has_edges_stores in Hedges as [edge Hst]. by apply (Hclosed x edge).
Qed.

(** X23: [main], from the parsing of the map up to its first export, comes
    to an end on every map on which the parser has defined behaviour, and
    never by the dereference of a null node pointer, given the two facts of
    the contract of [atan2] and a shuffle that permutes: either the map file
    cannot be opened, or fewer than two sample nodes are found, or three
    routes are found, one per mode, and compared, and the export either
    cannot create its file and writes nothing, or writes the three routes,
    each in its colour and with one waypoint per path entry in path
    order. *)
Theorem main_first_routes_exports (sin cos : float → float)
    (atan2 : float → float → float)
    (sscanf_lld : string → string → option Z)
    (sscanf_lf : string → string → option float)
    (draws : nat → float) (shuffle : list Z → list Z)
    (file : option (list string)) :
  (∀ y x, sign_clear y → sign_clear (atan2 y x)) →
  atan2 neg_zero 1%float = neg_zero →
  (∀ l, shuffle l ≡ₚ l) →
  (is_Some (parseOSM sin cos atan2 sscanf_lld sscanf_lf file empty_graph) →
   ∃ fuel0, ∀ fuel is_open, (fuel0 ≤ fuel)%nat →
     is_Some (main_first_routes sin cos atan2 sscanf_lld sscanf_lf draws shuffle
                fuel file is_open)) ∧
  (∀ fuel is_open o,
     main_first_routes sin cos atan2 sscanf_lld sscanf_lf draws shuffle fuel file
       is_open = Some o →
     (o = CouldNotParse ∧ file = None) ∨ o = NoConnectedNodes ∨
     ∃ routes export,
       o = MainDone routes export ∧
       mode <$> routes = [DISTANCE; SPEED_LIMIT; LEARNED] ∧
       export_of is_open routes export).
Proof.
  intros Hsign Hzero Hshuffle. unfold main_first_routes.
  destruct (parseOSM _ _ _ _ _ file empty_graph) as [[ok g]|] eqn:Hparse.
  2:{ split; [by intros [? ?]|done]. }
  cbn [mbind option_bind fst snd].
  destruct (main_graph _ _ _ _ _ draws _ _ _ Hsign Hzero Hparse)
    as (Hclosed & Hcosts & Hfile).
  destruct ok; cbn [negb].
  2:{ split; [by exists 0%nat|]. intros ? ? o [= <-]. left. auto. }
  destruct (getRandomConnectedNodes_props shuffle (applyLearnedPatterns draws g).2 10
              Hshuffle) as (l & -> & _ & _ & Hsound & _); [lia|].
  cbn [mbind option_bind].
  destruct l as [|start [|end_ l]].
  1-2: split; [by exists 0%nat|]; intros ? ? o [= <-]; auto.
  assert (is_Some (nodes (applyLearnedPatterns draws g).2 !! start)) as Hstart.
  { apply (sample_is_node _ _ _ Hclosed Hsound), list_elem_of_here. }
  assert (is_Some (nodes (applyLearnedPatterns draws g).2 !! end_)) as Hend.
  { apply (sample_is_node _ _ _ Hclosed Hsound).
    apply list_elem_of_further, list_elem_of_here. }
  split.
  - intros _.
    destruct (custom_routes_enough_fuel _ start end_ 17 (fun m => Hcosts m 17) Hend)
      as (fuel0 & routes & Hroutes).
    exists fuel0. intros fuel is_open Hfuel. rewrite (Hroutes fuel Hfuel).
    cbn [mbind option_bind].
    destruct (custom_routes_export fuel is_open _ start end_ 17 routes
                (fun m => Hcosts m 17)) as (export & -> & _); by auto.
  - intros fuel is_open o.
    destruct (custom_routes fuel _ start end_ 17) as [routes|] eqn:Hroutes; [|done].
    cbn [mbind option_bind].
    destruct (custom_routes_export fuel is_open _ start end_ 17 routes
                (fun m => Hcosts m 17)) as (export & -> & Hmodes & Hexport);
      try done.
    cbn [mbind option_bind]. intros [= <-].
    right. right. by exists routes, export.
Qed.

Lemma main_first_routes_exports_witness :
  ∃ o,
    main_first_routes (fun x => x) (fun x => x) (fun y _ => y)
      scan_unsigned scan_unsigned_double (fun _ => 0%float) reverse 8
      (Some example_map) true = Some o ∧
    ((o = CouldNotParse ∧ Some example_map = None) ∨ o = NoConnectedNodes ∨
     ∃ routes export,
       o = MainDone routes export ∧
       mode <$> routes = [DISTANCE; SPEED_LIMIT; LEARNED] ∧
       export_of true routes export).
Proof.
  eexists.
  refine ((fun H => conj H
             (proj2 (main_first_routes_exports (fun x => x) (fun x => x)
                       (fun y _ => y) scan_unsigned scan_unsigned_double
                       (fun _ => 0%float) reverse (Some example_map)
                       (fun y _ Hy => Hy) eq_refl reverse_Permutation)
                8%nat true _ H)) _).
  vm_compute. reflexivity.
Defined.
(** ** Signs of the reported totals *)

Lemma summed_edges_stored (g : Graph) (l : list Z) :
  Forall (fun edge => ∃ from, stores g from edge) (summed_edges g l).
Proof.
  induction l as [|a l IH]; [constructor|].
  destruct l as [|b l]; [constructor|].
  change (summed_edges g (a :: b :: l))
    with (match first_edge_to g a b with
          | Some edge => edge :: summed_edges g (b :: l)
          | None => summed_edges g (b :: l)
          end).
  destruct (first_edge_to g a b) as [edge|] eqn:Hedge; [|done].
  constructor; [|done]. exists a. unfold first_edge_to in Hedge.
  destruct (getEdges g a) as [edges|] eqn:Hget; [|done].
  cbn [mbind option_bind] in Hedge. apply List.find_some in Hedge as [Hin _].
  exists edges. split; [done|]. by apply list_elem_of_In.
Qed.

Lemma sum_doubles_not_negative (l : list float) :
  Forall not_negative l → not_negative (sum_doubles l).
Proof.
  unfold sum_doubles. assert (not_negative 0%float) as Hacc by done.
  revert Hacc. generalize 0%float. intros acc Hacc Hl. revert acc Hacc.
  induction Hl as [|x l Hx _ IH]; intros acc Hacc; [done|].
  cbn [fold_left]. by apply IH, add_not_negative.
Qed.

(** X24: on a graph built without negative distances, the total distance
    and the estimated time that a search reports are never below zero, in
    any mode and at any hour. *)
Theorem dijkstra_totals_not_negative (fuel : nat) (ops : list GraphOp)
    (start end_ : Z) (mode_ : RouteMode) (hour : Z) (r : RouteResult) :
  distances_not_negative ops →
  dijkstra fuel (run_ops ops) start end_ mode_ hour = Some r →
  (total_distance r <? 0)%float = false ∧ (estimated_time r <? 0)%float = false.
Proof.
  intros Hops. unfold dijkstra.
  destruct (search_loop _ _ _ _ _ _) as [st|]; [|done].
  destruct (subscript _ _ _) as [d ds].
  destruct (d =? infinity)%float; [by intros [= <-]|].
  destruct (walk_back _ _ _ _ _) as [p|]; [|done].
  rewrite route_metrics_sum. intros [= <-]. cbn [total_distance estimated_time].
  pose proof (summed_edges_stored (run_ops ops) (rev (p ++ [start]))) as Hst.
  split; apply sum_doubles_not_negative, Forall_fmap;
    (eapply Forall_impl; [exact Hst|]); intros edge (from & edges & Hget & Hin).
  - pose proof (run_ops_costs_not_negative ops DISTANCE hour Hops from edges Hget)
      as Hall.
    by apply (proj1 (Forall_forall _ _) Hall).
  - pose proof (run_ops_costs_not_negative ops LEARNED hour Hops from edges Hget)
      as Hall.
    by apply (proj1 (Forall_forall _ _) Hall).
Qed.

Lemma dijkstra_totals_not_negative_witness :
  ∃ r,
    dijkstra 8
      (run_ops [OpAddNode 1 0 0; OpAddNode 2 0 1; OpAddEdge 1 2 120 "residential";
                OpAddEdge 2 1 120 "residential"]) 1 2 LEARNED 17 = Some r ∧
    (total_distance r <? 0)%float = false ∧ (estimated_time r <? 0)%float = false.
Proof.
  eexists.
  refine ((fun H => conj H
             (dijkstra_totals_not_negative 8
                [OpAddNode 1 0 0; OpAddNode 2 0 1; OpAddEdge 1 2 120 "residential";
                 OpAddEdge 2 1 120 "residential"] 1 2 LEARNED 17 _
                ltac:(repeat constructor) H)) _).
  vm_compute. reflexivity.
Defined.
